(** * LibreOffice compiler plugins: redundantcast, passparamsbyref, commaoperator

    A shallow embedding of three clang plugins of the LibreOffice tree

    - [compilerplugins/clang/commaoperator.cxx]
    - [compilerplugins/clang/passparamsbyref.cxx]
    - the redundant-cast plugin (class [RedundantCast])

    together with the part of the clang AST they inspect.  The plugins are
    visitors: every [Visit...] callback is a function from the visited node
    to the list of diagnostics it reports, and the one plugin that carries
    state ([PassParamsByRef]) threads it explicitly. *)

From Stdlib Require Import ZArith Lia List Bool String.
From stdpp Require Import base decidable gmap sets list strings.

Import ListNotations.
Local Open Scope Z_scope.
Set Warnings "-register-all".

(** ** The clang side: locations, types, expressions *)

Module Clang.

(** A source location, as the [SourceManager] classifies it.  A macro
    location records the name [Lexer::getImmediateMacroName] yields for it,
    whether it sits at the start of its immediate macro expansion, its
    immediate spelling location and the start of its immediate expansion
    range. *)
Inductive SourceLocation : Type :=
| FileLoc (file : string) (offset : nat)
| MacroBodyLoc (macro : string) (atStart : bool)
               (spelling expansion : SourceLocation)
| MacroArgLoc (macro : string) (atStart : bool)
              (spelling expansion : SourceLocation).

#[global] Instance SourceLocation_eq_dec : EqDecision SourceLocation.
Proof. solve_decision. Defined.

Definition isMacroID (l : SourceLocation) : bool :=
  match l with FileLoc _ _ => false | _ => true end.

Definition isMacroBodyExpansion (l : SourceLocation) : bool :=
  match l with MacroBodyLoc _ _ _ _ => true | _ => false end.

Definition isMacroArgExpansion (l : SourceLocation) : bool :=
  match l with MacroArgLoc _ _ _ _ => true | _ => false end.

Definition isAtStartOfImmediateMacroExpansion (l : SourceLocation) : bool :=
  match l with
  | FileLoc _ _ => false
  | MacroBodyLoc _ a _ _ | MacroArgLoc _ a _ _ => a
  end.

Definition getImmediateMacroName (l : SourceLocation) : string :=
  match l with
  | FileLoc _ _ => ""
  | MacroBodyLoc n _ _ _ | MacroArgLoc n _ _ _ => n
  end.

(** [SourceManager::getImmediateMacroCallerLoc]: a file location is its own
    caller; the caller of an expanded macro argument is found through its
    spelling location; otherwise it is where the macro is expanded. *)
Definition getImmediateMacroCallerLoc (l : SourceLocation) : SourceLocation :=
  match l with
  | FileLoc _ _ => l
  | MacroArgLoc _ _ sp _ => sp
  | MacroBodyLoc _ _ _ ex => ex
  end.

Fixpoint getSpellingLoc (l : SourceLocation) : SourceLocation :=
  match l with
  | FileLoc _ _ => l
  | MacroBodyLoc _ _ sp _ | MacroArgLoc _ _ sp _ => getSpellingLoc sp
  end.

(** The loop
    [while (SM.isMacroArgExpansion(l)) l = SM.getImmediateMacroCallerLoc(l);] *)
Fixpoint skipMacroArgExpansions (l : SourceLocation) : SourceLocation :=
  match l with
  | MacroArgLoc _ _ sp _ => skipMacroArgExpansions sp
  | _ => l
  end.

(** *** Types *)

Inductive BuiltinKind : Type :=
| BK_Void | BK_Bool | BK_Char | BK_UChar | BK_Short | BK_UShort
| BK_Int | BK_UInt | BK_Long | BK_ULong | BK_LongLong | BK_ULongLong
| BK_Float | BK_Double | BK_LongDouble | BK_NullPtr.

#[global] Instance BuiltinKind_eq_dec : EqDecision BuiltinKind.
Proof. solve_decision. Defined.

Inductive TagKind : Type := TTK_Struct | TTK_Class | TTK_Union.

#[global] Instance TagKind_eq_dec : EqDecision TagKind.
Proof. solve_decision. Defined.

(** A record declaration: its identifier, its tag, the names of the
    namespaces enclosing it (innermost first, [[]] at global scope) and
    whether a complete definition is visible. *)
Record RecordDecl : Type := mkRecordDecl {
  recordName : string;
  recordTag : TagKind;
  recordNamespaces : list string;
  isCompleteDefinition : bool
}.

#[global] Instance RecordDecl_eq_dec : EqDecision RecordDecl.
Proof. solve_decision. Defined.

(** A type node.  Where clang stores a [QualType] (a node with its local
    const and volatile bits) inside a node, the node and the two bits are
    stored side by side. *)
Inductive Ty : Type :=
| BuiltinType (k : BuiltinKind)
| PointerType (pointee : Ty) (pointeeConst pointeeVolatile : bool)
| LValueReferenceType (pointee : Ty) (pointeeConst pointeeVolatile : bool)
| RValueReferenceType (pointee : Ty) (pointeeConst pointeeVolatile : bool)
| ConstantArrayType (element : Ty) (elementConst elementVolatile : bool)
                    (size : nat)
| VectorType (element : Ty) (numElements : nat)
| FunctionProtoType
| RecordType (decl : RecordDecl)
| EnumType (name : string)
| TypedefType (name : string)
              (underlying : Ty) (underlyingConst underlyingVolatile : bool).

#[global] Instance Ty_eq_dec : EqDecision Ty.
Proof. solve_decision. Defined.

Record QualType : Type := mkQualType {
  getTypePtr : Ty;
  isLocalConstQualified : bool;
  isLocalVolatileQualified : bool
}.

#[global] Instance QualType_eq_dec : EqDecision QualType.
Proof. solve_decision. Defined.

Definition hasLocalQualifiers (t : QualType) : bool :=
  isLocalConstQualified t || isLocalVolatileQualified t.

(** Canonical form of a node: typedefs are resolved at every level; the
    qualifiers a resolved typedef carried are returned with the node. *)
Fixpoint canonTy (t : Ty) : Ty * (bool * bool) :=
  match t with
  | TypedefType _ u c v =>
      let '(u', (c', v')) := canonTy u in (u', (c || c', v || v'))
  | PointerType p c v =>
      let '(p', (c', v')) := canonTy p in
      (PointerType p' (c || c') (v || v'), (false, false))
  | LValueReferenceType p c v =>
      let '(p', (c', v')) := canonTy p in
      (LValueReferenceType p' (c || c') (v || v'), (false, false))
  | RValueReferenceType p c v =>
      let '(p', (c', v')) := canonTy p in
      (RValueReferenceType p' (c || c') (v || v'), (false, false))
  | ConstantArrayType e c v n =>
      let '(e', (c', v')) := canonTy e in
      (ConstantArrayType e' (c || c') (v || v') n, (false, false))
  | VectorType e n => (VectorType (fst (canonTy e)) n, (false, false))
  | _ => (t, (false, false))
  end.

Definition getCanonicalType (t : QualType) : QualType :=
  let '(t', (c, v)) := canonTy (getTypePtr t) in
  mkQualType t' (isLocalConstQualified t || c) (isLocalVolatileQualified t || v).

(** [QualType::getDesugaredType]: only the outermost sugar is removed. *)
Fixpoint desugarTy (t : Ty) : Ty * (bool * bool) :=
  match t with
  | TypedefType _ u c v =>
      let '(u', (c', v')) := desugarTy u in (u', (c || c', v || v'))
  | _ => (t, (false, false))
  end.

Definition getDesugaredType (t : QualType) : QualType :=
  let '(t', (c, v)) := desugarTy (getTypePtr t) in
  mkQualType t' (isLocalConstQualified t || c) (isLocalVolatileQualified t || v).

Definition isConstQualified (t : QualType) : bool :=
  isLocalConstQualified (getCanonicalType t).

Definition isVolatileQualified (t : QualType) : bool :=
  isLocalVolatileQualified (getCanonicalType t).

(** The type predicates look at the canonical node. *)
Definition canonicalNode (t : QualType) : Ty := fst (canonTy (getTypePtr t)).

Definition isBuiltinType (t : QualType) : bool :=
  match canonicalNode t with BuiltinType _ => true | _ => false end.

Definition isVoidType (t : QualType) : bool :=
  match canonicalNode t with BuiltinType BK_Void => true | _ => false end.

Definition isBooleanType (t : QualType) : bool :=
  match canonicalNode t with BuiltinType BK_Bool => true | _ => false end.

Definition isNullPtrType (t : QualType) : bool :=
  match canonicalNode t with BuiltinType BK_NullPtr => true | _ => false end.

Definition isPointerType (t : QualType) : bool :=
  match canonicalNode t with PointerType _ _ _ => true | _ => false end.

Definition isReferenceType (t : QualType) : bool :=
  match canonicalNode t with
  | LValueReferenceType _ _ _ | RValueReferenceType _ _ _ => true
  | _ => false
  end.

Definition isFunctionType (t : QualType) : bool :=
  match canonicalNode t with FunctionProtoType => true | _ => false end.

Definition isRecordType (t : QualType) : bool :=
  match canonicalNode t with RecordType _ => true | _ => false end.

Definition isArrayType (t : QualType) : bool :=
  match canonicalNode t with ConstantArrayType _ _ _ _ => true | _ => false end.

Definition isEnumeralType (t : QualType) : bool :=
  match canonicalNode t with EnumType _ => true | _ => false end.

Definition isObjectType (t : QualType) : bool :=
  negb (isReferenceType t) && negb (isFunctionType t) && negb (isVoidType t).

(** [Type::isIntegralType] for C++ (the plugins run on C++ only, where an
    enumeration is not an integral type). *)
Definition isIntegralType (t : QualType) : bool :=
  match canonicalNode t with
  | BuiltinType k =>
      match k with
      | BK_Bool | BK_Char | BK_UChar | BK_Short | BK_UShort | BK_Int
      | BK_UInt | BK_Long | BK_ULong | BK_LongLong | BK_ULongLong => true
      | _ => false
      end
  | _ => false
  end.

Definition isRealFloatingType (t : QualType) : bool :=
  match canonicalNode t with
  | BuiltinType k =>
      match k with
      | BK_Float | BK_Double | BK_LongDouble => true
      | _ => false
      end
  | _ => false
  end.

(** [Type::isIncompleteType]: void, and a record without a definition. *)
Definition isIncompleteType (t : QualType) : bool :=
  match canonicalNode t with
  | BuiltinType BK_Void => true
  | RecordType d => negb (isCompleteDefinition d)
  | _ => false
  end.

(** [getAs<PointerType>()->getPointeeType()], looking through sugar. *)
Definition getPointeeType (t : QualType) : option QualType :=
  match fst (desugarTy (getTypePtr t)) with
  | PointerType p c v => Some (mkQualType p c v)
  | _ => None
  end.

(** [getAs<TypedefType>()]: the typedef node, when the type is one. *)
Definition getAsTypedefType (t : QualType) : option Ty :=
  match getTypePtr t with
  | TypedefType _ _ _ _ => Some (getTypePtr t)
  | _ => None
  end.

(** [getAs<RecordType>()->getDecl()]. *)
Definition getAsRecordDecl (t : QualType) : option RecordDecl :=
  match canonicalNode t with RecordType d => Some d | _ => None end.

(** *** Declarations and expressions *)

Record ParmVarDecl : Type := mkParmVarDecl {
  parmId : positive;                      (* the identity of the declaration *)
  parmType : QualType;
  parmLocation : SourceLocation;
  parmSourceRange : SourceLocation * SourceLocation
}.

Inductive ValueDecl : Type :=
| ParmVar (p : ParmVarDecl)
| OtherValueDecl (name : string).

(** The declaration a call resolves to, as far as the plugins ask: its
    identifier, whether it is a function, and its enclosing namespaces. *)
Record NamedDecl : Type := mkNamedDecl {
  declName : string;
  declIsFunction : bool;
  declNamespaces : list string
}.

Inductive ExprValueKind : Type := VK_RValue | VK_LValue | VK_XValue.

#[global] Instance ExprValueKind_eq_dec : EqDecision ExprValueKind.
Proof. solve_decision. Defined.

Inductive CastKind : Type :=
| CK_NoOp | CK_BitCast | CK_LValueToRValue | CK_DerivedToBase
| CK_UncheckedDerivedToBase | CK_IntegralCast | CK_ConstructorConversion
| CK_OtherCast.

#[global] Instance CastKind_eq_dec : EqDecision CastKind.
Proof. solve_decision. Defined.

Inductive BinaryOperatorKind : Type :=
| BO_PtrMemD | BO_PtrMemI
| BO_Mul | BO_Div | BO_Rem | BO_Add | BO_Sub | BO_Shl | BO_Shr
| BO_LT | BO_GT | BO_LE | BO_GE | BO_EQ | BO_NE
| BO_And | BO_Xor | BO_Or | BO_LAnd | BO_LOr
| BO_Assign | BO_MulAssign | BO_DivAssign | BO_RemAssign | BO_AddAssign
| BO_SubAssign | BO_ShlAssign | BO_ShrAssign | BO_AndAssign | BO_XorAssign
| BO_OrAssign | BO_Comma.

#[global] Instance BinaryOperatorKind_eq_dec : EqDecision BinaryOperatorKind.
Proof. solve_decision. Defined.

Inductive OverloadedOperatorKind : Type :=
| OO_Equal | OO_PlusEqual | OO_MinusEqual | OO_StarEqual | OO_SlashEqual
| OO_Plus | OO_Call | OO_Subscript | OO_LessLess | OO_OtherOperator.

#[global] Instance OverloadedOperatorKind_eq_dec :
  EqDecision OverloadedOperatorKind.
Proof. solve_decision. Defined.

(** What every expression node carries. *)
Record ExprBits : Type := mkExprBits {
  bitsType : QualType;
  bitsValueKind : ExprValueKind;
  bitsLocStart : SourceLocation;
  bitsExprLoc : SourceLocation;
  bitsLocEnd : SourceLocation
}.

Inductive Expr : Type :=
| DeclRefExpr (b : ExprBits) (decl : ValueDecl)
| IntegerLiteral (b : ExprBits) (value : Z)
| ParenExpr (b : ExprBits) (sub : Expr)
| ImplicitCastExpr (b : ExprBits) (kind : CastKind) (sub : Expr)
| CStyleCastExpr (b : ExprBits) (typeAsWritten : QualType) (sub : Expr)
| CXXFunctionalCastExpr (b : ExprBits) (typeAsWritten : QualType) (sub : Expr)
| CXXStaticCastExpr (b : ExprBits) (typeAsWritten : QualType) (sub : Expr)
| CXXConstCastExpr (b : ExprBits) (typeAsWritten : QualType) (sub : Expr)
| CXXReinterpretCastExpr (b : ExprBits) (typeAsWritten : QualType) (sub : Expr)
| BinaryOperator (b : ExprBits) (opc : BinaryOperatorKind)
                 (operatorLoc : SourceLocation) (lhs rhs : Expr)
| UnaryOperator (b : ExprBits) (sub : Expr)
| ConditionalOperator (b : ExprBits) (cond lhs rhs : Expr)
| CallExpr (b : ExprBits) (callee : option NamedDecl) (args : list Expr)
| CXXOperatorCallExpr (b : ExprBits) (op : OverloadedOperatorKind)
                      (args : list Expr)
| CXXConstructExpr (b : ExprBits) (args : list Expr)
| InitListExpr (b : ExprBits) (inits : list Expr)
| CXXStdInitializerListExpr (b : ExprBits) (sub : Expr)
| ExprWithCleanups (b : ExprBits) (sub : Expr)
| OtherExpr (b : ExprBits) (children : list Expr).

(** clang's [Expr] derives from [Stmt]: [ExprStmt] is that inclusion. *)
Inductive Stmt : Type :=
| ExprStmt (e : Expr)
| CompoundStmt (body : list Stmt)
| DeclStmt (inits : list Expr)
| ForStmt (children : list Stmt)
| OtherStmt (children : list Stmt).

Definition exprBits (e : Expr) : ExprBits :=
  match e with
  | DeclRefExpr b _ | IntegerLiteral b _ | ParenExpr b _
  | ImplicitCastExpr b _ _ | CStyleCastExpr b _ _
  | CXXFunctionalCastExpr b _ _ | CXXStaticCastExpr b _ _
  | CXXConstCastExpr b _ _ | CXXReinterpretCastExpr b _ _
  | BinaryOperator b _ _ _ _ | UnaryOperator b _
  | ConditionalOperator b _ _ _ | CallExpr b _ _
  | CXXOperatorCallExpr b _ _ | CXXConstructExpr b _ | InitListExpr b _
  | CXXStdInitializerListExpr b _ | ExprWithCleanups b _
  | OtherExpr b _ => b
  end.

Definition getType (e : Expr) : QualType := bitsType (exprBits e).
Definition getValueKind (e : Expr) : ExprValueKind :=
  bitsValueKind (exprBits e).
Definition getLocStart (e : Expr) : SourceLocation := bitsLocStart (exprBits e).
Definition getExprLoc (e : Expr) : SourceLocation := bitsExprLoc (exprBits e).
Definition getLocEnd (e : Expr) : SourceLocation := bitsLocEnd (exprBits e).
Definition getSourceRange (e : Expr) : SourceLocation * SourceLocation :=
  (getLocStart e, getLocEnd e).

Fixpoint IgnoreParenImpCasts (e : Expr) : Expr :=
  match e with
  | ParenExpr _ s => IgnoreParenImpCasts s
  | ImplicitCastExpr _ _ s => IgnoreParenImpCasts s
  | _ => e
  end.

(** [CastExpr::getSubExprAsWritten], applied to the operand of an explicit
    cast: the implicit casts the compiler put on the operand are skipped. *)
Fixpoint getSubExprAsWritten (sub : Expr) : Expr :=
  match sub with
  | ImplicitCastExpr _ _ s => getSubExprAsWritten s
  | _ => sub
  end.

(** *** Function declarations *)

Record CXXCtorInitializer : Type := mkCXXCtorInitializer {
  isMemberInitializer : bool;
  getInit : Expr
}.

Inductive FunctionKind : Type :=
| FK_Function | FK_CXXMethod | FK_CXXConstructor | FK_CXXDestructor
| FK_CXXConversion.

(** A function declaration.  [getBody] is present exactly when this
    declaration has a body; [inits] is empty unless the declaration is a
    constructor. *)
Record FunctionDecl : Type := mkFunctionDecl {
  functionKind : FunctionKind;
  getLocation : SourceLocation;
  isDeleted : bool;
  isFunctionTemplateSpecialization : bool;
  size_overridden_methods : nat;
  getBody : option Stmt;
  parameters : list ParmVarDecl;
  inits : list CXXCtorInitializer;
  canonicalLocation : SourceLocation;
  canonicalSourceRange : SourceLocation * SourceLocation
}.

Definition doesThisDeclarationHaveABody (f : FunctionDecl) : bool :=
  match getBody f with Some _ => true | None => false end.

(** [dyn_cast<CXXMethodDecl>(f) != nullptr] *)
Definition isCXXMethodDecl (f : FunctionDecl) : bool :=
  match functionKind f with FK_Function => false | _ => true end.

(** [dyn_cast<CXXConstructorDecl>(f) != nullptr] *)
Definition isCXXConstructorDecl (f : FunctionDecl) : bool :=
  match functionKind f with FK_CXXConstructor => true | _ => false end.

End Clang.

Import Clang.

(** ** The plugin base: diagnostics and the context a plugin runs in *)

Inductive Level : Type := Warning | Note.

Inductive DiagArg : Type :=
| ArgType (t : QualType)
| ArgString (s : string)
| ArgInt (n : Z)
| ArgBool (b : bool)
| ArgRange (r : SourceLocation * SourceLocation).

Record Diagnostic : Type := mkDiagnostic {
  diagLevel : Level;
  diagMessage : string;
  diagLocation : SourceLocation;
  diagArguments : list DiagArg
}.

(** [report(level, message, loc) << a1 << a2 ...] *)
Definition report (l : Level) (m : string) (loc : SourceLocation)
    (args : list DiagArg) : Diagnostic :=
  mkDiagnostic l m loc args.

(** The outcome of one callback: it returns, having reported some
    diagnostics, or it goes through a null pointer ([isa<>] applied to one,
    a member read through one), which does not return at all. *)
Inductive Outcome : Type :=
| Returned (reported : list Diagnostic)
| NullPointerDereference.

(** What a plugin takes from the compiler instance and from the plugin
    base class: the three overloads of [ignoreLocation], the test for UNO
    include files, the parent map of statements, the semantic analysis'
    [IsQualificationConversion] and the size of a type in chars. *)
Record PluginContext : Type := mkPluginContext {
  ignoreLocation : SourceLocation -> bool;
  ignoreLocationStmt : Stmt -> bool;
  ignoreLocationDecl : FunctionDecl -> bool;
  isInUnoIncludeFile : SourceLocation -> bool;
  parentStmt : Stmt -> option Stmt;
  IsQualificationConversion : QualType -> QualType -> bool;
  getTypeSizeInChars : Ty -> Z
}.


(** ** commaoperator.cxx *)

Module CommaOperator.
Section Visitor.
Context (ctx : PluginContext).

Definition isaParenExpr (s : Stmt) : bool :=
  match s with ExprStmt (ParenExpr _ _) => true | _ => false end.

Definition isaBinaryOperator (s : Stmt) : bool :=
  match s with ExprStmt (BinaryOperator _ _ _ _ _) => true | _ => false end.

Definition isaForStmt (s : Stmt) : bool :=
  match s with ForStmt _ => true | _ => false end.

Definition isaExprWithCleanups (s : Stmt) : bool :=
  match s with ExprStmt (ExprWithCleanups _ _) => true | _ => false end.

(** The suppression of a pattern that is all inside one macro body. *)
Definition inIgnoredMacroBody (b : ExprBits) (operatorLoc : SourceLocation)
    : bool :=
  isMacroBodyExpansion (bitsLocStart b)
  && isMacroBodyExpansion operatorLoc
  && isMacroBodyExpansion (bitsLocEnd b)
  && ignoreLocation ctx (getSpellingLoc operatorLoc).

Definition VisitBinaryOperator (binaryOp : Expr) : Outcome :=
  match binaryOp with
  | BinaryOperator b opc operatorLoc _ _ =>
      if ignoreLocationStmt ctx (ExprStmt binaryOp) then Returned []
      else if inIgnoredMacroBody b operatorLoc then Returned []
      else if negb (bool_decide (opc = BO_Comma)) then Returned []
      else
        let diagnose :=
          Returned [report Warning "comma operator hides code" operatorLoc
                      [ArgRange (getSourceRange binaryOp)]] in
        match parentStmt ctx (ExprStmt binaryOp) with
        | Some parent =>
            if isaParenExpr parent then Returned []
            else if isaBinaryOperator parent then Returned []
            else if isaForStmt parent then Returned []
            else if isaExprWithCleanups parent then
              match parentStmt ctx parent with
              | Some parent2 =>
                  if isaForStmt parent2 then Returned [] else diagnose
              | None => NullPointerDereference
              end
            else diagnose
        | None => diagnose
        end
  | _ => Returned []
  end.

End Visitor.
End CommaOperator.

(** ** passparamsbyref.cxx *)

Module PassParamsByRef.

(** The two fields of the visitor. *)
Record State : Type := mkState {
  mbInsideFunctionDecl : bool;
  mParamExclusions : gset positive
}.

(** Modelled from the spec: [loplugin::TypeCheck] (check.hxx) is not among
    the sources; [TypeCheck(t).Class(id).Namespace(n1)...GlobalNamespace()]
    matches a type by name and namespace: a record type declared as a class
    named [id] whose enclosing namespaces are exactly [n1], ... up to the
    global one. *)
Definition TypeCheck_Class (type : QualType) (id : string)
    (namespaces : list string) : bool :=
  match getAsRecordDecl type with
  | Some d =>
      bool_decide (recordTag d = TTK_Class)
      && bool_decide (recordName d = id)
      && bool_decide (recordNamespaces d = namespaces)
  | None => false
  end.

(** Modelled from the spec: [loplugin::DeclCheck] (check.hxx) is not among
    the sources; [DeclCheck(d).Function(id).StdNamespace()] holds of a
    function named [id] declared in namespace [std]. *)
Definition DeclCheck_Function_StdNamespace (d : option NamedDecl)
    (id : string) : bool :=
  match d with
  | Some d =>
      declIsFunction d && bool_decide (declName d = id)
      && bool_decide (declNamespaces d = ["std"%string])
  | None => false
  end.

Section Visitor.
Context (ctx : PluginContext).

Definition isFat (type : QualType) : bool :=
  if negb (isRecordType type) then false
  else if TypeCheck_Class type "Reference" ["uno"; "star"; "sun"; "com"]%string
          || TypeCheck_Class type "Sequence" ["uno"; "star"; "sun"; "com"]%string
          || TypeCheck_Class type "OString" ["rtl"%string]
          || TypeCheck_Class type "OUString" ["rtl"%string]
          || TypeCheck_Class type "Reference" ["rtl"%string]
  then true
  else if isIncompleteType type then false
  else bool_decide (64 < getTypeSizeInChars ctx (getTypePtr type)).

Definition VisitBinAssign (binaryOperator : Expr) (s : State) : State :=
  if negb (mbInsideFunctionDecl s) then s
  else
    match binaryOperator with
    | BinaryOperator _ _ _ (DeclRefExpr _ (ParmVar parmVarDecl)) _ =>
        mkState (mbInsideFunctionDecl s)
                ({[ parmId parmVarDecl ]} ∪ mParamExclusions s)
    | _ => s
    end.

Definition isAssignmentLikeOperator (op : OverloadedOperatorKind) : bool :=
  negb (negb (bool_decide (op = OO_Equal))
        && negb (bool_decide (op = OO_SlashEqual))
        && negb (bool_decide (op = OO_StarEqual))
        && negb (bool_decide (op = OO_MinusEqual))
        && negb (bool_decide (op = OO_PlusEqual))).

Definition VisitCXXOperatorCallExpr (cxxOperatorCallExpr : Expr) (s : State)
    : State :=
  if negb (mbInsideFunctionDecl s) then s
  else
    match cxxOperatorCallExpr with
    | CXXOperatorCallExpr _ op args =>
        if negb (isAssignmentLikeOperator op) then s
        else
          match args with
          | DeclRefExpr _ (ParmVar parmVarDecl) :: _ =>
              mkState (mbInsideFunctionDecl s)
                      ({[ parmId parmVarDecl ]} ∪ mParamExclusions s)
          | _ => s
          end
    | _ => s
    end.

Definition isaDeclRefExpr (e : Expr) : bool :=
  match e with DeclRefExpr _ _ => true | _ => false end.

(** The expressions the traversal walks up from, in order.  The overridden
    [TraverseImplicitCastExpr] neither visits nor descends into an implicit
    cast at an ignored location, nor into an lvalue-to-rvalue conversion of
    a plain reference to a declaration. *)
Fixpoint traversedExprs (e : Expr) : list Expr :=
  match e with
  | ImplicitCastExpr _ kind sub =>
      if ignoreLocationStmt ctx (ExprStmt e) then []
      else if bool_decide (kind = CK_LValueToRValue)
              && isaDeclRefExpr (IgnoreParenImpCasts sub) then []
      else e :: traversedExprs sub
  | DeclRefExpr _ _ | IntegerLiteral _ _ => [e]
  | ParenExpr _ sub | CStyleCastExpr _ _ sub | CXXFunctionalCastExpr _ _ sub
  | CXXStaticCastExpr _ _ sub | CXXConstCastExpr _ _ sub
  | CXXReinterpretCastExpr _ _ sub | UnaryOperator _ sub
  | CXXStdInitializerListExpr _ sub | ExprWithCleanups _ sub =>
      e :: traversedExprs sub
  | BinaryOperator _ _ _ lhs rhs =>
      e :: traversedExprs lhs ++ traversedExprs rhs
  | ConditionalOperator _ c l r =>
      e :: traversedExprs c ++ traversedExprs l ++ traversedExprs r
  | CallExpr _ _ args | CXXOperatorCallExpr _ _ args
  | CXXConstructExpr _ args | InitListExpr _ args | OtherExpr _ args =>
      e :: List.flat_map traversedExprs args
  end.

Fixpoint traversedStmt (s : Stmt) : list Expr :=
  match s with
  | ExprStmt e => traversedExprs e
  | DeclStmt inits => List.flat_map traversedExprs inits
  | CompoundStmt l | ForStmt l | OtherStmt l => List.flat_map traversedStmt l
  end.

(** The member initializers of a constructor come first, then the body. *)
Definition traversedFunction (f : FunctionDecl) : list Expr :=
  List.flat_map (fun i => traversedExprs (getInit i)) (inits f)
  ++ match getBody f with Some body => traversedStmt body | None => [] end.

(** The callbacks this plugin registers: [VisitBinAssign] is called on a
    binary operator with opcode [BO_Assign], [VisitCXXOperatorCallExpr] on
    an overloaded operator call. *)
Definition WalkUpFrom (s : State) (e : Expr) : State :=
  match e with
  | BinaryOperator _ BO_Assign _ _ _ => VisitBinAssign e s
  | CXXOperatorCallExpr _ _ _ => VisitCXXOperatorCallExpr e s
  | _ => s
  end.

Definition RecursiveASTVisitor_TraverseFunctionDecl (f : FunctionDecl)
    (s : State) : State :=
  fold_left WalkUpFrom (traversedFunction f) s.

(** The inner loop over [cxxConstructorDecl->inits()]: one initializer that
    constructs a member from the result of a call of [std::move]. *)
Definition isMoveConstruction (i : CXXCtorInitializer) : bool :=
  isMemberInitializer i
  && match IgnoreParenImpCasts (getInit i) with
     | CXXConstructExpr _ [arg] =>
         match IgnoreParenImpCasts arg with
         | CallExpr _ callee _ => DeclCheck_Function_StdNamespace callee "move"
         | _ => false
         end
     | _ => false
     end.

Definition bFoundMove (f : FunctionDecl) : bool :=
  isCXXConstructorDecl f && existsb isMoveConstruction (inits f).

(** One round of the loop over the parameters. *)
Definition checkParam (f : FunctionDecl) (s : State) (pvDecl : ParmVarDecl)
    : list Diagnostic :=
  let t := parmType pvDecl in
  if negb (isFat t) then []
  else if bool_decide (parmId pvDecl ∈ mParamExclusions s) then []
  else if bFoundMove f then []
  else
    report Warning "passing %0 by value, rather pass by const lvalue reference"
           (parmLocation pvDecl) [ArgType t; ArgRange (parmSourceRange pvDecl)]
    :: (if bool_decide (canonicalLocation f ≠ getLocation f)
        then [report Note "function is declared here:" (canonicalLocation f)
                [ArgRange (canonicalSourceRange f)]]
        else []).

(** The state the visitor is left in, and what it reported.  (The C++
    function also returns the flag [ret] of the traversal, which is [true]
    throughout, since every callback returns [true].) *)
Definition TraverseFunctionDecl (functionDecl : FunctionDecl) (s : State)
    : State * list Diagnostic :=
  if ignoreLocationDecl ctx functionDecl then (s, [])
  else if isDeleted functionDecl
          || isFunctionTemplateSpecialization functionDecl then (s, [])
  else if isCXXMethodDecl functionDecl
          && bool_decide (0 < size_overridden_methods functionDecl)%nat
  then (s, [])
  else if negb (doesThisDeclarationHaveABody functionDecl) then (s, [])
  else
    let s1 := mkState true ∅ in
    let s2 := RecursiveASTVisitor_TraverseFunctionDecl functionDecl s1 in
    let s3 := mkState false (mParamExclusions s2) in
    (s3, List.flat_map (checkParam functionDecl s3) (parameters functionDecl)).

(** One visitor taken through a sequence of calls of
    [TraverseFunctionDecl], in order. *)
Definition TraverseDecls (decls : list FunctionDecl) (s : State)
    : State * list Diagnostic :=
  fold_left
    (fun acc functionDecl =>
       let '(s', reported) := TraverseFunctionDecl functionDecl (fst acc) in
       (s', snd acc ++ reported))
    decls (s, []).

(** The fields as the constructor sets them. *)
Definition initialState : State := mkState false ∅.

(** [RecursiveASTVisitor::TraverseDecl] takes a declaration to the
    [Traverse*Decl] function of its own class: a function that is no member
    to [TraverseFunctionDecl], which the plugin overrides; a method, a
    constructor, a destructor or a conversion function to
    [TraverseCXXMethodDecl], [TraverseCXXConstructorDecl] and the like,
    which it does not override (the scaffolding the comment in the class
    speaks of), so that the traversal of the base class walks through the
    declaration with the callbacks of the plugin, and nothing is checked
    afterwards. *)
Definition TraverseDecl (decl : FunctionDecl) (s : State)
    : State * list Diagnostic :=
  match functionKind decl with
  | FK_Function => TraverseFunctionDecl decl s
  | FK_CXXMethod | FK_CXXConstructor | FK_CXXDestructor | FK_CXXConversion =>
      (RecursiveASTVisitor_TraverseFunctionDecl decl s, [])
  end.

(** [run]: one visitor, its fields set as the constructor sets them, is
    taken through the function declarations of the translation unit in
    order. *)
Definition run (translationUnit : list FunctionDecl) : list Diagnostic :=
  snd (fold_left
         (fun acc decl =>
            let '(s', reported) := TraverseDecl decl (fst acc) in
            (s', snd acc ++ reported))
         translationUnit (initialState, [])).

End Visitor.
End PassParamsByRef.

(** ** The redundant-cast plugin

    The callbacks for the explicit casts: [VisitCStyleCastExpr],
    [VisitCXXStaticCastExpr], [VisitCXXConstCastExpr] and
    [VisitCXXFunctionalCastExpr], with the helpers they share. *)

Module RedundantCast.

(** Modelled from the spec: [loplugin::TypeCheck] (check.hxx) is not among
    the sources; [Typedef()] holds of a typedef type, [Enum()] of an
    enumeration type, and [Pointer().NonConstVolatile().Void()] of a pointer
    to unqualified void. *)
Definition TypeCheck_Typedef (t : QualType) : bool :=
  match getAsTypedefType t with Some _ => true | None => false end.

Definition TypeCheck_Enum (t : QualType) : bool := isEnumeralType t.

Definition TypeCheck_Pointer_NonConstVolatile_Void (t : QualType) : bool :=
  match getPointeeType t with
  | Some p => negb (isConstQualified p) && negb (isVolatileQualified p)
              && isVoidType p
  | None => false
  end.

Definition isRedundantConstCast (expr : Expr) : bool :=
  match expr with
  | CXXConstCastExpr _ _ subExpr =>
      let sub := getSubExprAsWritten subExpr in
      bool_decide (getCanonicalType (getType expr)
                   = getCanonicalType (getType sub))
      && (negb (bool_decide (getValueKind expr = VK_XValue))
          || bool_decide (getValueKind sub = VK_XValue))
  | _ => false
  end.

(** [isArithmeticOp] starts with [expr = expr->IgnoreParenImpCasts()]; the
    recursion goes through the parentheses and implicit casts itself (see
    [isArithmeticOp_unfold]). *)
Fixpoint isArithmeticOp (expr : Expr) : bool :=
  match expr with
  | ParenExpr _ s | ImplicitCastExpr _ _ s => isArithmeticOp s
  | BinaryOperator _ opc _ _ rhs =>
      match opc with
      | BO_Mul | BO_Div | BO_Rem | BO_Add | BO_Sub | BO_Shl | BO_Shr
      | BO_And | BO_Xor | BO_Or => true
      | BO_Comma => isArithmeticOp rhs
      | _ => false
      end
  | UnaryOperator _ _ | ConditionalOperator _ _ _ _ => true
  | _ => false
  end.

Definition canConstCastFromTo (from to : Expr) : bool :=
  let k1 := getValueKind from in
  let k2 := getValueKind to in
  (bool_decide (k2 = VK_LValue) && bool_decide (k1 = VK_LValue))
  || (bool_decide (k2 = VK_XValue)
      && (negb (bool_decide (k1 = VK_RValue)) || isRecordType (getType from))).

Definition printExprValueKind (k : ExprValueKind) : string :=
  match k with
  | VK_RValue => "prvalue"
  | VK_LValue => "lvalue"
  | VK_XValue => "xvalue"
  end.

Definition isaIntegerLiteral (e : Expr) : bool :=
  match e with IntegerLiteral _ _ => true | _ => false end.

Definition isOkToRemoveArithmeticCast (t1 t2 : QualType) (subExpr : Expr)
    : bool :=
  if (isIntegralType t1 || isRealFloatingType t1)
     && ((negb (bool_decide (t1 = t2))
          && (TypeCheck_Typedef t1 || TypeCheck_Typedef t2))
         || isArithmeticOp subExpr
         || isaIntegerLiteral (IgnoreParenImpCasts subExpr))
  then false
  else true.

(** The messages. *)
Definition msgCStyleCast : string := "redundant cstyle cast from %0 to %1".
Definition msgFunctionalCast : string :=
  "redundant functional cast from %0 to %1".
Definition msgConstCast : string := "redundant const_cast from %0 %1 to %2 %3".
Definition msgStaticConstCombination : string :=
  "redundant static_cast/const_cast combination from %0 via %1 to %2".
Definition msgStaticCastQualifier : string :=
  "in static_cast from %0 %1 to %2 %3, remove redundant top-level %select{const qualifier|volatile qualifier|const volatile qualifiers}4".
Definition msgStaticCastShouldBeConstCast : string :=
  "static_cast from %0 %1 to %2 %3 should be written as const_cast".
Definition msgStaticCastRedundant : string :=
  "static_cast from %0 %1 to %2 %3 is redundant%select{| or should be written as an explicit construction of a temporary}4".

Section Visitor.
Context (ctx : PluginContext).

(** The three locations of a C-style cast, each taken out of the macro
    arguments it was passed through, are all in a macro body, and the
    spelling of the middle one is ignored. *)
Definition cstyleInIgnoredMacroBody (expr : Expr) : bool :=
  let l1 := skipMacroArgExpansions (getLocStart expr) in
  let l2 := skipMacroArgExpansions (getExprLoc expr) in
  let l3 := skipMacroArgExpansions (getLocEnd expr) in
  isMacroBodyExpansion l1 && isMacroBodyExpansion l2
  && isMacroBodyExpansion l3 && ignoreLocation ctx (getSpellingLoc l2).

Definition VisitCStyleCastExpr (expr : Expr) : list Diagnostic :=
  match expr with
  | CStyleCastExpr _ typeAsWritten subExpr =>
      if ignoreLocationStmt ctx (ExprStmt expr) then []
      else if isInUnoIncludeFile ctx (getSpellingLoc (getLocStart expr))
      then []
      else
        let t1 := getType (getSubExprAsWritten subExpr) in
        let t2 := typeAsWritten in
        if negb (bool_decide (t1 = t2)) then []
        else if negb (isBuiltinType t1) && negb (TypeCheck_Enum t1)
                && negb (TypeCheck_Typedef t1) then []
        else if negb (isOkToRemoveArithmeticCast t1 t2 subExpr) then []
        else if cstyleInIgnoredMacroBody expr then []
        else [report Warning msgCStyleCast (getExprLoc expr)
                [ArgType t1; ArgType t2; ArgRange (getSourceRange expr)]]
  | _ => []
  end.

(** The block of [VisitCXXStaticCastExpr] on casts from [void *]: [Some
    true] where it returns early, [Some false] where it falls through, and
    [None] where it reads the pointee of a type written as something else
    than a pointer. *)
Definition voidPointerTypedefsDiffer (t1 t2 : QualType) : option bool :=
  if TypeCheck_Pointer_NonConstVolatile_Void t1 then
    match getAsTypedefType t1 with
    | Some td1 =>
        match getAsTypedefType t2 with
        | None => Some true
        | Some td2 => Some (negb (bool_decide (td2 = td1)))
        end
    | None =>
        match getAsTypedefType t2 with
        | Some _ => Some true
        | None =>
            match getPointeeType t1, getPointeeType t2 with
            | Some pt1, Some pt2 =>
                match getAsTypedefType pt1 with
                | Some ptd1 =>
                    match getAsTypedefType pt2 with
                    | None => Some true
                    | Some ptd2 => Some (negb (bool_decide (ptd2 = ptd1)))
                    end
                | None =>
                    match getAsTypedefType pt2 with
                    | Some _ => Some true
                    | None => Some false
                    end
                end
            | _, _ => None
            end
        end
    end
  else Some false.

(** The suppression for the C++ definition of [assert]. *)
Definition inAssertMacro (t1 t2 : QualType) (expr : Expr) : bool :=
  isBooleanType t1 && isBooleanType t2
  && (let loc := getLocStart expr in
      isMacroBodyExpansion loc
      && bool_decide (getImmediateMacroName loc = "assert"%string)).

Definition VisitCXXStaticCastExpr (expr : Expr) : Outcome :=
  match expr with
  | CXXStaticCastExpr _ typeAsWritten subExpr =>
      if ignoreLocationStmt ctx (ExprStmt expr) then Returned []
      else
        let sub := getSubExprAsWritten subExpr in
        let t1 := getType sub in
        let t2 := typeAsWritten in
        let nonClassObjectType :=
          isObjectType t2 && negb (isRecordType t2 || isArrayType t2) in
        if nonClassObjectType && hasLocalQualifiers t2 then
          Returned
            [report Warning msgStaticCastQualifier (getExprLoc expr)
               [ArgType t1; ArgString (printExprValueKind (getValueKind sub));
                ArgType t2; ArgString (printExprValueKind (getValueKind expr));
                ArgInt ((if isLocalConstQualified t2 then 1 else 0)
                        + (if isLocalVolatileQualified t2 then 2 else 0) - 1);
                ArgRange (getSourceRange expr)]]
        else
          let t3 := getType expr in
          let c1 := getCanonicalType t1 in
          let c3 := getCanonicalType t3 in
          let sameTypePtr := bool_decide (getTypePtr c1 = getTypePtr c3) in
          if (if nonClassObjectType || negb (canConstCastFromTo sub expr)
              then negb sameTypePtr
              else negb (bool_decide (c1 = c3)))
          then
            if nonClassObjectType
               || (negb sameTypePtr
                   && negb (IsQualificationConversion ctx c1 c3))
            then Returned []
            else
              Returned
                [report Warning msgStaticCastShouldBeConstCast (getExprLoc expr)
                   [ArgType t1;
                    ArgString (printExprValueKind (getValueKind sub));
                    ArgType t2;
                    ArgString (printExprValueKind (getValueKind expr));
                    ArgRange (getSourceRange expr)]]
          else if negb (isOkToRemoveArithmeticCast t1 t2 subExpr)
          then Returned []
          else
            match voidPointerTypedefsDiffer t1 t2 with
            | None => NullPointerDereference
            | Some true => Returned []
            | Some false =>
                let k1 := getValueKind sub in
                let k3 := getValueKind expr in
                if (bool_decide (k3 = VK_XValue)
                    && negb (bool_decide (k1 = VK_XValue)))
                   || (bool_decide (k3 = VK_LValue)
                       && bool_decide (k1 = VK_XValue))
                then Returned []
                else if inAssertMacro t1 t2 expr then Returned []
                else
                  Returned
                    [report Warning msgStaticCastRedundant (getExprLoc expr)
                       [ArgType t1; ArgString (printExprValueKind k1);
                        ArgType t2; ArgString (printExprValueKind k3);
                        ArgBool (bool_decide (k3 = VK_RValue)
                                 && (negb (bool_decide (k1 = VK_RValue))
                                     || isRecordType t1));
                        ArgRange (getSourceRange expr)]]
            end
  | _ => Returned []
  end.

(** The test at the head of the loop of [VisitCXXConstCastExpr]. *)
Definition qualifierOnlyInMiddle (t1 : QualType) (isNullptr : bool)
    (t2 t3 : QualType) : bool :=
  (isConstQualified t2 && (isNullptr || negb (isConstQualified t1))
   && negb (isConstQualified t3))
  || (isVolatileQualified t2 && (isNullptr || negb (isVolatileQualified t1))
      && negb (isVolatileQualified t3)).

(** The loop of [VisitCXXConstCastExpr], which walks the three canonical
    types down their pointees in lock-step; it yields [redundant].  The
    middle type [t2] is given as its node and its two bits, and the loop
    descends on the node: the type is canonical, so that
    [getAs<PointerType>] reads the node itself. *)
Fixpoint staticConstCastLoop (t2 : Ty) (c2 v2 : bool) (t1 : QualType)
    (isNullptr : bool) (t3 : QualType) : bool :=
  if qualifierOnlyInMiddle t1 isNullptr (mkQualType t2 c2 v2) t3 then true
  else
    match (if isNullptr then Some (t1, isNullptr)
           else match getPointeeType t1 with
                | None => None
                | Some p1 => Some (p1, isNullPtrType p1)
                end) with
    | None => false
    | Some (t1', isNullptr') =>
        match t2 with
        | PointerType p2 pc2 pv2 =>
            match getPointeeType t3 with
            | None => false
            | Some t3' => staticConstCastLoop p2 pc2 pv2 t1' isNullptr' t3'
            end
        | _ => false
        end
    end.

Definition VisitCXXConstCastExpr (expr : Expr) : list Diagnostic :=
  match expr with
  | CXXConstCastExpr _ typeAsWritten subExpr =>
      if ignoreLocationStmt ctx (ExprStmt expr) then []
      else
        let sub := getSubExprAsWritten subExpr in
        if isRedundantConstCast expr then
          [report Warning msgConstCast (getExprLoc expr)
             [ArgType (getType sub);
              ArgString (printExprValueKind (getValueKind sub));
              ArgType typeAsWritten;
              ArgString (printExprValueKind (getValueKind expr));
              ArgRange (getSourceRange expr)]]
        else
          match IgnoreParenImpCasts sub with
          | CXXStaticCastExpr _ dceTypeAsWritten dceSub as dce =>
              let sub2 := getSubExprAsWritten dceSub in
              let t1 := getCanonicalType (getType sub2) in
              let isNullptr := isNullPtrType t1 in
              let t2 := getCanonicalType (getType dce) in
              let t3 := getCanonicalType (getType expr) in
              if staticConstCastLoop (getTypePtr t2) (isLocalConstQualified t2)
                   (isLocalVolatileQualified t2) t1 isNullptr t3
              then
                [report Warning msgStaticConstCombination (getExprLoc expr)
                   [ArgType (getType sub2); ArgType dceTypeAsWritten;
                    ArgType typeAsWritten; ArgRange (getSourceRange expr)]]
              else []
          | _ => []
          end
  | _ => []
  end.

Definition isaInitListExpr (e : Expr) : bool :=
  match e with InitListExpr _ _ => true | _ => false end.

Definition isaCXXStdInitializerListExpr (e : Expr) : bool :=
  match e with CXXStdInitializerListExpr _ _ => true | _ => false end.

(** The loop of [VisitCXXFunctionalCastExpr] that climbs the macro
    expansions starting at [loc] for as long as [loc] is at the start of
    its expansion, looking for one of [FD_ISSET]. *)
Fixpoint startsExpansionOfFdIsset (loc : SourceLocation) : bool :=
  match loc with
  | FileLoc _ _ => false
  | MacroBodyLoc n a _ caller | MacroArgLoc n a caller _ =>
      a && (bool_decide (n = "FD_ISSET"%string)
            || startsExpansionOfFdIsset caller)
  end.

Definition VisitCXXFunctionalCastExpr (expr : Expr) : list Diagnostic :=
  match expr with
  | CXXFunctionalCastExpr _ typeAsWritten subExpr =>
      if ignoreLocationStmt ctx (ExprStmt expr) then []
      else
        let sub := getSubExprAsWritten subExpr in
        if negb (bool_decide (getValueKind sub = VK_RValue))
           || isRecordType (getType expr)
           || isaInitListExpr sub || isaCXXStdInitializerListExpr sub
        then []
        else
          let eloc := getExprLoc expr in
          if isMacroArgExpansion eloc
             && (bool_decide (getImmediateMacroName eloc
                              = "CPPUNIT_ASSERT"%string)
                 || bool_decide (getImmediateMacroName eloc
                                 = "CPPUNIT_ASSERT_MESSAGE"%string))
          then []
          else if isMacroID (getLocEnd sub)
                  && startsExpansionOfFdIsset (getLocStart sub)
          then []
          else
            let t1 := typeAsWritten in
            let t2 := getDesugaredType (getType sub) in
            if negb (bool_decide (t1 = t2)) then []
            else if (TypeCheck_Typedef t1 || TypeCheck_Typedef (getType sub))
                    && negb (bool_decide (t1 = getType sub)) then []
            else if negb (isOkToRemoveArithmeticCast t1 t2 subExpr) then []
            else [report Warning msgFunctionalCast (getExprLoc expr)
                    [ArgType (getType sub); ArgType t1;
                     ArgRange (getSourceRange expr)]]
  | _ => []
  end.

End Visitor.

(** *** The callbacks for what surrounds a cast

    [VisitImplicitCastExpr], [VisitCXXReinterpretCastExpr], [VisitCallExpr],
    [VisitCXXDeleteExpr] and the callbacks for pointer comparison and
    subtraction. *)

Definition isVoidPointer (type : QualType) : bool :=
  isPointerType type
  && match getPointeeType type with
     | Some pointee => isVoidType pointee
     | None => false
     end.

(** [Type::isVoidPointerType] *)
Definition isVoidPointerType (type : QualType) : bool :=
  match getPointeeType type with
  | Some pointee => isVoidType pointee
  | None => false
  end.

(** [getAs<ReferenceType>()->getPointeeType()] *)
Definition getReferencePointeeType (t : QualType) : option QualType :=
  match fst (desugarTy (getTypePtr t)) with
  | LValueReferenceType p c v | RValueReferenceType p c v =>
      Some (mkQualType p c v)
  | _ => None
  end.

(** [QualType::isAtLeastAsQualifiedAs], on const and volatile. *)
Definition isAtLeastAsQualifiedAs (t other : QualType) : bool :=
  implb (isConstQualified other) (isConstQualified t)
  && implb (isVolatileQualified other) (isVolatileQualified t).

Definition msgConstCastImplicit : string :=
  "redundant const_cast from %0 to %1, result is implicitly cast to %2".
Definition msgConstCastUltimately : string :=
  "redundant const_cast from %0 to %1, result is ultimately implicitly cast to %2".
Definition msgReinterpretToVoid : string :=
  "redundant reinterpret_cast, result is implicitly cast to void pointer".
Definition msgStaticFromVoid : string :=
  "redundant static_cast from void pointer, result is implicitly cast to void pointer".
Definition msgReinterpretSimplify : string :=
  "reinterpret_cast from %0 to %1 can be simplified to static_cast".
Definition msgReinterpretSimplifyOrImplicit : string :=
  "reinterpret_cast from %0 to %1 can be simplified to static_cast or an implicit conversion".
Definition msgVariadic : string :=
  "redundant const_cast of variadic function argument".
Definition msgDelete : string := "redundant const_cast in delete expression".
Definition msgLhs : string :=
  "redundant const_cast on lhs of pointer %select{comparison|subtraction}0 expression".
Definition msgRhs : string :=
  "redundant const_cast on rhs of pointer %select{comparison|subtraction}0 expression".

(** The report on one const_cast [cc] of the chain below the implicit cast
    [expr]. *)
Definition ultimatelyDiagnostic (expr cc ccSub : Expr) : Diagnostic :=
  report Warning msgConstCastUltimately (getExprLoc cc)
    [ArgType (getType (getSubExprAsWritten ccSub)); ArgType (getType cc);
     ArgType (getType expr); ArgRange (getSourceRange expr)].

(** The loop
    [while (isa<CXXConstCastExpr>(e)) { ...; e = cc->getSubExpr()->IgnoreParenImpCasts(); }]
    of [VisitImplicitCastExpr], entered with [e] before its parentheses and
    implicit casts are removed: what it reports and the expression it stops
    at, or nothing where it reads the pointee of a type that has none.
    [getPointee] is the pointee of a pointer type in two of the three loops
    and of a reference type in the third. *)
Fixpoint constCastLoop (getPointee : QualType -> option QualType)
    (expr e : Expr) : option (list Diagnostic * Expr) :=
  match e with
  | ParenExpr _ s | ImplicitCastExpr _ _ s => constCastLoop getPointee expr s
  | CXXConstCastExpr _ _ ccSub =>
      match getPointee (getType expr), getPointee (getType ccSub) with
      | Some target, Some source =>
          match constCastLoop getPointee expr ccSub with
          | Some (reported, final) =>
              Some ((if isAtLeastAsQualifiedAs target source
                     then [ultimatelyDiagnostic expr e ccSub]
                     else [])
                    ++ reported, final)
          | None => None
          end
      | _, _ => None
      end
  | _ => Some ([], e)
  end.

(** An editing request of the rewriter. *)
Record Edit : Type := mkEdit {
  editLocation : SourceLocation;
  editLength : nat;
  editText : string
}.

(** The rewriter of a [RewritePlugin], with the lexer: the token that
    starts at a location, and whether the replacement of so many characters
    at a location by a text succeeds. *)
Record Rewriter : Type := mkRewriter {
  tokenAt : SourceLocation -> string;
  replaceText : SourceLocation -> nat -> string -> bool
}.

(** What [getDirectCallee] gives of a function declaration. *)
Record FunctionInfo : Type := mkFunctionInfo {
  isVariadic : bool;
  getNumParams : nat
}.

(** A delete expression: a node of its own class, with its argument. *)
Record CXXDeleteExpr : Type := mkCXXDeleteExpr {
  deleteBits : ExprBits;
  getArgument : Expr
}.

(** The delete expression as a statement of the tree. *)
Definition deleteStmt (d : CXXDeleteExpr) : Stmt :=
  ExprStmt (OtherExpr (deleteBits d) [getArgument d]).

Section Surroundings.
Context (ctx : PluginContext).
Context (rewriter : option Rewriter).
Context (functionInfo : NamedDecl -> FunctionInfo).
(** The declaration a call of an overloaded operator resolves to. *)
Context (operatorDecl : Expr -> option NamedDecl).

Definition VisitImplicitCastExpr (expr : Expr) : Outcome :=
  match expr with
  | ImplicitCastExpr _ kind subExpr =>
      if ignoreLocationStmt ctx (ExprStmt expr) then Returned []
      else
        match kind with
        | CK_NoOp =>
            if isPointerType (getType expr) || isObjectType (getType expr)
            then
              match IgnoreParenImpCasts subExpr with
              | CXXConstCastExpr _ _ eSub as e =>
                  if negb (isRedundantConstCast e) then
                    let t1 := getCanonicalType (getType eSub) in
                    let t3 := getCanonicalType (getType expr) in
                    if bool_decide (getTypePtr t1 = getTypePtr t3)
                       || (IsQualificationConversion ctx t1 t3
                           && negb (bool_decide
                                      (getTypePtr (getCanonicalType (getType e))
                                       = getTypePtr t3)))
                    then
                      Returned
                        [report Warning msgConstCastImplicit (getExprLoc e)
                           [ArgType (getType (getSubExprAsWritten eSub));
                            ArgType (getType e); ArgType (getType expr);
                            ArgRange (getSourceRange expr)]]
                    else Returned []
                  else Returned []
              | _ => Returned []
              end
            else Returned []
        | CK_BitCast =>
            if isVoidPointer (getType expr) && isPointerType (getType subExpr)
            then
              match constCastLoop getPointeeType expr subExpr with
              | None => NullPointerDereference
              | Some (reported, e) =>
                  Returned
                    (reported
                     ++ match e with
                        | CXXReinterpretCastExpr _ _ _ =>
                            [report Warning msgReinterpretToVoid (getExprLoc e)
                               [ArgRange (getSourceRange e)]]
                        | CXXStaticCastExpr _ _ s =>
                            if isVoidPointer (getType (IgnoreParenImpCasts s))
                               && negb (isMacroBodyExpansion (getLocStart e))
                            then
                              [report Warning msgStaticFromVoid (getExprLoc e)
                                 [ArgRange (getSourceRange e)]]
                            else []
                        | _ => []
                        end)
              end
            else Returned []
        | CK_DerivedToBase | CK_UncheckedDerivedToBase =>
            if isPointerType (getType expr) then
              match constCastLoop getPointeeType expr subExpr with
              | None => NullPointerDereference
              | Some (reported, _) => Returned reported
              end
            else if isReferenceType (getType expr) then
              match constCastLoop getReferencePointeeType expr subExpr with
              | None => NullPointerDereference
              | Some (reported, _) => Returned reported
              end
            else Returned []
        | _ => Returned []
        end
  | _ => Returned []
  end.

(** Where the token to replace is looked for: the start of the cast, taken
    out of the macro arguments, and, where that and the end of the cast are
    both in a macro body, its spelling location. *)
Definition rewriteLocation (expr : Expr) : SourceLocation :=
  let loc := skipMacroArgExpansions (getLocStart expr) in
  if isMacroBodyExpansion loc then
    let loc2 := skipMacroArgExpansions (getLocEnd expr) in
    if isMacroBodyExpansion loc2 then getSpellingLoc loc else loc
  else loc.

(** The diagnostics reported and the replacements made. *)
Definition VisitCXXReinterpretCastExpr (expr : Expr)
    : list Diagnostic * list Edit :=
  match expr with
  | CXXReinterpretCastExpr _ _ subExpr =>
      if ignoreLocationStmt ctx (ExprStmt expr) then ([], [])
      else if isVoidPointerType (getType subExpr) then
        match getPointeeType (getType expr) with
        | None => ([], [])
        | Some pointee =>
            if negb (isObjectType pointee) then ([], [])
            else
              let reported :=
                [report Warning msgReinterpretSimplify (getExprLoc expr)
                   [ArgType (getType (getSubExprAsWritten subExpr));
                    ArgType (getType expr); ArgRange (getSourceRange expr)]] in
              match rewriter with
              | Some rw =>
                  let loc := rewriteLocation expr in
                  let tok := tokenAt rw loc in
                  let n := String.length tok in
                  if bool_decide (tok = "reinterpret_cast"%string)
                     && replaceText rw loc n "static_cast"
                  then ([], [mkEdit loc n "static_cast"])
                  else (reported, [])
              | None => (reported, [])
              end
        end
      else if isVoidPointerType (getType expr) then
        match getPointeeType (getType subExpr) with
        | None => ([], [])
        | Some pointee =>
            if negb (isObjectType pointee) then ([], [])
            else
              ([report Warning msgReinterpretSimplifyOrImplicit
                  (getExprLoc expr)
                  [ArgType (getType (getSubExprAsWritten subExpr));
                   ArgType (getType expr); ArgRange (getSourceRange expr)]],
               [])
        end
      else ([], [])
  | _ => ([], [])
  end.

(** [getDirectCallee]: the declaration called, when it is a function. *)
Definition getDirectCallee (callee : option NamedDecl) : option NamedDecl :=
  match callee with
  | Some d => if declIsFunction d then Some d else None
  | None => None
  end.

(** One round of the loop over the arguments of a variadic call. *)
Definition variadicArgumentReport (expr a : Expr) : list Diagnostic :=
  if isPointerType (getType a) then
    match IgnoreParenImpCasts a with
    | CXXConstCastExpr _ _ _ as e =>
        [report Warning msgVariadic (getExprLoc e)
           [ArgRange (getSourceRange expr)]]
    | _ => []
    end
  else [].

(** [VisitCallExpr] is called on the nodes of the class [CallExpr] and of
    the classes derived from it, of which the tree has the calls of
    overloaded operators.  [getCalleeDecl] and [getArg] are those of the
    node: the argument list of a call of an overloaded member operator
    starts with the object. *)
Definition getCalleeDecl (expr : Expr) : option NamedDecl :=
  match expr with
  | CallExpr _ callee _ => callee
  | CXXOperatorCallExpr _ _ _ => operatorDecl expr
  | _ => None
  end.

Definition getArgs (expr : Expr) : list Expr :=
  match expr with
  | CallExpr _ _ args | CXXOperatorCallExpr _ _ args => args
  | _ => []
  end.

Definition VisitCallExpr (expr : Expr) : list Diagnostic :=
  match expr with
  | CallExpr _ _ _ | CXXOperatorCallExpr _ _ _ =>
      if ignoreLocationStmt ctx (ExprStmt expr) then []
      else
        match getDirectCallee (getCalleeDecl expr) with
        | None => []
        | Some f =>
            if negb (isVariadic (functionInfo f))
               || (length (getArgs expr) <=? getNumParams (functionInfo f))%nat
            then []
            else
              List.flat_map (variadicArgumentReport expr)
                (skipn (getNumParams (functionInfo f)) (getArgs expr))
        end
  | _ => []
  end.

Definition VisitCXXDeleteExpr (expr : CXXDeleteExpr) : list Diagnostic :=
  if ignoreLocationStmt ctx (deleteStmt expr) then []
  else
    match IgnoreParenImpCasts (getArgument expr) with
    | CXXConstCastExpr _ _ _ as e =>
        [report Warning msgDelete (getExprLoc e)
           [ArgRange (bitsLocStart (deleteBits expr),
                      bitsLocEnd (deleteBits expr))]]
    | _ => []
    end.

(** The report on one operand of a pointer comparison or subtraction. *)
Definition operandReport (msg : string) (expr operand : Expr)
    (opc : BinaryOperatorKind) : list Diagnostic :=
  match IgnoreParenImpCasts operand with
  | CXXConstCastExpr _ _ _ as e =>
      [report Warning msg (getExprLoc e)
         [ArgBool (bool_decide (opc = BO_Sub));
          ArgRange (getSourceRange expr)]]
  | _ => []
  end.

Definition visitBinOp (expr : Expr) : list Diagnostic :=
  match expr with
  | BinaryOperator _ opc _ lhs rhs =>
      if ignoreLocationStmt ctx (ExprStmt expr) then []
      else if isPointerType (getType lhs) && isPointerType (getType rhs)
      then operandReport msgLhs expr lhs opc ++ operandReport msgRhs expr rhs opc
      else []
  | _ => []
  end.

(** [VisitBinSub], [VisitBinLT], [VisitBinGT], [VisitBinLE], [VisitBinGE],
    [VisitBinEQ] and [VisitBinNE]: each is called on the binary operators
    of its opcode, and there is no callback for another opcode. *)
Definition VisitBin (expr : Expr) : list Diagnostic :=
  match expr with
  | BinaryOperator _ opc _ _ _ =>
      match opc with
      | BO_Sub | BO_LT | BO_GT | BO_LE | BO_GE | BO_EQ | BO_NE =>
          visitBinOp expr
      | _ => []
      end
  | _ => []
  end.

End Surroundings.
End RedundantCast.

(** ** The conditions the properties are stated with *)

Module Spec.

(** The three cases in which removing a cast between arithmetic types
    could change a promoted type: a typedef on either side that differs
    from the other side, an operand that is an arithmetic operation, an
    operand that is an integer literal. *)
Definition promotionSensitive (source target : QualType) (subExpr : Expr)
    : Prop :=
  (source <> target
   /\ (RedundantCast.TypeCheck_Typedef source = true
       \/ RedundantCast.TypeCheck_Typedef target = true))
  \/ RedundantCast.isArithmeticOp subExpr = true
  \/ RedundantCast.isaIntegerLiteral (IgnoreParenImpCasts subExpr) = true.

Definition isArithmeticType (t : QualType) : bool :=
  isIntegralType t || isRealFloatingType t.

(** No diagnostic of the list carries the message [m]. *)
Definition notReported (m : string) (reported : list Diagnostic) : Prop :=
  forall d, In d reported -> diagMessage d <> m.


(** The comma operator [s] is in an accepted position: its parent
    statement is a parenthesized expression, a binary operator, a
    for-statement, or a cleanup wrapper whose own parent is a
    for-statement. *)
Definition acceptedParent (ctx : PluginContext) (s : Stmt) : Prop :=
  exists parent,
    parentStmt ctx s = Some parent
    /\ (CommaOperator.isaParenExpr parent = true
        \/ CommaOperator.isaBinaryOperator parent = true
        \/ CommaOperator.isaForStmt parent = true
        \/ (CommaOperator.isaExprWithCleanups parent = true
            /\ exists parent2,
                 parentStmt ctx parent = Some parent2
                 /\ CommaOperator.isaForStmt parent2 = true)).

(** A cleanup wrapper that is the parent of [s] has a parent statement of
    its own. *)
Definition cleanupsHaveParent (ctx : PluginContext) (s : Stmt) : Prop :=
  forall parent,
    parentStmt ctx s = Some parent ->
    CommaOperator.isaExprWithCleanups parent = true ->
    parentStmt ctx parent <> None.

(** A comma operator that is diagnosed unless the macro-body suppression
    applies. *)
Definition commaPattern (ctx : PluginContext) (binaryOp : Expr) : Prop :=
  ignoreLocationStmt ctx (ExprStmt binaryOp) = false
  /\ ~ acceptedParent ctx (ExprStmt binaryOp)
  /\ cleanupsHaveParent ctx (ExprStmt binaryOp).

(** A C-style cast that is diagnosed unless the macro-body suppression
    applies: the conditions of [VisitCStyleCastExpr] that precede it. *)
Definition cstylePattern (ctx : PluginContext) (b : ExprBits)
    (typeAsWritten : QualType) (subExpr : Expr) : Prop :=
  ignoreLocationStmt ctx (ExprStmt (CStyleCastExpr b typeAsWritten subExpr))
  = false
  /\ isInUnoIncludeFile ctx (getSpellingLoc (bitsLocStart b)) = false
  /\ getType (getSubExprAsWritten subExpr) = typeAsWritten
  /\ (isBuiltinType typeAsWritten || RedundantCast.TypeCheck_Enum typeAsWritten
      || RedundantCast.TypeCheck_Typedef typeAsWritten) = true
  /\ RedundantCast.isOkToRemoveArithmeticCast typeAsWritten typeAsWritten
       subExpr = true.

(** The policy as the specification words it, on the locations of the
    pattern themselves. *)
Definition inIgnoredMacroBody_as_specified (ctx : PluginContext)
    (start middle stop : SourceLocation) : Prop :=
  isMacroBodyExpansion start = true
  /\ isMacroBodyExpansion middle = true
  /\ isMacroBodyExpansion stop = true
  /\ ignoreLocation ctx (getSpellingLoc middle) = true.

Definition commaDiagnostic (b : ExprBits) (operatorLoc : SourceLocation)
    : Diagnostic :=
  mkDiagnostic Warning "comma operator hides code" operatorLoc
    [ArgRange (bitsLocStart b, bitsLocEnd b)].

Definition cstyleDiagnostic (b : ExprBits) (typeAsWritten : QualType)
    : Diagnostic :=
  mkDiagnostic Warning RedundantCast.msgCStyleCast (bitsExprLoc b)
    [ArgType typeAsWritten; ArgType typeAsWritten;
     ArgRange (bitsLocStart b, bitsLocEnd b)].


(** The declaration passes the tests at the head of
    [TraverseFunctionDecl], so that its body is traversed and its
    parameters are checked. *)
Definition isTraversed (ctx : PluginContext) (f : FunctionDecl) : bool :=
  negb (ignoreLocationDecl ctx f)
  && negb (isDeleted f || isFunctionTemplateSpecialization f)
  && negb (isCXXMethodDecl f && bool_decide (0 < size_overridden_methods f)%nat)
  && doesThisDeclarationHaveABody f.

(** [e] is a plain assignment whose left operand is the parameter [p], or a
    call of an overloaded =, +=, -=, *= or /= whose first operand is [p]. *)
Definition assignsTo (e : Expr) (p : ParmVarDecl) : Prop :=
  (exists b operatorLoc b' rhs,
     e = BinaryOperator b BO_Assign operatorLoc (DeclRefExpr b' (ParmVar p)) rhs)
  \/ (exists b op b' args,
        e = CXXOperatorCallExpr b op (DeclRefExpr b' (ParmVar p) :: args)
        /\ In op [OO_Equal; OO_PlusEqual; OO_MinusEqual; OO_StarEqual;
                  OO_SlashEqual]).

(** The allow-list of handle-like wrapper types. *)
Definition onAllowList (t : QualType) : bool :=
  PassParamsByRef.TypeCheck_Class t "Reference" ["uno"; "star"; "sun"; "com"]%string
  || PassParamsByRef.TypeCheck_Class t "Sequence" ["uno"; "star"; "sun"; "com"]%string
  || PassParamsByRef.TypeCheck_Class t "OString" ["rtl"%string]
  || PassParamsByRef.TypeCheck_Class t "OUString" ["rtl"%string]
  || PassParamsByRef.TypeCheck_Class t "Reference" ["rtl"%string].

(** [isFat] as the specification words it: on the allow-list, or a
    complete object type of a size above 64. *)
Definition isFat_as_specified (ctx : PluginContext) (t : QualType) : bool :=
  onAllowList t
  || (isObjectType t && negb (isIncompleteType t)
      && bool_decide (64 < getTypeSizeInChars ctx (getTypePtr t))).

(** The parameters of [f] other than [p]. *)
Definition otherParameters (f : FunctionDecl) (p : ParmVarDecl)
    : list ParmVarDecl :=
  List.filter (fun q => negb (bool_decide (parmId q = parmId p)))
    (parameters f).


(** An expression with all the expressions below it, and the expressions
    of a statement and of a function: what stands in the source, whether
    the traversal of the pass comes to it or not. *)
Fixpoint subExprs (e : Expr) : list Expr :=
  e :: match e with
       | DeclRefExpr _ _ | IntegerLiteral _ _ => []
       | ParenExpr _ sub | ImplicitCastExpr _ _ sub | CStyleCastExpr _ _ sub
       | CXXFunctionalCastExpr _ _ sub | CXXStaticCastExpr _ _ sub
       | CXXConstCastExpr _ _ sub | CXXReinterpretCastExpr _ _ sub
       | UnaryOperator _ sub | CXXStdInitializerListExpr _ sub
       | ExprWithCleanups _ sub => subExprs sub
       | BinaryOperator _ _ _ lhs rhs => subExprs lhs ++ subExprs rhs
       | ConditionalOperator _ c l r =>
           subExprs c ++ subExprs l ++ subExprs r
       | CallExpr _ _ args | CXXOperatorCallExpr _ _ args
       | CXXConstructExpr _ args | InitListExpr _ args | OtherExpr _ args =>
           List.flat_map subExprs args
       end.

Fixpoint exprsOfStmt (s : Stmt) : list Expr :=
  match s with
  | ExprStmt e => subExprs e
  | DeclStmt inits => List.flat_map subExprs inits
  | CompoundStmt l | ForStmt l | OtherStmt l => List.flat_map exprsOfStmt l
  end.

Definition exprsOfFunction (f : FunctionDecl) : list Expr :=
  List.flat_map (fun i => subExprs (getInit i)) (inits f)
  ++ match getBody f with Some body => exprsOfStmt body | None => [] end.


(** At most one diagnostic, and that a warning at [loc]. *)
Definition atMostOneWarningAt (loc : SourceLocation)
    (reported : list Diagnostic) : Prop :=
  reported = []
  \/ exists message args, reported = [mkDiagnostic Warning message loc args].

(** The type with node [t] and bits [c], [v] has neither const nor volatile,
    and, where it is a pointer type, nor has its pointee, at every level. *)
Fixpoint unqualifiedAtEveryLevel (t : Ty) (c v : bool) : bool :=
  negb (isConstQualified (mkQualType t c v))
  && negb (isVolatileQualified (mkQualType t c v))
  && match t with
     | PointerType p pc pv => unqualifiedAtEveryLevel p pc pv
     | _ => true
     end.

(** One of the named casts [const_cast], [static_cast], [reinterpret_cast]. *)
Definition isNamedCast (e : Expr) : bool :=
  match e with
  | CXXConstCastExpr _ _ _ | CXXStaticCastExpr _ _ _
  | CXXReinterpretCastExpr _ _ _ => true
  | _ => false
  end.

Definition isaCXXConstCastExpr (e : Expr) : bool :=
  match e with CXXConstCastExpr _ _ _ => true | _ => false end.




(** A parenthesized expression, an implicit cast or a reference to a
    declaration: the nodes the traversal of the fat-parameter pass may
    leave out. *)
Definition isParenCastOrDeclRef (e : Expr) : bool :=
  match e with
  | ParenExpr _ _ | ImplicitCastExpr _ _ _ | DeclRefExpr _ _ => true
  | _ => false
  end.

(** The warning of the fat-parameter pass on the parameter [p]. *)
Definition passByValueWarning (p : ParmVarDecl) : Diagnostic :=
  mkDiagnostic Warning
    "passing %0 by value, rather pass by const lvalue reference"
    (parmLocation p) [ArgType (parmType p); ArgRange (parmSourceRange p)].


(** The condition of a redundant const_cast as the specification words
    it: the type of the cast is canonically the type of its operand after
    const removal, and nothing is added.  Going down pointers and
    references in step, the cast has const only where the operand has it
    and volatile exactly where the operand has it, and the nodes at the end
    are the same. *)
Fixpoint removesConstOnly (sub : Ty) (sc sv : bool) (result : Ty)
    (rc rv : bool) : bool :=
  implb rc sc && Bool.eqb rv sv
  && match sub, result with
     | PointerType p c v, PointerType p' c' v'
     | LValueReferenceType p c v, LValueReferenceType p' c' v'
     | RValueReferenceType p c v, RValueReferenceType p' c' v' =>
         removesConstOnly p c v p' c' v'
     | _, _ => bool_decide (sub = result)
     end.

Definition redundant_as_specified (result sub : QualType) : bool :=
  let r := getCanonicalType result in
  let s := getCanonicalType sub in
  removesConstOnly (getTypePtr s) (isLocalConstQualified s)
    (isLocalVolatileQualified s) (getTypePtr r) (isLocalConstQualified r)
    (isLocalVolatileQualified r).

(** The condition of [isRedundantConstCast], on the parts of a const_cast:
    the type of the cast is canonically equal to the type of its operand as
    written, qualifiers included, and the cast is not an xvalue made from
    an operand that is not one. *)
Definition sameTypeAndKind (b : ExprBits) (subExpr : Expr) : Prop :=
  getCanonicalType (bitsType b)
  = getCanonicalType (getType (getSubExprAsWritten subExpr))
  /\ (bitsValueKind b = VK_XValue
      -> getValueKind (getSubExprAsWritten subExpr) = VK_XValue).

(** The const_cast with bits [b] and operand [subExpr] is converted
    implicitly, by the no-op conversion with bits [ib], to a pointer or
    object type that is, up to its top-level qualifiers, the canonical type
    of the operand, or one the type of the operand converts to by a
    qualification conversion while that of the cast is another. *)
Definition reQualified (ctx : PluginContext) (b ib : ExprBits)
    (subExpr : Expr) : Prop :=
  (isPointerType (bitsType ib) || isObjectType (bitsType ib)) = true
  /\ (getTypePtr (getCanonicalType (getType subExpr))
      = getTypePtr (getCanonicalType (bitsType ib))
      \/ (IsQualificationConversion ctx (getCanonicalType (getType subExpr))
            (getCanonicalType (bitsType ib)) = true
          /\ getTypePtr (getCanonicalType (bitsType b))
             <> getTypePtr (getCanonicalType (bitsType ib)))).

(** Assignment to a parameter as the specification words it: the
    parameter appears as the left operand of a plain assignment, or as the
    first operand of a call of an overloaded =, +=, -=, *= or /=, whether
    the reference to it stands there bare, in parentheses or under an
    implicit conversion. *)
Definition assignsTo_as_specified (e : Expr) (p : ParmVarDecl) : Prop :=
  (exists b operatorLoc lhs rhs b',
     e = BinaryOperator b BO_Assign operatorLoc lhs rhs
     /\ IgnoreParenImpCasts lhs = DeclRefExpr b' (ParmVar p))
  \/ (exists b op first args b',
        e = CXXOperatorCallExpr b op (first :: args)
        /\ In op [OO_Equal; OO_PlusEqual; OO_MinusEqual; OO_StarEqual;
                  OO_SlashEqual]
        /\ IgnoreParenImpCasts first = DeclRefExpr b' (ParmVar p)).

(** No implicit cast of the function [f] that has [e] below it is at an
    ignored location. *)
Definition notBelowIgnoredImplicitCast (ctx : PluginContext)
    (f : FunctionDecl) (e : Expr) : Prop :=
  forall b kind sub,
    In (ImplicitCastExpr b kind sub) (exprsOfFunction f) ->
    In e (subExprs sub) ->
    ignoreLocationStmt ctx (ExprStmt (ImplicitCastExpr b kind sub)) = false.

(** The operands of an expression and the statements of a statement
    ([Stmt::children]). *)
Definition children (e : Expr) : list Expr :=
  match e with
  | DeclRefExpr _ _ | IntegerLiteral _ _ => []
  | ParenExpr _ sub | ImplicitCastExpr _ _ sub | CStyleCastExpr _ _ sub
  | CXXFunctionalCastExpr _ _ sub | CXXStaticCastExpr _ _ sub
  | CXXConstCastExpr _ _ sub | CXXReinterpretCastExpr _ _ sub
  | UnaryOperator _ sub | CXXStdInitializerListExpr _ sub
  | ExprWithCleanups _ sub => [sub]
  | BinaryOperator _ _ _ lhs rhs => [lhs; rhs]
  | ConditionalOperator _ c l r => [c; l; r]
  | CallExpr _ _ args | CXXOperatorCallExpr _ _ args
  | CXXConstructExpr _ args | InitListExpr _ args | OtherExpr _ args => args
  end.

Definition childStmts (s : Stmt) : list Stmt :=
  match s with
  | ExprStmt _ | DeclStmt _ => []
  | CompoundStmt l | ForStmt l | OtherStmt l => l
  end.

(** A function that is no member function. *)
Definition isPlainFunction (f : FunctionDecl) : bool :=
  negb (isCXXMethodDecl f).

End Spec.

(** ** Concrete inputs *)

Module Examples.

Definition mainFile (n : nat) : SourceLocation := FileLoc "main.cxx" n.
Definition systemHeader (n : nat) : SourceLocation := FileLoc "winsock2.h" n.

Definition isSystemHeader (l : SourceLocation) : bool :=
  match l with
  | FileLoc f _ => bool_decide (f = "winsock2.h"%string)
  | _ => false
  end.

(** A context in which no statement and no declaration is ignored, the
    locations of the system header are, nothing has a parent, and every
    type has size 8. *)
Definition plainContext : PluginContext :=
  mkPluginContext isSystemHeader (fun _ => false) (fun _ => false)
                  (fun _ => false) (fun _ => None) (fun _ _ => false)
                  (fun _ => 8).

Definition intTy : QualType := mkQualType (BuiltinType BK_Int) false false.
Definition boolTy : QualType := mkQualType (BuiltinType BK_Bool) false false.

Definition bitsAt (t : QualType) (k : ExprValueKind) (n : nat) : ExprBits :=
  mkExprBits t k (mainFile n) (mainFile n) (mainFile (n + 1)).

(** [x], an lvalue of type [int] that is no parameter. *)
Definition varX : Expr :=
  DeclRefExpr (bitsAt intTy VK_LValue 20) (OtherValueDecl "x").

(** [const_cast<int&&>(x)]: an xvalue of type [int]. *)
Definition constCastToXValue : Expr :=
  CXXConstCastExpr (bitsAt intTy VK_XValue 10)
    (mkQualType (RValueReferenceType (BuiltinType BK_Int) false false)
       false false)
    varX.

(** [const_cast<int&>(x)]: an lvalue of type [int]. *)
Definition constCastToLValue : Expr :=
  CXXConstCastExpr (bitsAt intTy VK_LValue 10)
    (mkQualType (LValueReferenceType (BuiltinType BK_Int) false false)
       false false)
    varX.

(** [(int)1] and [static_cast<int>(1)]. *)
Definition literalOne : Expr := IntegerLiteral (bitsAt intTy VK_RValue 15) 1.


(** [rtl::OUString], and a constructor
    [C(OUString a, OUString b): m_a(std::move(a)), m_b(b) {}]. *)
Definition ouStringDecl : RecordDecl :=
  mkRecordDecl "OUString" TTK_Class ["rtl"%string] true.
Definition ouStringTy : QualType :=
  mkQualType (RecordType ouStringDecl) false false.
Definition constOUStringTy : QualType :=
  mkQualType (RecordType ouStringDecl) true false.

Definition paramA : ParmVarDecl :=
  mkParmVarDecl 1 ouStringTy (mainFile 100) (mainFile 95, mainFile 101).
Definition paramB : ParmVarDecl :=
  mkParmVarDecl 2 ouStringTy (mainFile 110) (mainFile 105, mainFile 111).

Definition refTo (p : ParmVarDecl) (n : nat) : Expr :=
  DeclRefExpr (bitsAt (parmType p) VK_LValue n) (ParmVar p).

Definition stdMove : NamedDecl := mkNamedDecl "move" true ["std"%string].

Definition moveOf (p : ParmVarDecl) (n : nat) : Expr :=
  CallExpr (bitsAt ouStringTy VK_XValue n) (Some stdMove) [refTo p (n + 10)].

Definition copyOf (p : ParmVarDecl) (n : nat) : Expr :=
  ImplicitCastExpr (bitsAt constOUStringTy VK_LValue n) CK_NoOp (refTo p n).

Definition constructFrom (arg : Expr) (n : nat) : Expr :=
  CXXConstructExpr (bitsAt ouStringTy VK_RValue n) [arg].

Definition initOfB : CXXCtorInitializer :=
  mkCXXCtorInitializer true (constructFrom (copyOf paramB 150) 145).

Definition constructorWith (initOfA : Expr) : FunctionDecl :=
  mkFunctionDecl FK_CXXConstructor (mainFile 90) false false 0
    (Some (CompoundStmt [])) [paramA; paramB]
    [mkCXXCtorInitializer true (constructFrom initOfA 125); initOfB]
    (mainFile 90) (mainFile 88, mainFile 160).

Definition ctorMoveOne : FunctionDecl := constructorWith (moveOf paramA 130).
Definition ctorCopyBoth : FunctionDecl := constructorWith (copyOf paramA 130).

Definition flagged (p : ParmVarDecl) : Diagnostic :=
  mkDiagnostic Warning
    "passing %0 by value, rather pass by const lvalue reference"
    (parmLocation p) [ArgType (parmType p); ArgRange (parmSourceRange p)].

(** [a = b], where [a] and [b] are the two parameters: as an overloaded
    operator call, which it is for a class type, and as a plain
    assignment. *)
Definition assignToA : Expr :=
  CXXOperatorCallExpr (bitsAt ouStringTy VK_LValue 200) OO_Equal
    [refTo paramA 200; copyOf paramB 204].

Definition plainAssignToA : Expr :=
  BinaryOperator (bitsAt ouStringTy VK_LValue 200) BO_Assign (mainFile 202)
    (refTo paramA 200) (refTo paramB 204).

(** [void f(OUString a, OUString b) { a = b; }] *)
Definition functionAssigning : FunctionDecl :=
  mkFunctionDecl FK_Function (mainFile 190) false false 0
    (Some (CompoundStmt [ExprStmt assignToA])) [paramA; paramB] []
    (mainFile 190) (mainFile 188, mainFile 210).

(** A vector of 32 ints, and a context in which every type has size 128. *)
Definition vectorTy : QualType :=
  mkQualType (VectorType (BuiltinType BK_Int) 32) false false.

Definition wideContext : PluginContext :=
  mkPluginContext isSystemHeader (fun _ => false) (fun _ => false)
                  (fun _ => false) (fun _ => None) (fun _ _ => false)
                  (fun _ => 128).

(** [rtl::OUString] where only [class OUString;] has been seen. *)
Definition declaredOUStringTy : QualType :=
  mkQualType (RecordType (mkRecordDecl "OUString" TTK_Class ["rtl"%string] false))
    false false.


(** [(int)1], [int(1)] and [static_cast<int>(1)] share their parts. *)
Definition castBits : ExprBits := bitsAt intTy VK_RValue 10.

(** [static_cast<bool>(ok)] at the start of the body of [assert]. *)
Definition inAssert (n : nat) : SourceLocation :=
  MacroBodyLoc "assert" true (systemHeader n) (mainFile 400).

Definition varOk : Expr :=
  DeclRefExpr (mkExprBits boolTy VK_LValue (mainFile 410) (mainFile 410)
                 (mainFile 412))
    (OtherValueDecl "ok").

Definition assertBits : ExprBits :=
  mkExprBits boolTy VK_RValue (inAssert 60) (inAssert 60) (inAssert 80).

Definition castInAssert : Expr :=
  CXXStaticCastExpr assertBits boolTy
    (ImplicitCastExpr (bitsAt boolTy VK_RValue 410) CK_LValueToRValue varOk).

(** A context in which the file [cppu/unotype.hxx] is a UNO include file. *)
Definition isUnoHeader (l : SourceLocation) : bool :=
  match l with
  | FileLoc f _ => bool_decide (f = "cppu/unotype.hxx"%string)
  | _ => false
  end.

Definition unoContext : PluginContext :=
  mkPluginContext isSystemHeader (fun _ => false) (fun _ => false)
                  isUnoHeader (fun _ => None) (fun _ _ => false)
                  (fun _ => 8).

(** [(int)x], written in a macro of that file. *)
Definition inUnoMacro (n : nat) : SourceLocation :=
  MacroBodyLoc "CPPU_TYPE" false (FileLoc "cppu/unotype.hxx" n) (mainFile 500).

Definition unoCastBits : ExprBits :=
  mkExprBits intTy VK_RValue (inUnoMacro 10) (inUnoMacro 10) (inUnoMacro 16).

Definition operandX : Expr :=
  ImplicitCastExpr (bitsAt intTy VK_RValue 20) CK_LValueToRValue varX.

(** [SOCKET], and the cast [(SOCKET)(fd)] of the body of [FD_ISSET]: with
    its tokens in that body, and with its tokens passed from that body
    through an argument of a further macro. *)
Definition socketTy : QualType :=
  mkQualType (TypedefType "SOCKET" (BuiltinType BK_ULong) false false)
    false false.

Definition inFdIsset (n : nat) : SourceLocation :=
  MacroBodyLoc "FD_ISSET" false (systemHeader n) (mainFile 300).

Definition throughArgument (l : SourceLocation) : SourceLocation :=
  MacroArgLoc "ID" false l (MacroBodyLoc "ID" false (systemHeader 7) l).

Definition operandFd : Expr :=
  ImplicitCastExpr (bitsAt socketTy VK_RValue 310) CK_LValueToRValue
    (ParenExpr (bitsAt socketTy VK_LValue 310)
       (DeclRefExpr (bitsAt socketTy VK_LValue 311) (OtherValueDecl "fd"))).

Definition bodyBits : ExprBits :=
  mkExprBits socketTy VK_RValue (inFdIsset 40) (inFdIsset 40) (inFdIsset 50).

Definition argumentBits : ExprBits :=
  mkExprBits socketTy VK_RValue (throughArgument (inFdIsset 40))
    (throughArgument (inFdIsset 40)) (throughArgument (inFdIsset 50)).

(** The statement [a, b;]: the parent of the comma operator is the
    compound statement around it. *)
Definition commaBits : ExprBits := bitsAt intTy VK_LValue 600.

Definition bareComma : Expr :=
  BinaryOperator commaBits BO_Comma (mainFile 602) varX varX.

Definition statementParents (s : Stmt) : option Stmt :=
  match s with
  | ExprStmt (BinaryOperator _ BO_Comma _ _ _) => Some (CompoundStmt [])
  | _ => None
  end.

Definition statementContext : PluginContext :=
  mkPluginContext isSystemHeader (fun _ => false) (fun _ => false)
                  (fun _ => false) statementParents (fun _ _ => false)
                  (fun _ => 8).

(** [for (a, b; ...)]: the parent is the for-statement; [(a, b)]: the
    parent is the parenthesized expression. *)
Definition forParents (s : Stmt) : option Stmt :=
  match s with
  | ExprStmt (BinaryOperator _ BO_Comma _ _ _) => Some (ForStmt [])
  | _ => None
  end.

Definition parenParents (s : Stmt) : option Stmt :=
  match s with
  | ExprStmt (BinaryOperator b BO_Comma _ _ _) =>
      Some (ExprStmt (ParenExpr b (IntegerLiteral b 0)))
  | _ => None
  end.

Definition parenContext : PluginContext :=
  mkPluginContext isSystemHeader (fun _ => false) (fun _ => false)
                  (fun _ => false) parenParents (fun _ _ => false)
                  (fun _ => 8).

Definition forContext : PluginContext :=
  mkPluginContext isSystemHeader (fun _ => false) (fun _ => false)
                  (fun _ => false) forParents (fun _ _ => false)
                  (fun _ => 8).


(** [static_cast<void*&>(p)], with [p] an lvalue of type [void *]. *)
Definition voidPointerTy : QualType :=
  mkQualType (PointerType (BuiltinType BK_Void) false false) false false.

Definition varP : Expr :=
  DeclRefExpr (bitsAt voidPointerTy VK_LValue 720) (OtherValueDecl "p").

Definition referenceToVoidPointerTy : QualType :=
  mkQualType (LValueReferenceType (PointerType (BuiltinType BK_Void) false false)
                false false)
    false false.

Definition castToReferenceBits : ExprBits := bitsAt voidPointerTy VK_LValue 700.

(** [int *], [const int *] and an lvalue [q] of type [int *]. *)
Definition intPointerTy : QualType :=
  mkQualType (PointerType (BuiltinType BK_Int) false false) false false.
Definition constIntPointerTy : QualType :=
  mkQualType (PointerType (BuiltinType BK_Int) true false) false false.

Definition varQ : Expr :=
  DeclRefExpr (bitsAt intPointerTy VK_LValue 820) (OtherValueDecl "q").

Definition operandQ : Expr :=
  ImplicitCastExpr (bitsAt intPointerTy VK_RValue 820) CK_LValueToRValue varQ.

(** [const_cast<int *>(static_cast<int *>(q))] *)
Definition staticCastOfQ : Expr :=
  CXXStaticCastExpr (bitsAt intPointerTy VK_RValue 810) intPointerTy operandQ.

Definition constCastBits : ExprBits := bitsAt intPointerTy VK_RValue 800.


(** [p], converted to an rvalue; [reinterpret_cast<int *>(p)] and
    [static_cast<int *>(p)], and their implicit conversions back to
    [void *]. *)
Definition operandP : Expr :=
  ImplicitCastExpr (bitsAt voidPointerTy VK_RValue 720) CK_LValueToRValue varP.

Definition reinterpretBits : ExprBits := bitsAt intPointerTy VK_RValue 900.

Definition reinterpretOfP : Expr :=
  CXXReinterpretCastExpr reinterpretBits intPointerTy operandP.

Definition staticBits : ExprBits := bitsAt intPointerTy VK_RValue 910.

Definition staticOfP : Expr := CXXStaticCastExpr staticBits intPointerTy operandP.

Definition toVoidBits : ExprBits := bitsAt voidPointerTy VK_RValue 900.

(** [const_cast<int *>(q)], with [q] of type [int *], and its implicit
    conversion to [const int *]. *)
Definition constCastOfQ : Expr :=
  CXXConstCastExpr constCastBits intPointerTy operandQ.

Definition toConstBits : ExprBits := bitsAt constIntPointerTy VK_RValue 800.

(** A rewriter on a source whose every token is [reinterpret_cast], and
    whose every replacement succeeds. *)
Definition obligingRewriter : RedundantCast.Rewriter :=
  RedundantCast.mkRewriter (fun _ => "reinterpret_cast"%string)
    (fun _ _ _ => true).

(** [void g(int n) {}] *)
Definition paramN : ParmVarDecl :=
  mkParmVarDecl 3 intTy (mainFile 1000) (mainFile 996, mainFile 1001).

Definition functionOfInt : FunctionDecl :=
  mkFunctionDecl FK_Function (mainFile 990) false false 0
    (Some (CompoundStmt [])) [paramN] []
    (mainFile 990) (mainFile 988, mainFile 1010).


(** [int(f())], with [f()] a prvalue of type [int]. *)
Definition callOfF : Expr := CallExpr (bitsAt intTy VK_RValue 30) None [].

(** The warning on [static_cast<int>(x)]. *)
Definition redundantStaticCastOfX : Diagnostic :=
  mkDiagnostic Warning RedundantCast.msgStaticCastRedundant (mainFile 10)
    [ArgType intTy; ArgString "lvalue"; ArgType intTy; ArgString "prvalue";
     ArgBool true; ArgRange (mainFile 10, mainFile 11)].


(** [const int], as written in [static_cast<const int>(1)]; the cast itself
    is a prvalue of type [int]. *)
Definition constIntTy : QualType := mkQualType (BuiltinType BK_Int) true false.

(** [const int *], an lvalue [pc] of that type converted to an rvalue,
    [const_cast<int *>(pc)], and the bits of its implicit conversion back
    to [const int *]. *)
Definition varPc : Expr :=
  DeclRefExpr (bitsAt constIntPointerTy VK_LValue 1120) (OtherValueDecl "pc").

Definition operandPc : Expr :=
  ImplicitCastExpr (bitsAt constIntPointerTy VK_RValue 1120) CK_LValueToRValue
    varPc.

Definition removingBits : ExprBits := bitsAt intPointerTy VK_RValue 1100.

Definition constCastOfPc : Expr :=
  CXXConstCastExpr removingBits intPointerTy operandPc.

Definition requalifyingBits : ExprBits := bitsAt constIntPointerTy VK_RValue 1100.

Definition requalified : Expr :=
  ImplicitCastExpr requalifyingBits CK_NoOp constCastOfPc.

(** [(a) = b] as a call of the overloaded operator, and
    [void g(OUString a, OUString b) { (a) = b; }]. *)
Definition parenthesizedAssignToA : Expr :=
  CXXOperatorCallExpr (bitsAt ouStringTy VK_LValue 1200) OO_Equal
    [ParenExpr (bitsAt ouStringTy VK_LValue 1200) (refTo paramA 1201);
     copyOf paramB 1204].

Definition functionAssigningInParentheses : FunctionDecl :=
  mkFunctionDecl FK_Function (mainFile 1190) false false 0
    (Some (CompoundStmt [ExprStmt parenthesizedAssignToA])) [paramA; paramB] []
    (mainFile 1190) (mainFile 1188, mainFile 1210).

(** A function of the main file with a statement that comes from lines
    included from the system header: [const OUString & r = a = b;],
    where the conversion to [const OUString] is an implicit cast around
    the assignment; and a context in which the expressions that start in
    the system header are at an ignored location. *)
Definition headerBitsAt (t : QualType) (k : ExprValueKind) (n : nat)
    : ExprBits :=
  mkExprBits t k (systemHeader n) (systemHeader n) (systemHeader (n + 1)).

Definition includedAssignToA : Expr :=
  CXXOperatorCallExpr (headerBitsAt ouStringTy VK_LValue 1300) OO_Equal
    [DeclRefExpr (headerBitsAt ouStringTy VK_LValue 1300) (ParmVar paramA);
     copyOf paramB 1304].

Definition includedInitializer : Expr :=
  ImplicitCastExpr (headerBitsAt constOUStringTy VK_LValue 1300) CK_NoOp
    includedAssignToA.

Definition functionWithIncludedLines : FunctionDecl :=
  mkFunctionDecl FK_Function (mainFile 1290) false false 0
    (Some (CompoundStmt [DeclStmt [includedInitializer]])) [paramA; paramB] []
    (mainFile 1290) (mainFile 1288, mainFile 1310).

Definition startsInSystemHeader (s : Stmt) : bool :=
  match s with
  | ExprStmt e => isSystemHeader (getLocStart e)
  | _ => false
  end.

Definition includingContext : PluginContext :=
  mkPluginContext isSystemHeader startsInSystemHeader (fun _ => false)
                  (fun _ => false) (fun _ => None) (fun _ _ => false)
                  (fun _ => 8).

(** [void h(OUString a, OUString b) { for (;;) { OUString c = (a = b); } }]:
    the assignment stands in parentheses, under an implicit conversion, as
    the argument of a construction, in a declaration in a loop. *)
Definition nestedAssignment : Expr :=
  CXXConstructExpr (bitsAt ouStringTy VK_RValue 1400)
    [ImplicitCastExpr (bitsAt constOUStringTy VK_LValue 1401) CK_NoOp
       (ParenExpr (bitsAt ouStringTy VK_LValue 1401) assignToA)].

Definition functionAssigningInLoop : FunctionDecl :=
  mkFunctionDecl FK_Function (mainFile 1390) false false 0
    (Some (CompoundStmt
             [ForStmt [CompoundStmt [DeclStmt [nestedAssignment]]]]))
    [paramA; paramB] []
    (mainFile 1390) (mainFile 1388, mainFile 1410).

(** [obj(fmt, const_cast<char *>(s))], a call of
    [void operator()(char const * fmt, ...)]: the object, the argument of
    the one named parameter, and a variadic argument. *)
Definition charPointerTy : QualType :=
  mkQualType (PointerType (BuiltinType BK_Char) false false) false false.
Definition constCharPointerTy : QualType :=
  mkQualType (PointerType (BuiltinType BK_Char) true false) false false.

Definition callOperator : NamedDecl := mkNamedDecl "operator()" true [].

Definition oneNamedParameter (d : NamedDecl) : RedundantCast.FunctionInfo :=
  RedundantCast.mkFunctionInfo true 1.

Definition varS : Expr :=
  ImplicitCastExpr (bitsAt constCharPointerTy VK_RValue 1520) CK_LValueToRValue
    (DeclRefExpr (bitsAt constCharPointerTy VK_LValue 1520)
       (OtherValueDecl "s")).

Definition formatArgument : Expr :=
  ImplicitCastExpr (bitsAt constCharPointerTy VK_RValue 1510) CK_NoOp
    (CXXConstCastExpr (bitsAt charPointerTy VK_RValue 1510) charPointerTy varS).

Definition callOfOperator : Expr :=
  CXXOperatorCallExpr (bitsAt intTy VK_RValue 1500) OO_Call
    [DeclRefExpr (bitsAt ouStringTy VK_LValue 1500) (OtherValueDecl "obj");
     formatArgument].

(** A method [void C::m(OUString a) {}] and the function [void m(OUString
    a) {}] of the same parts. *)
Definition declarationOfKind (k : FunctionKind) : FunctionDecl :=
  mkFunctionDecl k (mainFile 1590) false false 0
    (Some (CompoundStmt [])) [paramA] []
    (mainFile 1590) (mainFile 1588, mainFile 1610).

End Examples.

(** * Properties *)

(** ** Locations and types *)

(** One round of the loop that leaves the macro arguments. *)
Lemma skipMacroArgExpansions_unfold (l : SourceLocation) :
  skipMacroArgExpansions l
  = if isMacroArgExpansion l
    then skipMacroArgExpansions (getImmediateMacroCallerLoc l)
    else l.
Proof. destruct l; reflexivity. Qed.

Lemma skipMacroArgExpansions_not_arg (l : SourceLocation) :
  isMacroArgExpansion (skipMacroArgExpansions l) = false.
Proof. induction l; simpl; auto. Qed.

Lemma skipMacroArgExpansions_body (l : SourceLocation) :
  isMacroBodyExpansion l = true -> skipMacroArgExpansions l = l.
Proof. destruct l; simpl; intros; congruence. Qed.

(** One round of the loop that looks for an expansion of [FD_ISSET]. *)
Lemma startsExpansionOfFdIsset_unfold (loc : SourceLocation) :
  RedundantCast.startsExpansionOfFdIsset loc
  = isMacroID loc && isAtStartOfImmediateMacroExpansion loc
    && (bool_decide (getImmediateMacroName loc = "FD_ISSET"%string)
        || RedundantCast.startsExpansionOfFdIsset
             (getImmediateMacroCallerLoc loc)).
Proof. destruct loc; reflexivity. Qed.

(** Removing the outermost sugar does not change the canonical node. *)
Lemma canonTy_desugarTy (t : Ty) :
  fst (canonTy (fst (desugarTy t))) = fst (canonTy t).
Proof.
  induction t; simpl; try reflexivity.
  destruct (desugarTy t) as [u [c v]] eqn:Hd.
  destruct (canonTy t) as [u' [c' v']] eqn:Hc.
  simpl in *. exact IHt.
Qed.

Lemma pointee_of_pointer_only (t : QualType) :
  isPointerType t = false -> getPointeeType t = None.
Proof.
  unfold isPointerType, getPointeeType, canonicalNode.
  rewrite <- canonTy_desugarTy.
  destruct (fst (desugarTy (getTypePtr t))); simpl; try reflexivity.
  destruct (canonTy t0) as [p [c v]]; simpl. discriminate.
Qed.

Lemma boolean_is_no_pointer (t : QualType) :
  isBooleanType t = true -> isPointerType t = false.
Proof.
  unfold isBooleanType, isPointerType.
  destruct (canonicalNode t); congruence.
Qed.

(** [isArithmeticOp] as the source has it: the test is made on the
    expression with its parentheses and implicit casts removed. *)
Lemma isArithmeticOp_unfold (expr : Expr) :
  RedundantCast.isArithmeticOp expr
  = match IgnoreParenImpCasts expr with
    | BinaryOperator _ opc _ _ rhs =>
        match opc with
        | BO_Mul | BO_Div | BO_Rem | BO_Add | BO_Sub | BO_Shl | BO_Shr
        | BO_And | BO_Xor | BO_Or => true
        | BO_Comma => RedundantCast.isArithmeticOp rhs
        | _ => false
        end
    | UnaryOperator _ _ | ConditionalOperator _ _ _ _ => true
    | _ => false
    end.
Proof.
  induction expr; simpl; try reflexivity; assumption.
Qed.

(** ** The redundant-cast plugin *)

Section RedundantCastProperties.
Context (ctx : PluginContext).

Import RedundantCast Spec.

Lemma isOkToRemoveArithmeticCast_gate (t1 t2 : QualType) (subExpr : Expr) :
  isArithmeticType t1 = true ->
  promotionSensitive t1 t2 subExpr ->
  isOkToRemoveArithmeticCast t1 t2 subExpr = false.
Proof.
  unfold isArithmeticType, promotionSensitive, isOkToRemoveArithmeticCast.
  intros -> [[Hne Htd] | [-> | ->]]; simpl.
  - rewrite bool_decide_eq_false_2 by assumption.
    destruct Htd as [-> | ->]; simpl; [reflexivity|].
    now rewrite orb_true_r.
  - now rewrite orb_true_r.
  - now rewrite !orb_true_r.
Qed.

Lemma notReported_nil (m : string) : notReported m [].
Proof. intros d []. Qed.

Lemma notReported_one (m : string) (d : Diagnostic) :
  diagMessage d <> m -> notReported m [d].
Proof. intros H d' [<- | []]; assumption. Qed.

(** A type written for an arithmetic type is an object type that is
    neither a record nor an array. *)
Lemma nonClassObjectType_arithmetic (t : QualType) :
  isArithmeticType t = true ->
  isObjectType t && negb (isRecordType t || isArrayType t) = true.
Proof.
  unfold isArithmeticType, isIntegralType, isRealFloatingType, isObjectType,
    isReferenceType, isFunctionType, isVoidType, isRecordType, isArrayType.
  destruct (canonicalNode t) as [k| | | | | | | | |]; simpl;
    try discriminate.
  destruct k; simpl; try discriminate; reflexivity.
Qed.

Lemma boolean_is_arithmetic (t : QualType) :
  isBooleanType t = true -> isArithmeticType t = true.
Proof.
  unfold isBooleanType, isArithmeticType, isIntegralType.
  destruct (canonicalNode t) as [k| | | | | | | | |]; try discriminate.
  destruct k; try discriminate. reflexivity.
Qed.

(** C10: a C-style cast whose start location is spelled inside a UNO
    include file is not reported as a redundant cstyle cast; the callback
    reports nothing at all for it, whatever its types are. *)
Theorem cstyle_cast_in_uno_include_not_reported
    (b : ExprBits) (typeAsWritten : QualType) (subExpr : Expr) :
  isInUnoIncludeFile ctx
    (getSpellingLoc (getLocStart (CStyleCastExpr b typeAsWritten subExpr)))
  = true ->
  VisitCStyleCastExpr ctx (CStyleCastExpr b typeAsWritten subExpr) = [].
Proof.
  intros H. unfold VisitCStyleCastExpr.
  destruct (ignoreLocationStmt ctx _); [reflexivity|].
  now rewrite H.
Qed.

(** C9: a static_cast from a boolean type to a boolean type whose start
    location is in the body of a macro named assert is not reported as
    redundant: the callback returns, and nothing it reports carries the
    message of a redundant static_cast; it reports nothing at all unless
    the type as written has a top-level qualifier. *)
Theorem static_cast_bool_in_assert_not_reported
    (b : ExprBits) (typeAsWritten : QualType) (subExpr : Expr) :
  isBooleanType (getType (getSubExprAsWritten subExpr)) = true ->
  isBooleanType typeAsWritten = true ->
  isMacroBodyExpansion (bitsLocStart b) = true ->
  getImmediateMacroName (bitsLocStart b) = "assert"%string ->
  exists reported,
    VisitCXXStaticCastExpr ctx (CXXStaticCastExpr b typeAsWritten subExpr)
    = Returned reported
    /\ notReported msgStaticCastRedundant reported
    /\ (if hasLocalQualifiers typeAsWritten then True else reported = []).
Proof.
  intros Hb1 Hb2 Hbody Hname.
  unfold VisitCXXStaticCastExpr.
  rewrite (nonClassObjectType_arithmetic typeAsWritten)
    by (apply boolean_is_arithmetic, Hb2).
  simpl.
  assert (Hvoid : voidPointerTypedefsDiffer
                    (getType (getSubExprAsWritten subExpr)) typeAsWritten
                  = Some false).
  { unfold voidPointerTypedefsDiffer, TypeCheck_Pointer_NonConstVolatile_Void.
    now rewrite (pointee_of_pointer_only _ (boolean_is_no_pointer _ Hb1)). }
  assert (Hassert : inAssertMacro (getType (getSubExprAsWritten subExpr))
                      typeAsWritten (CXXStaticCastExpr b typeAsWritten subExpr)
                    = true).
  { unfold inAssertMacro, getLocStart; simpl.
    rewrite Hb1, Hb2, Hbody, Hname. reflexivity. }
  rewrite Hvoid, Hassert.
  destruct (hasLocalQualifiers typeAsWritten).
  - destruct (ignoreLocationStmt ctx _); eexists; (split; [reflexivity|]);
      (split; [first [apply notReported_nil
                     | apply notReported_one; discriminate]
              | exact I]).
  - repeat match goal with
           | |- context [if ?c then _ else _] => destruct c
           end;
      eexists; (split; [reflexivity|]);
      (split; [apply notReported_nil | reflexivity]).
Qed.

Lemma isRedundantConstCast_iff
    (b : ExprBits) (typeAsWritten : QualType) (subExpr : Expr) :
  isRedundantConstCast (CXXConstCastExpr b typeAsWritten subExpr) = true
  <-> getCanonicalType (bitsType b)
      = getCanonicalType (getType (getSubExprAsWritten subExpr))
      /\ (bitsValueKind b = VK_XValue
          -> getValueKind (getSubExprAsWritten subExpr) = VK_XValue).
Proof.
  unfold isRedundantConstCast, getType, getValueKind; simpl.
  rewrite andb_true_iff, orb_true_iff, negb_true_iff,
    bool_decide_eq_true, bool_decide_eq_false, bool_decide_eq_true.
  split; intros [Hty Hk]; split; try assumption.
  - intros Hx. destruct Hk as [Hk | Hk]; [contradiction | assumption].
  - destruct (decide (bitsValueKind b = VK_XValue)) as [Hx | Hx];
      [right; auto | left; assumption].
Qed.

Lemma isRedundantConstCast_sameTypeAndKind
    (b : ExprBits) (typeAsWritten : QualType) (subExpr : Expr) :
  isRedundantConstCast (CXXConstCastExpr b typeAsWritten subExpr) = true
  <-> sameTypeAndKind b subExpr.
Proof. apply isRedundantConstCast_iff. Qed.

(** C1, as the code has it.  A const_cast not at an ignored location is
    reported by the callback for const_casts, with exactly one redundant
    const_cast warning at the location of the const_cast, when its type is
    canonically equal, qualifiers included, to the type of its operand as
    written and it is not an xvalue made from an operand that is not one;
    when it does not meet this condition, nothing that callback reports
    carries that message.  A const_cast that does not meet the condition,
    as one that removes const, is reported by the callback for implicit
    casts, again with exactly one warning at the location of the
    const_cast, when it stands, under parentheses and implicit casts, below
    a no-op conversion that is not at an ignored location and that takes it
    to a pointer or object type which is the canonical type of its operand
    up to top-level qualifiers, or to which the type of its operand
    converts by a qualification conversion while the type of the cast is
    another; below any other no-op conversion that callback reports
    nothing. *)
Theorem redundant_const_cast_reported
    (b : ExprBits) (typeAsWritten : QualType) (subExpr : Expr) :
  ignoreLocationStmt ctx (ExprStmt (CXXConstCastExpr b typeAsWritten subExpr))
  = false ->
  (sameTypeAndKind b subExpr
   -> exists args,
        VisitCXXConstCastExpr ctx (CXXConstCastExpr b typeAsWritten subExpr)
        = [mkDiagnostic Warning msgConstCast (bitsExprLoc b) args])
  /\ (~ sameTypeAndKind b subExpr
      -> notReported msgConstCast
           (VisitCXXConstCastExpr ctx
              (CXXConstCastExpr b typeAsWritten subExpr)))
  /\ (forall (ib : ExprBits) (wrapped : Expr),
        IgnoreParenImpCasts wrapped = CXXConstCastExpr b typeAsWritten subExpr ->
        ignoreLocationStmt ctx (ExprStmt (ImplicitCastExpr ib CK_NoOp wrapped))
        = false ->
        (~ sameTypeAndKind b subExpr /\ reQualified ctx b ib subExpr
         -> exists args,
              VisitImplicitCastExpr ctx (ImplicitCastExpr ib CK_NoOp wrapped)
              = Returned
                  [mkDiagnostic Warning msgConstCastImplicit (bitsExprLoc b)
                     args])
        /\ (~ (~ sameTypeAndKind b subExpr /\ reQualified ctx b ib subExpr)
            -> VisitImplicitCastExpr ctx (ImplicitCastExpr ib CK_NoOp wrapped)
               = Returned [])).
Proof.
  intros Hign. split; [|split].
  - intros Hc. unfold VisitCXXConstCastExpr. rewrite Hign.
    apply (proj2 (isRedundantConstCast_sameTypeAndKind b typeAsWritten subExpr))
      in Hc.
    rewrite Hc. eexists. reflexivity.
  - intros Hc. unfold VisitCXXConstCastExpr. rewrite Hign.
    assert (Hr : isRedundantConstCast
                   (CXXConstCastExpr b typeAsWritten subExpr) = false).
    { apply not_true_is_false. intros Hr. apply Hc.
      exact (proj1 (isRedundantConstCast_sameTypeAndKind b typeAsWritten
                      subExpr) Hr). }
    rewrite Hr.
    destruct (IgnoreParenImpCasts (getSubExprAsWritten subExpr));
      try apply notReported_nil.
    destruct (staticConstCastLoop _ _ _ _ _ _);
      [apply notReported_one; discriminate | apply notReported_nil].
  - intros ib wrapped Hwrapped Hign'.
    unfold VisitImplicitCastExpr. rewrite Hign', Hwrapped.
    change (getType (ImplicitCastExpr ib CK_NoOp wrapped)) with (bitsType ib).
    change (getType (CXXConstCastExpr b typeAsWritten subExpr))
      with (bitsType b).
    unfold reQualified.
    destruct (isRedundantConstCast (CXXConstCastExpr b typeAsWritten subExpr))
      eqn:Hr.
    + apply isRedundantConstCast_sameTypeAndKind in Hr.
      split; [intros [Hn _]; contradiction|].
      intros _. simpl. now destruct (_ || _).
    + assert (Hn : ~ sameTypeAndKind b subExpr).
      { intros Hc.
        apply (proj2 (isRedundantConstCast_sameTypeAndKind b typeAsWritten
                        subExpr)) in Hc.
        congruence. }
      simpl.
      destruct (isPointerType (bitsType ib) || isObjectType (bitsType ib)).
      2:{ split; [intros [_ [Hp _]]; discriminate Hp | reflexivity]. }
      destruct (bool_decide
                  (getTypePtr (getCanonicalType (getType subExpr))
                   = getTypePtr (getCanonicalType (bitsType ib)))) eqn:Hsame.
      { simpl. split; [intros _; eexists; reflexivity|].
        intros Hnot. exfalso. apply Hnot. split; [exact Hn|].
        split; [reflexivity|]. left. now apply bool_decide_eq_true in Hsame. }
      apply bool_decide_eq_false in Hsame. simpl.
      destruct (IsQualificationConversion ctx _ _) eqn:Hq; simpl.
      2:{ split; [|reflexivity].
          intros [_ [_ [Hs | [Hq' _]]]]; [contradiction | discriminate Hq']. }
      destruct (bool_decide
                  (getTypePtr (getCanonicalType (bitsType b))
                   = getTypePtr (getCanonicalType (bitsType ib)))) eqn:Hother;
        simpl.
      * apply bool_decide_eq_true in Hother.
        split; [|reflexivity].
        intros [_ [_ [Hs | [_ Ho]]]]; contradiction.
      * apply bool_decide_eq_false in Hother.
        split; [intros _; eexists; reflexivity|].
        intros Hnot. exfalso. apply Hnot. split; [exact Hn|].
        split; [reflexivity|]. right. split; [reflexivity | exact Hother].
Qed.

(** C2, as the code has it: for a C-style cast, a functional cast and a
    static_cast between two arithmetic types, when a typedef on either side
    differs from the other side, or the operand is an arithmetic operation,
    or the operand is an integer literal, the callbacks for the C-style and
    the functional cast report nothing, and nothing the callback for the
    static_cast reports says that the cast is redundant.  The static_cast
    gets no diagnostic at all where the type as written has no top-level
    const or volatile, or the cast is at an ignored location; where the
    type as written has one, the cast gets exactly the warning that asks to
    remove it, which is decided before [isOkToRemoveArithmeticCast] is
    asked.  Nothing is assumed of the canonical types. *)
Theorem arithmetic_safety_gate
    (b : ExprBits) (typeAsWritten : QualType) (subExpr : Expr) :
  isArithmeticType (getType (getSubExprAsWritten subExpr)) = true ->
  isArithmeticType typeAsWritten = true ->
  promotionSensitive (getType (getSubExprAsWritten subExpr)) typeAsWritten
    subExpr ->
  VisitCStyleCastExpr ctx (CStyleCastExpr b typeAsWritten subExpr) = []
  /\ VisitCXXFunctionalCastExpr ctx
       (CXXFunctionalCastExpr b typeAsWritten subExpr) = []
  /\ exists reported,
       VisitCXXStaticCastExpr ctx (CXXStaticCastExpr b typeAsWritten subExpr)
       = Returned reported
       /\ notReported msgStaticCastRedundant reported
       /\ (hasLocalQualifiers typeAsWritten = false
           \/ ignoreLocationStmt ctx
                (ExprStmt (CXXStaticCastExpr b typeAsWritten subExpr)) = true
           -> reported = [])
       /\ (hasLocalQualifiers typeAsWritten = true ->
           ignoreLocationStmt ctx
             (ExprStmt (CXXStaticCastExpr b typeAsWritten subExpr)) = false ->
           exists args,
             reported
             = [mkDiagnostic Warning msgStaticCastQualifier (bitsExprLoc b)
                  args]).
Proof.
  intros Hsrc Htgt Hsens.
  pose proof (isOkToRemoveArithmeticCast_gate _ _ _ Hsrc Hsens) as Hgate.
  split; [|split].
  - unfold VisitCStyleCastExpr. rewrite Hgate. simpl.
    repeat match goal with
           | |- context [if ?c then _ else _] => destruct c
           end; reflexivity.
  - unfold VisitCXXFunctionalCastExpr.
    destruct (ignoreLocationStmt ctx _); [reflexivity|].
    destruct (_ || _ || _ || _); [reflexivity|].
    destruct (_ && (_ || _)); [reflexivity|].
    destruct (_ && _); [reflexivity|].
    destruct (bool_decide (typeAsWritten = _)) eqn:Heq; [|reflexivity].
    apply bool_decide_eq_true in Heq. simpl.
    destruct Hsens as [[Hne Htd] | Hop].
    + rewrite (bool_decide_eq_false_2 (typeAsWritten = _)) by congruence.
      replace (_ || _) with true; [reflexivity|].
      symmetry. destruct Htd as [-> | ->]; [apply orb_true_r | reflexivity].
    + rewrite (isOkToRemoveArithmeticCast_gate typeAsWritten _ subExpr Htgt)
        by (right; exact Hop).
      now destruct (_ && _).
  - unfold VisitCXXStaticCastExpr. rewrite Hgate.
    rewrite (nonClassObjectType_arithmetic typeAsWritten Htgt). simpl.
    destruct (ignoreLocationStmt ctx _) eqn:Hign.
    { exists []. split; [reflexivity|]. split; [apply notReported_nil|].
      split; [reflexivity | discriminate]. }
    destruct (hasLocalQualifiers typeAsWritten).
    + eexists. split; [reflexivity|].
      split; [apply notReported_one; discriminate|].
      split; [intros [H | H]; discriminate H|].
      intros _ _. eexists. reflexivity.
    + exists [].
      split; [destruct (negb _); reflexivity|].
      split; [apply notReported_nil|].
      split; [reflexivity | discriminate].
Qed.

End RedundantCastProperties.

(** ** commaoperator.cxx *)

Section CommaOperatorProperties.
Context (ctx : PluginContext).

Import CommaOperator Spec.

(** What the walk to the parent statement decides: [Some true] in an
    accepted position, [Some false] otherwise, [None] where a cleanup
    wrapper has no parent. *)
Lemma VisitBinaryOperator_comma
    (b : ExprBits) (operatorLoc : SourceLocation) (lhs rhs : Expr) :
  ignoreLocationStmt ctx (ExprStmt (BinaryOperator b BO_Comma operatorLoc lhs rhs))
  = false ->
  inIgnoredMacroBody ctx b operatorLoc = false ->
  (acceptedParent ctx (ExprStmt (BinaryOperator b BO_Comma operatorLoc lhs rhs))
   -> VisitBinaryOperator ctx (BinaryOperator b BO_Comma operatorLoc lhs rhs)
      = Returned [])
  /\ (~ acceptedParent ctx
          (ExprStmt (BinaryOperator b BO_Comma operatorLoc lhs rhs))
      -> cleanupsHaveParent ctx
           (ExprStmt (BinaryOperator b BO_Comma operatorLoc lhs rhs))
      -> VisitBinaryOperator ctx (BinaryOperator b BO_Comma operatorLoc lhs rhs)
         = Returned [commaDiagnostic b operatorLoc]).
Proof.
  intros Hign Hmac. unfold VisitBinaryOperator.
  rewrite Hign, Hmac. simpl.
  split.
  - intros (parent & -> & Hp).
    destruct (isaParenExpr parent); [reflexivity|].
    destruct (isaBinaryOperator parent); [reflexivity|].
    destruct (isaForStmt parent); [reflexivity|].
    destruct Hp as [Hp | [Hp | [Hp | (-> & parent2 & -> & ->)]]];
      try discriminate.
    reflexivity.
  - intros Hno Hwf. unfold acceptedParent, cleanupsHaveParent in *.
    destruct (parentStmt ctx (ExprStmt _)) as [parent|] eqn:Hpar;
      [|reflexivity].
    destruct (isaParenExpr parent) eqn:H1;
      [exfalso; apply Hno; eauto 6|].
    destruct (isaBinaryOperator parent) eqn:H2;
      [exfalso; apply Hno; eauto 6|].
    destruct (isaForStmt parent) eqn:H3;
      [exfalso; apply Hno; eauto 7|].
    destruct (isaExprWithCleanups parent) eqn:H4; [|reflexivity].
    destruct (parentStmt ctx parent) as [parent2|] eqn:Hpar2.
    + destruct (isaForStmt parent2) eqn:H5; [|reflexivity].
      exfalso; apply Hno. exists parent. split; [reflexivity|].
      right; right; right. split; [exact H4|]. eauto.
    + exfalso. now apply (Hwf parent eq_refl H4).
Qed.

(** C7: a comma operator that is neither at an ignored location nor
    suppressed as a macro body is not diagnosed when its parent statement
    is a parenthesized expression, a binary operator, a for-statement or a
    cleanup wrapper whose parent is a for-statement; otherwise exactly one
    warning, comma operator hides code, is reported, at the location of
    the operator.  (The second part is for a tree in which a cleanup
    wrapper above a comma operator has itself a parent statement.) *)
Theorem comma_operator_reported
    (b : ExprBits) (operatorLoc : SourceLocation) (lhs rhs : Expr) :
  ignoreLocationStmt ctx (ExprStmt (BinaryOperator b BO_Comma operatorLoc lhs rhs))
  = false ->
  inIgnoredMacroBody ctx b operatorLoc = false ->
  cleanupsHaveParent ctx
    (ExprStmt (BinaryOperator b BO_Comma operatorLoc lhs rhs)) ->
  (acceptedParent ctx (ExprStmt (BinaryOperator b BO_Comma operatorLoc lhs rhs))
   -> VisitBinaryOperator ctx (BinaryOperator b BO_Comma operatorLoc lhs rhs)
      = Returned [])
  /\ (~ acceptedParent ctx
          (ExprStmt (BinaryOperator b BO_Comma operatorLoc lhs rhs))
      -> VisitBinaryOperator ctx (BinaryOperator b BO_Comma operatorLoc lhs rhs)
         = Returned [mkDiagnostic Warning "comma operator hides code"
                       operatorLoc
                       [ArgRange (bitsLocStart b, bitsLocEnd b)]]).
Proof.
  intros Hign Hmac Hwf.
  destruct (VisitBinaryOperator_comma b operatorLoc lhs rhs Hign Hmac)
    as [Hyes Hno].
  split; [exact Hyes | intros Hn; exact (Hno Hn Hwf)].
Qed.

(** Without that parent, the callback does not return. *)
Lemma comma_under_parentless_cleanups
    (b bc : ExprBits) (operatorLoc : SourceLocation) (lhs rhs sub : Expr) :
  ignoreLocationStmt ctx (ExprStmt (BinaryOperator b BO_Comma operatorLoc lhs rhs))
  = false ->
  inIgnoredMacroBody ctx b operatorLoc = false ->
  parentStmt ctx (ExprStmt (BinaryOperator b BO_Comma operatorLoc lhs rhs))
  = Some (ExprStmt (ExprWithCleanups bc sub)) ->
  parentStmt ctx (ExprStmt (ExprWithCleanups bc sub)) = None ->
  VisitBinaryOperator ctx (BinaryOperator b BO_Comma operatorLoc lhs rhs)
  = NullPointerDereference.
Proof.
  intros Hign Hmac Hp Hp2. unfold VisitBinaryOperator.
  rewrite Hign, Hmac, Hp. simpl. now rewrite Hp2.
Qed.

Lemma inIgnoredMacroBody_iff (b : ExprBits) (operatorLoc : SourceLocation) :
  inIgnoredMacroBody ctx b operatorLoc = true
  <-> inIgnoredMacroBody_as_specified ctx (bitsLocStart b) operatorLoc
        (bitsLocEnd b).
Proof.
  unfold inIgnoredMacroBody, inIgnoredMacroBody_as_specified.
  rewrite !andb_true_iff. tauto.
Qed.

End CommaOperatorProperties.

(** ** The suppression of patterns inside a macro body *)

Section MacroBodySuppression.
Context (ctx : PluginContext).

Import CommaOperator RedundantCast Spec.

Lemma cstyleInIgnoredMacroBody_iff
    (b : ExprBits) (typeAsWritten : QualType) (subExpr : Expr) :
  cstyleInIgnoredMacroBody ctx (CStyleCastExpr b typeAsWritten subExpr) = true
  <-> inIgnoredMacroBody_as_specified ctx
        (skipMacroArgExpansions (bitsLocStart b))
        (skipMacroArgExpansions (bitsExprLoc b))
        (skipMacroArgExpansions (bitsLocEnd b)).
Proof.
  unfold cstyleInIgnoredMacroBody, inIgnoredMacroBody_as_specified,
    getLocStart, getExprLoc, getLocEnd; simpl.
  rewrite !andb_true_iff. tauto.
Qed.

Lemma VisitCStyleCastExpr_pattern
    (b : ExprBits) (typeAsWritten : QualType) (subExpr : Expr) :
  cstylePattern ctx b typeAsWritten subExpr ->
  VisitCStyleCastExpr ctx (CStyleCastExpr b typeAsWritten subExpr)
  = if cstyleInIgnoredMacroBody ctx (CStyleCastExpr b typeAsWritten subExpr)
    then []
    else [cstyleDiagnostic b typeAsWritten].
Proof.
  intros (Hign & Huno & Hty & Hkind & Hgate).
  unfold VisitCStyleCastExpr.
  rewrite Hign. unfold getLocStart at 1; simpl. rewrite Huno, Hty.
  rewrite bool_decide_eq_true_2 by reflexivity. simpl.
  rewrite Hgate. simpl.
  apply orb_true_iff in Hkind as [Hkind | ->].
  - apply orb_true_iff in Hkind as [-> | ->]; simpl;
      [|rewrite andb_false_r]; reflexivity.
  - rewrite andb_false_r. reflexivity.
Qed.

Lemma VisitBinaryOperator_pattern
    (b : ExprBits) (operatorLoc : SourceLocation) (lhs rhs : Expr) :
  commaPattern ctx (BinaryOperator b BO_Comma operatorLoc lhs rhs) ->
  VisitBinaryOperator ctx (BinaryOperator b BO_Comma operatorLoc lhs rhs)
  = if inIgnoredMacroBody ctx b operatorLoc
    then Returned []
    else Returned [commaDiagnostic b operatorLoc].
Proof.
  intros (Hign & Hno & Hwf).
  destruct (inIgnoredMacroBody ctx b operatorLoc) eqn:Hm.
  - unfold VisitBinaryOperator. now rewrite Hign, Hm.
  - exact (proj2 (VisitBinaryOperator_comma ctx b operatorLoc lhs rhs Hign Hm)
             Hno Hwf).
Qed.

Lemma branch_iff {A : Type} (c : bool) (P : Prop) (x y : A) :
  x <> y ->
  (c = true <-> P) ->
  ((if c then x else y) = x <-> P) /\ ((if c then x else y) = y <-> ~ P).
Proof.
  intros Hxy [Hcp Hpc]. destruct c.
  - split; split.
    + intros _. now apply Hcp.
    + reflexivity.
    + intros Heq. contradiction.
    + intros Hn. exfalso. apply Hn. now apply Hcp.
  - split; split.
    + intros Heq. symmetry in Heq. contradiction.
    + intros HP. apply Hpc in HP. discriminate.
    + intros _ HP. apply Hpc in HP. discriminate.
    + reflexivity.
Qed.

(** C3, as the code has it: a comma operator that is otherwise diagnosed
    is suppressed exactly when its start, operator and end locations are
    all macro-body expansions and the spelling location of the operator is
    ignored; a C-style cast that is otherwise diagnosed is suppressed
    exactly when its start, expression and end locations, each first taken
    out of the macro arguments it was passed through, are all macro-body
    expansions and the spelling location of the expression location so
    obtained is ignored.  A pattern that is not suppressed is diagnosed. *)
Theorem macro_body_suppression
    (b : ExprBits) (operatorLoc : SourceLocation) (lhs rhs : Expr)
    (cb : ExprBits) (typeAsWritten : QualType) (subExpr : Expr) :
  commaPattern ctx (BinaryOperator b BO_Comma operatorLoc lhs rhs) ->
  cstylePattern ctx cb typeAsWritten subExpr ->
  (VisitBinaryOperator ctx (BinaryOperator b BO_Comma operatorLoc lhs rhs)
   = Returned []
   <-> inIgnoredMacroBody_as_specified ctx (bitsLocStart b) operatorLoc
         (bitsLocEnd b))
  /\ (VisitBinaryOperator ctx (BinaryOperator b BO_Comma operatorLoc lhs rhs)
      = Returned [commaDiagnostic b operatorLoc]
      <-> ~ inIgnoredMacroBody_as_specified ctx (bitsLocStart b) operatorLoc
              (bitsLocEnd b))
  /\ (VisitCStyleCastExpr ctx (CStyleCastExpr cb typeAsWritten subExpr) = []
      <-> inIgnoredMacroBody_as_specified ctx
            (skipMacroArgExpansions (bitsLocStart cb))
            (skipMacroArgExpansions (bitsExprLoc cb))
            (skipMacroArgExpansions (bitsLocEnd cb)))
  /\ (VisitCStyleCastExpr ctx (CStyleCastExpr cb typeAsWritten subExpr)
      = [cstyleDiagnostic cb typeAsWritten]
      <-> ~ inIgnoredMacroBody_as_specified ctx
              (skipMacroArgExpansions (bitsLocStart cb))
              (skipMacroArgExpansions (bitsExprLoc cb))
              (skipMacroArgExpansions (bitsLocEnd cb))).
Proof.
  intros Hcomma Hcast.
  rewrite (VisitBinaryOperator_pattern b operatorLoc lhs rhs Hcomma).
  rewrite (VisitCStyleCastExpr_pattern cb typeAsWritten subExpr Hcast).
  pose proof (branch_iff (inIgnoredMacroBody ctx b operatorLoc) _
                (Returned []) (Returned [commaDiagnostic b operatorLoc])
                ltac:(discriminate) (inIgnoredMacroBody_iff ctx b operatorLoc))
    as [H1 H2].
  pose proof (branch_iff _ _ [] [cstyleDiagnostic cb typeAsWritten]
                ltac:(discriminate)
                (cstyleInIgnoredMacroBody_iff cb typeAsWritten subExpr))
    as [H3 H4].
  auto.
Qed.

End MacroBodySuppression.

(** ** passparamsbyref.cxx *)

Section PassParamsByRefProperties.
Context (ctx : PluginContext).

Import PassParamsByRef Spec.

Lemma onAllowList_record (t : QualType) :
  onAllowList t = true -> isRecordType t = true.
Proof.
  unfold onAllowList, TypeCheck_Class, getAsRecordDecl, isRecordType.
  destruct (canonicalNode t); simpl; try discriminate. reflexivity.
Qed.

Lemma isFat_unfold (t : QualType) :
  isFat ctx t
  = isRecordType t
    && (onAllowList t
        || (negb (isIncompleteType t)
            && bool_decide (64 < getTypeSizeInChars ctx (getTypePtr t)))).
Proof.
  unfold isFat. fold (onAllowList t).
  destruct (isRecordType t); simpl; [|reflexivity].
  destruct (onAllowList t); simpl; [reflexivity|].
  destruct (isIncompleteType t); reflexivity.
Qed.

(** C5, as the code has it: [isFat] holds of a type exactly when the type
    is on the allow-list of wrapper types or is a record type (a class,
    struct or union) that is complete and whose size exceeds 64; a type
    that is no record type is not fat, and an incomplete type that is not
    on the allow-list is not fat. *)
Theorem isFat_characterised (t : QualType) :
  (isFat ctx t = true
   <-> onAllowList t = true
       \/ (isRecordType t = true /\ isIncompleteType t = false
           /\ 64 < getTypeSizeInChars ctx (getTypePtr t)))
  /\ (isRecordType t = false -> isFat ctx t = false)
  /\ (isIncompleteType t = true -> onAllowList t = false
      -> isFat ctx t = false).
Proof.
  rewrite isFat_unfold. repeat split.
  - rewrite andb_true_iff, orb_true_iff, andb_true_iff, negb_true_iff,
      bool_decide_eq_true.
    intros [Hr [Ha | [Hc Hs]]]; [left | right]; auto.
  - intros [Ha | (Hr & Hc & Hs)].
    + rewrite (onAllowList_record _ Ha), Ha. reflexivity.
    + rewrite Hr, Hc, (bool_decide_eq_true_2 _ Hs).
      now rewrite orb_true_r.
  - intros ->. reflexivity.
  - intros -> ->. now rewrite andb_false_r.
Qed.

Lemma TraverseFunctionDecl_skipped (f : FunctionDecl) (s : State) :
  isTraversed ctx f = false -> TraverseFunctionDecl ctx f s = (s, []).
Proof.
  unfold isTraversed, TraverseFunctionDecl.
  destruct (ignoreLocationDecl ctx f); [reflexivity|].
  destruct (isDeleted f || isFunctionTemplateSpecialization f);
    [reflexivity|].
  destruct (isCXXMethodDecl f && _); [reflexivity|].
  destruct (doesThisDeclarationHaveABody f); [discriminate | reflexivity].
Qed.

(** The exclusions a traversal of [f] collects, starting from none. *)
Lemma TraverseFunctionDecl_traversed (f : FunctionDecl) (s : State) :
  isTraversed ctx f = true ->
  TraverseFunctionDecl ctx f s
  = (mkState false
       (mParamExclusions
          (RecursiveASTVisitor_TraverseFunctionDecl ctx f (mkState true ∅))),
     List.flat_map
       (checkParam ctx f
          (mkState false
             (mParamExclusions
                (RecursiveASTVisitor_TraverseFunctionDecl ctx f
                   (mkState true ∅)))))
       (parameters f)).
Proof.
  unfold isTraversed, TraverseFunctionDecl.
  destruct (ignoreLocationDecl ctx f); [discriminate|].
  destruct (isDeleted f || isFunctionTemplateSpecialization f);
    [discriminate|].
  destruct (isCXXMethodDecl f && _); [discriminate|].
  destruct (doesThisDeclarationHaveABody f); [reflexivity | discriminate].
Qed.

Lemma WalkUpFrom_flag (s : State) (e : Expr) :
  mbInsideFunctionDecl (WalkUpFrom s e) = mbInsideFunctionDecl s.
Proof.
  unfold WalkUpFrom, VisitBinAssign, VisitCXXOperatorCallExpr.
  repeat case_match; reflexivity.
Qed.

Lemma WalkUpFrom_grows (s : State) (e : Expr) (x : positive) :
  x ∈ mParamExclusions s -> x ∈ mParamExclusions (WalkUpFrom s e).
Proof.
  intros Hx.
  unfold WalkUpFrom, VisitBinAssign, VisitCXXOperatorCallExpr.
  repeat case_match; simpl; try assumption; now apply elem_of_union_r.
Qed.

Lemma WalkUpFrom_records (s : State) (e : Expr) (p : ParmVarDecl) :
  mbInsideFunctionDecl s = true ->
  assignsTo e p ->
  parmId p ∈ mParamExclusions (WalkUpFrom s e).
Proof.
  intros Hin [(b & l & b' & rhs & ->) | (b & op & b' & args & -> & Hop)];
    unfold WalkUpFrom, VisitBinAssign, VisitCXXOperatorCallExpr;
    rewrite Hin; simpl.
  - apply elem_of_union_l, elem_of_singleton_2. reflexivity.
  - assert (Hlike : isAssignmentLikeOperator op = true).
    { simpl in Hop.
      destruct Hop as [<- | [<- | [<- | [<- | [<- | []]]]]]; reflexivity. }
    rewrite Hlike. simpl.
    apply elem_of_union_l, elem_of_singleton_2. reflexivity.
Qed.

Lemma fold_WalkUpFrom_flag (l : list Expr) (s : State) :
  mbInsideFunctionDecl (fold_left WalkUpFrom l s) = mbInsideFunctionDecl s.
Proof.
  revert s. induction l as [|e l IH]; intros s; simpl; [reflexivity|].
  now rewrite IH, WalkUpFrom_flag.
Qed.

Lemma fold_WalkUpFrom_grows (l : list Expr) (s : State) (x : positive) :
  x ∈ mParamExclusions s -> x ∈ mParamExclusions (fold_left WalkUpFrom l s).
Proof.
  revert s. induction l as [|e l IH]; intros s Hx; simpl; [assumption|].
  apply IH. now apply WalkUpFrom_grows.
Qed.

Lemma fold_WalkUpFrom_records (l : list Expr) (s : State) (e : Expr)
    (p : ParmVarDecl) :
  mbInsideFunctionDecl s = true ->
  In e l ->
  assignsTo e p ->
  parmId p ∈ mParamExclusions (fold_left WalkUpFrom l s).
Proof.
  revert s. induction l as [|e' l IH]; intros s Hflag Hin Hassign;
    simpl in *; [contradiction|].
  destruct Hin as [-> | Hin].
  - apply fold_WalkUpFrom_grows. now apply WalkUpFrom_records.
  - apply IH; try assumption. now rewrite WalkUpFrom_flag.
Qed.

Lemma checkParam_excluded (f : FunctionDecl) (s : State) (p : ParmVarDecl) :
  parmId p ∈ mParamExclusions s -> checkParam ctx f s p = [].
Proof.
  intros Hx. unfold checkParam.
  destruct (isFat ctx (parmType p)); simpl; [|reflexivity].
  now rewrite bool_decide_eq_true_2.
Qed.

Lemma flat_map_filter_nil {A B : Type} (g : A -> list B) (keep : A -> bool)
    (l : list A) :
  (forall x, In x l -> keep x = false -> g x = []) ->
  List.flat_map g l = List.flat_map g (List.filter keep l).
Proof.
  induction l as [|x l IH]; intros Hg; simpl; [reflexivity|].
  rewrite IH by (intros y Hy; apply Hg; now right).
  destruct (keep x) eqn:Hk; simpl; [reflexivity|].
  now rewrite (Hg x (or_introl eq_refl) Hk).
Qed.

(** Below an expression that is a reference to a declaration under
    parentheses and implicit casts there is no assignment. *)
Lemma no_assignment_above_declref (sub e : Expr) (p : ParmVarDecl) :
  isaDeclRefExpr (IgnoreParenImpCasts sub) = true ->
  In e (subExprs sub) ->
  ~ assignsTo e p.
Proof.
  induction sub; simpl; intros Hd Hin; try discriminate Hd;
    try (destruct Hin as [<- | Hin];
         [intros [(? & ? & ? & ? & [=]) | (? & ? & ? & ? & [=] & _)]
         | auto]).
Qed.

Lemma in_flat_map_mono {A B : Type} (g h : A -> list B) (l : list A) (y : B) :
  Forall (fun x => In y (g x) -> In y (h x)) l ->
  In y (List.flat_map g l) -> In y (List.flat_map h l).
Proof.
  induction 1 as [|x l Hx _ IH]; simpl; [auto|].
  rewrite !in_app_iff. tauto.
Qed.

(** Induction over the operands of an expression and over the statements
    of a statement. *)
Lemma Expr_children_ind (P : Expr -> Prop) :
  (forall e, (forall x, In x (children e) -> P x) -> P e) ->
  forall e, P e.
Proof.
  intros H. fix IH 1. intros e. apply H.
  destruct e; simpl;
    lazymatch goal with
    | |- forall x, False -> _ => intros x []
    | |- forall x, _ = x \/ False -> _ => intros x [<- | []]; apply IH
    | |- forall x, _ = x \/ _ = x \/ False -> _ =>
        intros x [<- | [<- | []]]; apply IH
    | |- forall x, _ = x \/ _ = x \/ _ = x \/ False -> _ =>
        intros x [<- | [<- | [<- | []]]]; apply IH
    | |- forall x, In x ?l -> _ =>
        let a := fresh "a" in
        let IHl := fresh "IHl" in
        let Hx := fresh "Hx" in
        intros x Hx; induction l as [|a l IHl];
        [destruct Hx | destruct Hx as [<- | Hx]; [apply IH | exact (IHl Hx)]]
    end.
Qed.

Lemma Stmt_children_ind (P : Stmt -> Prop) :
  (forall s, (forall x, In x (childStmts s) -> P x) -> P s) ->
  forall s, P s.
Proof.
  intros H. fix IH 1. intros s. apply H.
  destruct s; simpl;
    lazymatch goal with
    | |- forall x, False -> _ => intros x []
    | |- forall x, In x ?l -> _ =>
        let a := fresh "a" in
        let IHl := fresh "IHl" in
        let Hx := fresh "Hx" in
        intros x Hx; induction l as [|a l IHl];
        [destruct Hx | destruct Hx as [<- | Hx]; [apply IH | exact (IHl Hx)]]
    end.
Qed.

Lemma subExprs_children (e : Expr) :
  subExprs e = e :: List.flat_map subExprs (children e).
Proof. destruct e; simpl; rewrite ?app_nil_r; reflexivity. Qed.

Lemma assignsTo_no_implicit_cast (b : ExprBits) (kind : CastKind)
    (sub : Expr) (p : ParmVarDecl) :
  ~ assignsTo (ImplicitCastExpr b kind sub) p.
Proof.
  intros [(? & ? & ? & ? & [=]) | (? & ? & ? & ? & [=] & _)].
Qed.

(** The traversal comes to every assignment of an expression that is not
    below an implicit cast at an ignored location. *)
Lemma assignment_reached_expr (e : Expr) (p : ParmVarDecl) :
  assignsTo e p ->
  forall root : Expr,
    In e (subExprs root) ->
    (forall b kind sub,
       In (ImplicitCastExpr b kind sub) (subExprs root) ->
       In e (subExprs sub) ->
       ignoreLocationStmt ctx (ExprStmt (ImplicitCastExpr b kind sub)) = false) ->
    In e (traversedExprs ctx root).
Proof.
  intros Ha root. induction root as [root IH] using Expr_children_ind.
  rewrite subExprs_children. intros [<- | Hin] Hloc.
  - destruct Ha as [(? & ? & ? & ? & ->) | (? & ? & ? & ? & -> & _)];
      now left.
  - apply in_flat_map in Hin as (x & Hx & Hex).
    assert (Hrec : In e (traversedExprs ctx x)).
    { apply (IH x Hx Hex). intros b kind sub Hc Hs. apply Hloc; [|exact Hs].
      right. apply in_flat_map. exists x. split; assumption. }
    destruct root as [| |? sub|cb kind sub|? ? sub|? ? sub|? ? sub|? ? sub
                     |? ? sub|? ? ? lhs rhs|? sub|? c l r|? ? args|? ? args
                     |? args|? args|? sub|? sub|? args]; simpl in Hx |- *;
      try contradiction;
      try (destruct Hx as [<- | []]; right; exact Hrec);
      try (right; apply in_flat_map; exists x; split; assumption).
    + (* ImplicitCastExpr *)
      destruct Hx as [<- | []].
      rewrite (Hloc cb kind sub (or_introl eq_refl) Hex).
      destruct (bool_decide (kind = CK_LValueToRValue)
                && isaDeclRefExpr (IgnoreParenImpCasts sub)) eqn:Hprune.
      * exfalso. apply andb_true_iff in Hprune as [_ Hd].
        exact (no_assignment_above_declref sub e p Hd Hex Ha).
      * right. exact Hrec.
    + (* BinaryOperator *)
      right. apply in_app_iff.
      destruct Hx as [<- | [<- | []]]; [left | right]; exact Hrec.
    + (* ConditionalOperator *)
      right. rewrite !in_app_iff.
      destruct Hx as [<- | [<- | [<- | []]]]; auto.
Qed.

Lemma assignment_reached_stmt (e : Expr) (p : ParmVarDecl) :
  assignsTo e p ->
  forall root : Stmt,
    In e (exprsOfStmt root) ->
    (forall b kind sub,
       In (ImplicitCastExpr b kind sub) (exprsOfStmt root) ->
       In e (subExprs sub) ->
       ignoreLocationStmt ctx (ExprStmt (ImplicitCastExpr b kind sub)) = false) ->
    In e (traversedStmt ctx root).
Proof.
  intros Ha root. induction root as [root IH] using Stmt_children_ind.
  assert (Hlist : forall l,
             childStmts root = l ->
             In e (List.flat_map exprsOfStmt l) ->
             (forall b kind sub,
                In (ImplicitCastExpr b kind sub) (List.flat_map exprsOfStmt l) ->
                In e (subExprs sub) ->
                ignoreLocationStmt ctx (ExprStmt (ImplicitCastExpr b kind sub))
                = false) ->
             In e (List.flat_map (traversedStmt ctx) l)).
  { intros l Hl Hin Hloc. apply in_flat_map in Hin as (x & Hx & Hex).
    apply in_flat_map. exists x. split; [exact Hx|].
    apply IH; [now rewrite Hl | exact Hex|].
    intros b kind sub Hc Hs. apply Hloc; [|exact Hs].
    apply in_flat_map. exists x. split; assumption. }
  destruct root as [e0 | l | inits0 | l | l]; simpl; intros Hin Hloc;
    try (now apply (Hlist l eq_refl)).
  - now apply (assignment_reached_expr e p Ha e0).
  - apply in_flat_map in Hin as (x & Hx & Hex).
    apply in_flat_map. exists x. split; [exact Hx|].
    apply (assignment_reached_expr e p Ha x Hex).
    intros b kind sub Hc Hs. apply Hloc; [|exact Hs].
    apply in_flat_map. exists x. split; assumption.
Qed.

Lemma assignment_reached_function (f : FunctionDecl) (e : Expr)
    (p : ParmVarDecl) :
  In e (exprsOfFunction f) ->
  notBelowIgnoredImplicitCast ctx f e ->
  assignsTo e p ->
  In e (traversedFunction ctx f).
Proof.
  unfold notBelowIgnoredImplicitCast, exprsOfFunction, traversedFunction.
  intros Hin Hloc Ha. apply in_app_iff in Hin. apply in_app_iff.
  destruct Hin as [Hin | Hin]; [left | right].
  - apply in_flat_map in Hin as (x & Hx & Hex).
    apply in_flat_map. exists x. split; [exact Hx|].
    apply (assignment_reached_expr e p Ha (getInit x) Hex).
    intros b kind sub Hc Hs. apply Hloc; [|exact Hs].
    apply in_app_iff. left. apply in_flat_map. exists x. split; assumption.
  - destruct (getBody f) as [body|]; [|contradiction].
    apply (assignment_reached_stmt e p Ha body Hin).
    intros b kind sub Hc Hs. apply Hloc; [|exact Hs].
    apply in_app_iff. now right.
Qed.

(** C6, as the code has it: when the pass traverses a function, a
    parameter to which a reference stands bare, not in parentheses and not
    under an implicit conversion, as the left operand of a plain
    assignment, or as the first operand of a call of an overloaded =, +=,
    -=, *= or /=, in an expression of the member initializers or of the
    body that is not below an implicit cast at an ignored location, is in
    the Exclusion Set afterwards and is not flagged, whatever its type:
    the check of that parameter reports nothing, and what the pass reports
    for the function is what it reports for the other parameters. *)
Theorem assigned_parameter_never_flagged
    (f : FunctionDecl) (s : State) (p : ParmVarDecl) (e : Expr) :
  isTraversed ctx f = true ->
  In e (exprsOfFunction f) ->
  notBelowIgnoredImplicitCast ctx f e ->
  assignsTo e p ->
  parmId p ∈ mParamExclusions (fst (TraverseFunctionDecl ctx f s))
  /\ checkParam ctx f (fst (TraverseFunctionDecl ctx f s)) p = []
  /\ snd (TraverseFunctionDecl ctx f s)
     = List.flat_map (checkParam ctx f (fst (TraverseFunctionDecl ctx f s)))
         (otherParameters f p).
Proof.
  intros Htr Hin Hloc Hassign.
  rewrite (TraverseFunctionDecl_traversed f s Htr). simpl.
  assert (Hx : parmId p
               ∈ mParamExclusions
                   (RecursiveASTVisitor_TraverseFunctionDecl ctx f
                      (mkState true ∅))).
  { unfold RecursiveASTVisitor_TraverseFunctionDecl.
    apply (fold_WalkUpFrom_records _ (mkState true ∅) e p);
      [reflexivity | | exact Hassign].
    exact (assignment_reached_function f e p Hin Hloc Hassign). }
  split; [exact Hx|]. split.
  - now apply checkParam_excluded.
  - unfold otherParameters. apply flat_map_filter_nil.
    intros q _ Hq. apply negb_false_iff, bool_decide_eq_true in Hq.
    apply checkParam_excluded. simpl. now rewrite Hq.
Qed.

Lemma TraverseFunctionDecl_from_any_state (f : FunctionDecl) (s : State) :
  TraverseFunctionDecl ctx f s
  = if isTraversed ctx f
    then TraverseFunctionDecl ctx f initialState
    else (s, []).
Proof.
  destruct (isTraversed ctx f) eqn:Htr.
  - now rewrite !(TraverseFunctionDecl_traversed f _ Htr).
  - now apply TraverseFunctionDecl_skipped.
Qed.

Lemma TraverseFunctionDecl_reports_from_any_state
    (f : FunctionDecl) (s : State) :
  snd (TraverseFunctionDecl ctx f s)
  = snd (TraverseFunctionDecl ctx f initialState).
Proof.
  rewrite (TraverseFunctionDecl_from_any_state f s).
  destruct (isTraversed ctx f) eqn:Htr; [reflexivity|].
  now rewrite (TraverseFunctionDecl_skipped f initialState Htr).
Qed.

Lemma TraverseDecls_reports (decls : list FunctionDecl)
    (s : State) (reported : list Diagnostic) :
  snd (fold_left
         (fun acc functionDecl =>
            let '(s', reported') :=
              TraverseFunctionDecl ctx functionDecl (fst acc) in
            (s', snd acc ++ reported'))
         decls (s, reported))
  = reported
    ++ List.flat_map
         (fun f => snd (TraverseFunctionDecl ctx f initialState)) decls.
Proof.
  revert s reported.
  induction decls as [|f decls IH]; intros s reported; simpl.
  - now rewrite app_nil_r.
  - destruct (TraverseFunctionDecl ctx f s) as [s' reported'] eqn:Hf.
    rewrite IH, <- app_assoc. do 2 f_equal.
    rewrite <- (TraverseFunctionDecl_reports_from_any_state f s), Hf.
    reflexivity.
Qed.

(** C8, as the code has it: the visitor has two mutable fields, the
    Exclusion Set and the flag [mbInsideFunctionDecl]; the traversal of a
    function starts from an empty Exclusion Set and leaves the flag unset,
    so that what it reports and the state it leaves are those of a
    traversal by a fresh visitor (a function that is skipped leaves the
    state as it is and reports nothing), and what a run over several
    functions reports is, function by function, what a fresh visitor
    reports: an exclusion recorded in one function has no effect on the
    parameters of another. *)
Theorem exclusions_do_not_cross_functions
    (f : FunctionDecl) (s : State) (decls : list FunctionDecl) :
  TraverseFunctionDecl ctx f s
  = (if isTraversed ctx f
     then TraverseFunctionDecl ctx f initialState
     else (s, []))
  /\ mbInsideFunctionDecl (fst (TraverseFunctionDecl ctx f s))
     = (if isTraversed ctx f then false else mbInsideFunctionDecl s)
  /\ snd (TraverseDecls ctx decls s)
     = List.flat_map
         (fun g => snd (TraverseFunctionDecl ctx g initialState)) decls.
Proof.
  split; [apply TraverseFunctionDecl_from_any_state|]. split.
  - destruct (isTraversed ctx f) eqn:Htr.
    + now rewrite (TraverseFunctionDecl_traversed f s Htr).
    + now rewrite (TraverseFunctionDecl_skipped f s Htr).
  - unfold TraverseDecls. now rewrite TraverseDecls_reports.
Qed.

(** Once one member initializer is a construction from [std::move(...)],
    no parameter of the constructor is flagged. *)
Lemma checkParam_found_move (f : FunctionDecl) (s : State) (p : ParmVarDecl) :
  bFoundMove f = true -> checkParam ctx f s p = [].
Proof.
  intros Hm. unfold checkParam. rewrite Hm.
  destruct (negb (isFat ctx (parmType p))); [reflexivity|].
  destruct (bool_decide _); reflexivity.
Qed.

End PassParamsByRefProperties.

(** ** The properties at concrete inputs *)

Import Examples.

(** [const_cast<int&>(x)] is reported by the callback for const_casts;
    [const_cast<int *>(pc)], with [pc] of type [const int *], is not, and
    is reported by the callback for implicit casts where it is converted
    back to [const int *]. *)
Lemma redundant_const_cast_reported_witness :
  (exists args,
     RedundantCast.VisitCXXConstCastExpr plainContext constCastToLValue
     = [mkDiagnostic Warning RedundantCast.msgConstCast (mainFile 10) args])
  /\ Spec.notReported RedundantCast.msgConstCast
       (RedundantCast.VisitCXXConstCastExpr plainContext constCastOfPc)
  /\ exists args,
       RedundantCast.VisitImplicitCastExpr plainContext requalified
       = Returned
           [mkDiagnostic Warning RedundantCast.msgConstCastImplicit
              (mainFile 1100) args].
Proof.
  assert (Hremoves : ~ Spec.sameTypeAndKind removingBits operandPc).
  { intros [Hty _]. discriminate Hty. }
  split; [|split].
  - apply (proj1 (redundant_const_cast_reported plainContext
                    (bitsAt intTy VK_LValue 10)
                    (mkQualType
                       (LValueReferenceType (BuiltinType BK_Int) false false)
                       false false)
                    varX eq_refl)).
    split; [reflexivity | discriminate].
  - apply (proj1 (proj2 (redundant_const_cast_reported plainContext
                           removingBits intPointerTy operandPc eq_refl))).
    exact Hremoves.
  - apply (proj1 (proj2 (proj2 (redundant_const_cast_reported plainContext
                                  removingBits intPointerTy operandPc eq_refl))
                    requalifyingBits constCastOfPc eq_refl eq_refl)).
    split; [exact Hremoves|].
    split; [reflexivity | left; reflexivity].
Defined.

(** Two const_casts that are not at an ignored location and whose type is
    canonically the type of the operand after const removal, with nothing
    added, and that the callback for const_casts does not report:
    [const_cast<int&&>(x)], with [x] an lvalue of type [int], where the two
    types are even the same; and [const_cast<int *>(pc)], with [pc] of type
    [const int *], whose only report, where it is converted back to
    [const int *], is the one of the callback for implicit casts, with
    another message. *)
Lemma const_cast_after_const_removal_not_reported :
  (ignoreLocationStmt plainContext (ExprStmt constCastToXValue) = false
   /\ Spec.redundant_as_specified (getType constCastToXValue)
        (getType (getSubExprAsWritten varX)) = true
   /\ getCanonicalType (getType constCastToXValue)
      = getCanonicalType (getType (getSubExprAsWritten varX))
   /\ RedundantCast.VisitCXXConstCastExpr plainContext constCastToXValue = [])
  /\ (ignoreLocationStmt plainContext (ExprStmt constCastOfPc) = false
      /\ Spec.redundant_as_specified (getType constCastOfPc)
           (getType (getSubExprAsWritten operandPc)) = true
      /\ RedundantCast.VisitCXXConstCastExpr plainContext constCastOfPc = []
      /\ exists d,
           RedundantCast.VisitImplicitCastExpr plainContext requalified
           = Returned [d]
           /\ diagMessage d <> RedundantCast.msgConstCast).
Proof.
  split; [repeat split|].
  split; [reflexivity|]. split; [reflexivity|]. split; [reflexivity|].
  eexists. split; [reflexivity | discriminate].
Qed.

(** [(int)1], [int(1)] and [static_cast<int>(1)] are not reported. *)
Lemma arithmetic_safety_gate_witness :
  RedundantCast.VisitCStyleCastExpr plainContext
    (CStyleCastExpr castBits intTy literalOne) = []
  /\ RedundantCast.VisitCXXFunctionalCastExpr plainContext
       (CXXFunctionalCastExpr castBits intTy literalOne) = []
  /\ RedundantCast.VisitCXXStaticCastExpr plainContext
       (CXXStaticCastExpr castBits intTy literalOne)
     = Returned [].
Proof.
  destruct (arithmetic_safety_gate plainContext castBits intTy literalOne
              eq_refl eq_refl (or_intror (or_intror eq_refl)))
    as (Hcstyle & Hfunctional & reported & Hreturned & _ & Hnone & _).
  split; [exact Hcstyle|]. split; [exact Hfunctional|].
  rewrite Hreturned. f_equal. apply Hnone. left. reflexivity.
Defined.

(** [static_cast<const int>(1)]: a cast between arithmetic types whose
    operand is an integer literal, the types canonically equal; it gets
    the warning that asks to remove the qualifier. *)
Lemma static_cast_to_const_of_literal_reported :
  Spec.isArithmeticType (getType (getSubExprAsWritten literalOne)) = true
  /\ Spec.isArithmeticType constIntTy = true
  /\ Spec.promotionSensitive (getType (getSubExprAsWritten literalOne))
       constIntTy literalOne
  /\ getCanonicalType (getType literalOne)
     = getCanonicalType (bitsType castBits)
  /\ exists args,
       RedundantCast.VisitCXXStaticCastExpr plainContext
         (CXXStaticCastExpr castBits constIntTy literalOne)
       = Returned
           [mkDiagnostic Warning RedundantCast.msgStaticCastQualifier
              (mainFile 10) args].
Proof.
  split; [reflexivity|]. split; [reflexivity|].
  split; [right; right; reflexivity|].
  split; [reflexivity|]. eexists. reflexivity.
Qed.

(** The same casts of [x] instead of [1] are reported. *)
Example casts_of_a_variable_reported :
  RedundantCast.VisitCStyleCastExpr plainContext
    (CStyleCastExpr castBits intTy operandX)
  = [Spec.cstyleDiagnostic castBits intTy]
  /\ exists d,
       RedundantCast.VisitCXXStaticCastExpr plainContext
         (CXXStaticCastExpr castBits intTy operandX)
       = Returned [d]
       /\ diagMessage d = RedundantCast.msgStaticCastRedundant.
Proof. split; [reflexivity | eexists; split; reflexivity]. Qed.

(** [static_cast<bool>(ok)] in the body of [assert] is not reported. *)
Lemma static_cast_bool_in_assert_not_reported_witness :
  exists reported,
    RedundantCast.VisitCXXStaticCastExpr plainContext castInAssert
    = Returned reported
    /\ Spec.notReported RedundantCast.msgStaticCastRedundant reported
    /\ reported = [].
Proof.
  apply (static_cast_bool_in_assert_not_reported plainContext assertBits
           boolTy
           (ImplicitCastExpr (bitsAt boolTy VK_RValue 410) CK_LValueToRValue
              varOk));
    reflexivity.
Defined.

(** The same cast outside of a macro is reported. *)
Example static_cast_bool_outside_assert_reported :
  exists d,
    RedundantCast.VisitCXXStaticCastExpr plainContext
      (CXXStaticCastExpr (bitsAt boolTy VK_RValue 400) boolTy
         (ImplicitCastExpr (bitsAt boolTy VK_RValue 410) CK_LValueToRValue
            varOk))
    = Returned [d]
    /\ diagMessage d = RedundantCast.msgStaticCastRedundant.
Proof. eexists; split; reflexivity. Qed.

(** [(int)x] spelled in a UNO include file is not reported, while the
    context that knows of no such file reports it. *)
Lemma cstyle_cast_in_uno_include_not_reported_witness :
  RedundantCast.VisitCStyleCastExpr unoContext
    (CStyleCastExpr unoCastBits intTy operandX) = []
  /\ RedundantCast.VisitCStyleCastExpr plainContext
       (CStyleCastExpr unoCastBits intTy operandX)
     = [Spec.cstyleDiagnostic unoCastBits intTy].
Proof.
  split.
  - apply (cstyle_cast_in_uno_include_not_reported unoContext unoCastBits
             intTy operandX).
    reflexivity.
  - reflexivity.
Defined.


Lemma bareComma_not_accepted :
  ~ Spec.acceptedParent statementContext (ExprStmt bareComma).
Proof.
  intros (parent & Hp & Hkind). simpl in Hp. injection Hp as <-.
  destruct Hkind as [H | [H | [H | [H _]]]]; discriminate H.
Defined.

Lemma bareComma_cleanups :
  Spec.cleanupsHaveParent statementContext (ExprStmt bareComma).
Proof.
  intros parent Hp Hkind. simpl in Hp. injection Hp as <-.
  discriminate Hkind.
Defined.

(** The statement [a, b;] gets one warning, at the location of the comma. *)
Lemma comma_operator_reported_witness :
  CommaOperator.VisitBinaryOperator statementContext bareComma
  = Returned [mkDiagnostic Warning "comma operator hides code"
                (mainFile 602) [ArgRange (mainFile 600, mainFile 601)]].
Proof.
  apply (proj2 (comma_operator_reported statementContext commaBits
                  (mainFile 602) varX varX eq_refl eq_refl
                  bareComma_cleanups)).
  exact bareComma_not_accepted.
Defined.

(** In [for (a, b; ...; ...)] and in [(a, b)] the comma gets none. *)
Example comma_in_for_not_reported :
  CommaOperator.VisitBinaryOperator forContext bareComma = Returned []
  /\ CommaOperator.VisitBinaryOperator parenContext bareComma = Returned [].
Proof. split; reflexivity. Qed.

(** [(SOCKET)(fd)] with its tokens passed through a macro argument is a
    cast that is diagnosed unless suppressed, its start location is not a
    macro-body expansion, and it is not diagnosed. *)
Lemma cstyle_cast_through_macro_argument_suppressed :
  Spec.cstylePattern plainContext argumentBits socketTy operandFd
  /\ ~ Spec.inIgnoredMacroBody_as_specified plainContext
         (bitsLocStart argumentBits) (bitsExprLoc argumentBits)
         (bitsLocEnd argumentBits)
  /\ RedundantCast.VisitCStyleCastExpr plainContext
       (CStyleCastExpr argumentBits socketTy operandFd) = [].
Proof.
  split; [repeat split|]. split; [|reflexivity].
  intros [H _]. discriminate H.
Qed.

(** The statement [a, b;] is diagnosed, the cast [(SOCKET)(fd)] of the
    body of [FD_ISSET] is not, with its tokens in that body or passed on
    through an argument. *)
Lemma macro_body_suppression_witness :
  CommaOperator.VisitBinaryOperator statementContext bareComma
  = Returned [Spec.commaDiagnostic commaBits (mainFile 602)]
  /\ RedundantCast.VisitCStyleCastExpr statementContext
       (CStyleCastExpr bodyBits socketTy operandFd) = []
  /\ RedundantCast.VisitCStyleCastExpr statementContext
       (CStyleCastExpr argumentBits socketTy operandFd) = [].
Proof.
  assert (Hcomma : Spec.commaPattern statementContext bareComma).
  { split; [reflexivity|].
    split; [exact bareComma_not_accepted | exact bareComma_cleanups]. }
  assert (Hbody : Spec.cstylePattern statementContext bodyBits socketTy
                    operandFd).
  { repeat split. }
  assert (Harg : Spec.cstylePattern statementContext argumentBits socketTy
                   operandFd).
  { repeat split. }
  destruct (macro_body_suppression statementContext commaBits (mainFile 602)
              varX varX bodyBits socketTy operandFd Hcomma Hbody)
    as (_ & Hdiagnosed & Hsuppressed & _).
  destruct (macro_body_suppression statementContext commaBits (mainFile 602)
              varX varX argumentBits socketTy operandFd Hcomma Harg)
    as (_ & _ & Hsuppressed' & _).
  split; [|split].
  - apply Hdiagnosed. intros [H _]. discriminate H.
  - apply Hsuppressed. repeat split.
  - apply Hsuppressed'. repeat split.
Defined.

(** C4, at the constructor
    [C(OUString a, OUString b): m_a(std::move(a)), m_b(b) {}]: the
    parameter [b] is fat, is not in the Exclusion Set and its member is not
    constructed from a move, and yet nothing is reported, while both
    parameters are flagged once [m_a] is initialized with [a] instead. *)
Theorem move_of_one_parameter_exempts_all :
  PassParamsByRef.isFat plainContext (parmType paramB) = true
  /\ PassParamsByRef.isMoveConstruction initOfB = false
  /\ bool_decide
       (parmId paramB
        ∈ PassParamsByRef.mParamExclusions
            (fst (PassParamsByRef.TraverseFunctionDecl plainContext
                    ctorMoveOne PassParamsByRef.initialState)))
     = false
  /\ snd (PassParamsByRef.TraverseFunctionDecl plainContext ctorMoveOne
            PassParamsByRef.initialState) = []
  /\ snd (PassParamsByRef.TraverseFunctionDecl plainContext ctorCopyBoth
            PassParamsByRef.initialState)
     = [flagged paramA; flagged paramB].
Proof. repeat split. Qed.

(** A vector of 32 ints in a context where it has size 128 is a complete
    object type of a size above 64 that is not fat; [rtl::OUString] before
    it is defined is an incomplete type that is fat. *)
Lemma isFat_differs_from_specification :
  (Spec.isFat_as_specified wideContext vectorTy = true
   /\ PassParamsByRef.isFat wideContext vectorTy = false)
  /\ (isIncompleteType declaredOUStringTy = true
      /\ PassParamsByRef.isFat plainContext declaredOUStringTy = true).
Proof. repeat split. Qed.

(** In [void h(OUString a, OUString b) { for (;;) { OUString c = (a = b); } }]
    the parameter [a] is excluded and not flagged; [b] is. *)
Lemma assigned_parameter_never_flagged_witness :
  parmId paramA
  ∈ PassParamsByRef.mParamExclusions
      (fst (PassParamsByRef.TraverseFunctionDecl plainContext
              functionAssigningInLoop PassParamsByRef.initialState))
  /\ PassParamsByRef.checkParam plainContext functionAssigningInLoop
       (fst (PassParamsByRef.TraverseFunctionDecl plainContext
               functionAssigningInLoop PassParamsByRef.initialState)) paramA
     = []
  /\ snd (PassParamsByRef.TraverseFunctionDecl plainContext
            functionAssigningInLoop PassParamsByRef.initialState)
     = List.flat_map
         (PassParamsByRef.checkParam plainContext functionAssigningInLoop
            (fst (PassParamsByRef.TraverseFunctionDecl plainContext
                    functionAssigningInLoop PassParamsByRef.initialState)))
         (Spec.otherParameters functionAssigningInLoop paramA).
Proof.
  apply (assigned_parameter_never_flagged plainContext functionAssigningInLoop
           PassParamsByRef.initialState paramA assignToA).
  - reflexivity.
  - simpl. do 3 right. left. reflexivity.
  - intros b kind sub _ _. reflexivity.
  - right. exists (bitsAt ouStringTy VK_LValue 200), OO_Equal,
      (bitsAt ouStringTy VK_LValue 200), [copyOf paramB 204].
    split; [reflexivity | left; reflexivity].
Defined.

Example assigned_parameter_reports :
  snd (PassParamsByRef.TraverseFunctionDecl plainContext functionAssigning
         PassParamsByRef.initialState)
  = [flagged paramB]
  /\ snd (PassParamsByRef.TraverseFunctionDecl plainContext
            functionAssigningInLoop PassParamsByRef.initialState)
     = [flagged paramB].
Proof. split; reflexivity. Qed.

(** Two functions the pass traverses in which the parameter [a] appears as
    the first operand of a call of the overloaded = that the traversal
    walks up from or that stands in the body, and in which [a] is not put
    into the Exclusion Set and is flagged: in
    [void g(OUString a, OUString b) { (a) = b; }] the reference to [a]
    stands in parentheses; in the function with lines included from the
    system header the assignment [a = b] is below an implicit cast at an
    ignored location, into which the traversal does not descend. *)
Lemma assignment_in_parentheses_or_below_ignored_cast_flagged :
  (Spec.isTraversed plainContext functionAssigningInParentheses = true
   /\ In parenthesizedAssignToA
        (PassParamsByRef.traversedFunction plainContext
           functionAssigningInParentheses)
   /\ Spec.assignsTo_as_specified parenthesizedAssignToA paramA
   /\ bool_decide
        (parmId paramA
         ∈ PassParamsByRef.mParamExclusions
             (fst (PassParamsByRef.TraverseFunctionDecl plainContext
                     functionAssigningInParentheses
                     PassParamsByRef.initialState)))
      = false
   /\ snd (PassParamsByRef.TraverseFunctionDecl plainContext
             functionAssigningInParentheses PassParamsByRef.initialState)
      = [flagged paramA; flagged paramB])
  /\ (Spec.isTraversed includingContext functionWithIncludedLines = true
      /\ In includedAssignToA (Spec.exprsOfFunction functionWithIncludedLines)
      /\ Spec.assignsTo includedAssignToA paramA
      /\ Spec.assignsTo_as_specified includedAssignToA paramA
      /\ bool_decide
           (parmId paramA
            ∈ PassParamsByRef.mParamExclusions
                (fst (PassParamsByRef.TraverseFunctionDecl includingContext
                        functionWithIncludedLines
                        PassParamsByRef.initialState)))
         = false
      /\ snd (PassParamsByRef.TraverseFunctionDecl includingContext
                functionWithIncludedLines PassParamsByRef.initialState)
         = [flagged paramA; flagged paramB]).
Proof.
  split.
  - split; [reflexivity|]. split; [left; reflexivity|].
    split; [|split; reflexivity].
    right. unfold parenthesizedAssignToA. do 5 eexists.
    split; [reflexivity|]. split; [left; reflexivity | reflexivity].
  - split; [reflexivity|]. split; [right; left; reflexivity|].
    split; [|split; [|split; reflexivity]].
    + right. unfold includedAssignToA. do 4 eexists.
      split; [reflexivity | left; reflexivity].
    + right. unfold includedAssignToA. do 5 eexists.
      split; [reflexivity|]. split; [left; reflexivity | reflexivity].
Qed.

(** Two states of the visitor with the same Exclusion Set, on which the
    callback for a plain assignment to a parameter leaves different
    Exclusion Sets: the flag [mbInsideFunctionDecl] is state as well. *)
Lemma exclusion_set_is_not_the_only_state :
  PassParamsByRef.mParamExclusions (PassParamsByRef.mkState true ∅)
  = PassParamsByRef.mParamExclusions (PassParamsByRef.mkState false ∅)
  /\ PassParamsByRef.mParamExclusions
       (PassParamsByRef.VisitBinAssign plainAssignToA
          (PassParamsByRef.mkState true ∅))
     <> PassParamsByRef.mParamExclusions
          (PassParamsByRef.VisitBinAssign plainAssignToA
             (PassParamsByRef.mkState false ∅)).
Proof.
  split; [reflexivity|]. simpl. intros H.
  assert (Hin : (1%positive : positive) ∈ ({[1%positive]} ∪ ∅ : gset positive))
    by (apply elem_of_union_l, elem_of_singleton_2; reflexivity).
  rewrite H in Hin. exact (not_elem_of_empty _ Hin).
Qed.

(** * Further properties *)

(** ** The callbacks for the explicit casts *)

Section ExplicitCasts.
Context (ctx : PluginContext).

Import RedundantCast Spec.

(** A C-style cast that is reported meets every condition of
    [VisitCStyleCastExpr] that comes before the report, is not suppressed
    as a macro body, and gets the one diagnostic of the rule. *)
Theorem cstyle_cast_report_characterised
    (b : ExprBits) (typeAsWritten : QualType) (subExpr : Expr) :
  VisitCStyleCastExpr ctx (CStyleCastExpr b typeAsWritten subExpr) <> [] ->
  cstylePattern ctx b typeAsWritten subExpr
  /\ cstyleInIgnoredMacroBody ctx (CStyleCastExpr b typeAsWritten subExpr)
     = false
  /\ VisitCStyleCastExpr ctx (CStyleCastExpr b typeAsWritten subExpr)
     = [cstyleDiagnostic b typeAsWritten].
Proof.
  unfold VisitCStyleCastExpr, cstylePattern.
  destruct (ignoreLocationStmt ctx _) eqn:Hign; [congruence|].
  unfold getLocStart at 1; simpl.
  destruct (isInUnoIncludeFile ctx _) eqn:Huno; [congruence|].
  destruct (bool_decide (getType (getSubExprAsWritten subExpr) = typeAsWritten))
    eqn:Hty; simpl; [|congruence].
  apply bool_decide_eq_true in Hty. rewrite Hty.
  destruct (negb (isBuiltinType typeAsWritten) && _ && _) eqn:Hkind;
    [congruence|].
  destruct (isOkToRemoveArithmeticCast typeAsWritten typeAsWritten subExpr)
    eqn:Hgate; simpl; [|congruence].
  destruct (cstyleInIgnoredMacroBody ctx _) eqn:Hmac; [congruence|].
  intros _. repeat split; try reflexivity.
  destruct (isBuiltinType typeAsWritten), (TypeCheck_Enum typeAsWritten),
    (TypeCheck_Typedef typeAsWritten); simpl in *; congruence.
Qed.

(** Each callback for an explicit cast reports at most one diagnostic, and
    that is a warning at the expression location of the cast. *)
Theorem explicit_cast_reported_at_most_once (expr : Expr) :
  atMostOneWarningAt (getExprLoc expr) (VisitCStyleCastExpr ctx expr)
  /\ atMostOneWarningAt (getExprLoc expr) (VisitCXXFunctionalCastExpr ctx expr)
  /\ atMostOneWarningAt (getExprLoc expr) (VisitCXXConstCastExpr ctx expr)
  /\ (VisitCXXStaticCastExpr ctx expr = NullPointerDereference
      \/ exists reported,
           VisitCXXStaticCastExpr ctx expr = Returned reported
           /\ atMostOneWarningAt (getExprLoc expr) reported).
Proof.
  unfold atMostOneWarningAt.
  split; [|split; [|split]].
  - unfold VisitCStyleCastExpr.
    repeat case_match; first [now left | right; eauto].
  - unfold VisitCXXFunctionalCastExpr.
    repeat case_match; first [now left | right; eauto].
  - unfold VisitCXXConstCastExpr.
    repeat case_match; first [now left | right; eauto].
  - unfold VisitCXXStaticCastExpr.
    repeat case_match;
      first [now left
            | right; eexists; split; [reflexivity|];
              first [now left | right; eauto]].
Qed.

(** [VisitCXXStaticCastExpr] goes through a null pointer only on a cast
    from a pointer to unqualified void, where neither the type of the
    operand nor the type written is a typedef and the type written is no
    pointer type. *)
Theorem static_cast_null_pointer_only_from_void_pointer
    (b : ExprBits) (typeAsWritten : QualType) (subExpr : Expr) :
  VisitCXXStaticCastExpr ctx (CXXStaticCastExpr b typeAsWritten subExpr)
  = NullPointerDereference ->
  TypeCheck_Pointer_NonConstVolatile_Void
    (getType (getSubExprAsWritten subExpr)) = true
  /\ getAsTypedefType (getType (getSubExprAsWritten subExpr)) = None
  /\ getAsTypedefType typeAsWritten = None
  /\ getPointeeType typeAsWritten = None.
Proof.
  unfold VisitCXXStaticCastExpr.
  repeat match goal with
         | |- context [if ?c then _ else _] => destruct c; try discriminate
         end;
    unfold voidPointerTypedefsDiffer;
    destruct (TypeCheck_Pointer_NonConstVolatile_Void _) eqn:Hv;
    try discriminate;
    destruct (getAsTypedefType (getType _)) eqn:H1;
    destruct (getAsTypedefType typeAsWritten) eqn:H2; try discriminate;
    unfold TypeCheck_Pointer_NonConstVolatile_Void in Hv;
    destruct (getPointeeType (getType _)) eqn:H3; try discriminate;
    destruct (getPointeeType typeAsWritten) eqn:H4;
    repeat case_match; try discriminate; auto.
Qed.

Lemma staticConstCastLoop_unqualified (t2 : Ty) :
  forall (c2 v2 : bool) (t1 : QualType) (isNullptr : bool) (t3 : QualType),
    unqualifiedAtEveryLevel t2 c2 v2 = true ->
    staticConstCastLoop t2 c2 v2 t1 isNullptr t3 = false.
Proof.
  induction t2; intros c2 v2 t1 isNullptr t3 Hu; simpl in Hu |- *;
    apply andb_true_iff in Hu as [Hq Hrest];
    apply andb_true_iff in Hq as [Hc Hv];
    apply negb_true_iff in Hc, Hv;
    unfold qualifierOnlyInMiddle; rewrite Hc, Hv; simpl;
    repeat case_match; try reflexivity.
  all: now apply IHt2.
Qed.

(** The combination of a static_cast with a const_cast is not reported
    when the canonical type of the static_cast has neither const nor
    volatile at any level of its pointers. *)
Theorem combination_needs_qualifier_in_static_cast
    (b : ExprBits) (typeAsWritten : QualType) (subExpr : Expr)
    (db : ExprBits) (dceTypeAsWritten : QualType) (dceSub : Expr) :
  IgnoreParenImpCasts (getSubExprAsWritten subExpr)
  = CXXStaticCastExpr db dceTypeAsWritten dceSub ->
  unqualifiedAtEveryLevel
    (getTypePtr (getCanonicalType (bitsType db)))
    (isLocalConstQualified (getCanonicalType (bitsType db)))
    (isLocalVolatileQualified (getCanonicalType (bitsType db))) = true ->
  notReported msgStaticConstCombination
    (VisitCXXConstCastExpr ctx (CXXConstCastExpr b typeAsWritten subExpr)).
Proof.
  intros Hsub Hu. unfold VisitCXXConstCastExpr.
  destruct (ignoreLocationStmt ctx _); [intros d []|].
  destruct (isRedundantConstCast _).
  - intros d [<- | []]. discriminate.
  - rewrite Hsub. unfold getType at 2; simpl.
    rewrite (staticConstCastLoop_unqualified _ _ _ _ _ _ Hu).
    intros d [].
Qed.

End ExplicitCasts.

(** ** The callbacks for what surrounds a cast *)

Section Surroundings.
Context (ctx : PluginContext).
Context (rewriter : option RedundantCast.Rewriter).
Context (functionInfo : NamedDecl -> RedundantCast.FunctionInfo).
Context (operatorDecl : Expr -> option NamedDecl).

Import RedundantCast Spec.

Lemma IgnoreParenImpCasts_subExpr (e : Expr) :
  In (IgnoreParenImpCasts e) (subExprs e).
Proof.
  induction e; simpl; auto.
Qed.

(** One round of the loop over the chain of const_casts. *)
Lemma constCastLoop_unfold (getPointee : QualType -> option QualType)
    (expr e : Expr) :
  constCastLoop getPointee expr e
  = match IgnoreParenImpCasts e with
    | CXXConstCastExpr _ _ ccSub as cc =>
        match getPointee (getType expr), getPointee (getType ccSub) with
        | Some target, Some source =>
            match constCastLoop getPointee expr ccSub with
            | Some (reported, final) =>
                Some ((if isAtLeastAsQualifiedAs target source
                       then [ultimatelyDiagnostic expr cc ccSub]
                       else [])
                      ++ reported, final)
            | None => None
            end
        | _, _ => None
        end
    | e' => Some ([], e')
    end.
Proof.
  induction e; simpl; try reflexivity; assumption.
Qed.

(** What the loop reports is at const_casts below the expression it
    starts from, and it stops at an expression below it that is no
    const_cast. *)
Lemma constCastLoop_reports (getPointee : QualType -> option QualType)
    (expr e : Expr) :
  forall reported final,
    constCastLoop getPointee expr e = Some (reported, final) ->
    In final (subExprs e)
    /\ isaCXXConstCastExpr final = false
    /\ forall d, In d reported ->
         diagLevel d = Warning
         /\ diagMessage d = msgConstCastUltimately
         /\ exists c, In c (subExprs e) /\ isaCXXConstCastExpr c = true
                      /\ diagLocation d = getExprLoc c.
Proof.
  induction e; simpl; intros reported final H;
    try (injection H as <- <-;
         split; [now left | split; [reflexivity | intros d []]]).
  - destruct (IHe _ _ H) as (Hf & Hk & Hd).
    split; [now right | split; [exact Hk|]].
    intros d Hin. destruct (Hd d Hin) as (Hw & Hm & c & Hc & Hcc & Hloc).
    split; [exact Hw | split; [exact Hm|]].
    exists c. split; [now right | split; assumption].
  - destruct (IHe _ _ H) as (Hf & Hk & Hd).
    split; [now right | split; [exact Hk|]].
    intros d Hin. destruct (Hd d Hin) as (Hw & Hm & c & Hc & Hcc & Hloc).
    split; [exact Hw | split; [exact Hm|]].
    exists c. split; [now right | split; assumption].
  - destruct (getPointee (getType expr)); [|discriminate].
    destruct (getPointee (getType e)); [|discriminate].
    destruct (constCastLoop getPointee expr e) as [[reported' final']|];
      [|discriminate].
    injection H as <- <-.
    destruct (IHe _ _ eq_refl) as (Hf & Hk & Hd).
    split; [now right | split; [exact Hk|]].
    intros d Hin. apply in_app_iff in Hin as [Hin | Hin].
    + destruct (isAtLeastAsQualifiedAs _ _); [|contradiction].
      destruct Hin as [<- | []].
      split; [reflexivity | split; [reflexivity|]].
      eexists. split; [now left|]. split; reflexivity.
    + destruct (Hd d Hin) as (Hw & Hm & c & Hc & Hcc & Hloc).
      split; [exact Hw | split; [exact Hm|]].
      exists c. split; [now right | split; assumption].
Qed.

(** A const_cast that [VisitCXXConstCastExpr] reports as redundant is not
    reported a second time by [VisitImplicitCastExpr] on a no-op
    conversion of it. *)
Theorem redundant_const_cast_not_reported_twice
    (b cb : ExprBits) (subExpr : Expr) (typeAsWritten : QualType)
    (ccSub : Expr) (d : Diagnostic) :
  IgnoreParenImpCasts subExpr = CXXConstCastExpr cb typeAsWritten ccSub ->
  In d (VisitCXXConstCastExpr ctx (CXXConstCastExpr cb typeAsWritten ccSub)) ->
  diagMessage d = msgConstCast ->
  VisitImplicitCastExpr ctx (ImplicitCastExpr b CK_NoOp subExpr) = Returned [].
Proof.
  intros Hsub Hin Hmsg.
  assert (Hr : isRedundantConstCast (CXXConstCastExpr cb typeAsWritten ccSub)
               = true).
  { revert Hin. unfold VisitCXXConstCastExpr.
    destruct (ignoreLocationStmt ctx _); [intros []|].
    destruct (isRedundantConstCast _); [reflexivity|].
    repeat case_match; intros Hin; simpl in Hin; try contradiction;
      destruct Hin as [<- | []]; discriminate Hmsg. }
  unfold VisitImplicitCastExpr. rewrite Hsub, Hr. simpl.
  repeat case_match; reflexivity.
Qed.

(** Every diagnostic of [VisitImplicitCastExpr] is a warning at the
    expression location of a const_cast, static_cast or reinterpret_cast
    that stands below the implicit cast. *)
Theorem implicit_cast_reports_at_named_casts
    (expr : Expr) (reported : list Diagnostic) (d : Diagnostic) :
  VisitImplicitCastExpr ctx expr = Returned reported ->
  In d reported ->
  diagLevel d = Warning
  /\ exists c, In c (subExprs expr) /\ isNamedCast c = true
               /\ diagLocation d = getExprLoc c.
Proof.
  destruct expr as [| | |b kind subExpr| | | | | | | | | | | | | | |];
    simpl; try (intros [= <-] []).
  destruct (ignoreLocationStmt ctx _); [intros [= <-] []|].
  assert (Hloop : forall getPointee reported' final,
             constCastLoop getPointee (ImplicitCastExpr b kind subExpr) subExpr
             = Some (reported', final) ->
             In d reported' ->
             diagLevel d = Warning
             /\ exists c, In c (subExprs (ImplicitCastExpr b kind subExpr))
                          /\ isNamedCast c = true
                          /\ diagLocation d = getExprLoc c).
  { intros g r f Hl Hin.
    destruct (constCastLoop_reports g _ _ _ _ Hl) as (_ & _ & Hd).
    destruct (Hd d Hin) as (Hw & _ & c & Hc & Hk & Hloc).
    split; [exact Hw|]. exists c. split; [simpl; now right|].
    split; [|exact Hloc]. destruct c; try discriminate Hk. reflexivity. }
  destruct kind; try (intros [= <-] []).
  - (* CK_NoOp *)
    destruct (_ || _); [|intros [= <-] []].
    pose proof (IgnoreParenImpCasts_subExpr subExpr) as Hsub.
    destruct (IgnoreParenImpCasts subExpr); try (intros [= <-] []).
    destruct (negb _); [|intros [= <-] []].
    destruct (_ || _); [|intros [= <-] []].
    intros [= <-] [<- | []]. split; [reflexivity|].
    eexists. split; [right; exact Hsub|]. split; reflexivity.
  - (* CK_BitCast *)
    destruct (_ && _); [|intros [= <-] []].
    destruct (constCastLoop _ _ _) as [[reported' final]|] eqn:Hl;
      [|discriminate].
    intros [= <-] Hin. apply in_app_iff in Hin as [Hin | Hin].
    + exact (Hloop _ _ _ Hl Hin).
    + destruct (constCastLoop_reports _ _ _ _ _ Hl) as (Hf & _ & _).
      destruct final; try contradiction.
      * destruct (_ && _); [|contradiction].
        destruct Hin as [<- | []]. split; [reflexivity|].
        eexists. split; [right; exact Hf|]. split; reflexivity.
      * destruct Hin as [<- | []]. split; [reflexivity|].
        eexists. split; [right; exact Hf|]. split; reflexivity.
  - (* CK_DerivedToBase *)
    destruct (isPointerType _).
    + destruct (constCastLoop _ _ _) as [[reported' final]|] eqn:Hl;
        [|discriminate].
      intros [= <-] Hin. exact (Hloop _ _ _ Hl Hin).
    + destruct (isReferenceType _); [|intros [= <-] []].
      destruct (constCastLoop _ _ _) as [[reported' final]|] eqn:Hl;
        [|discriminate].
      intros [= <-] Hin. exact (Hloop _ _ _ Hl Hin).
  - (* CK_UncheckedDerivedToBase *)
    destruct (isPointerType _).
    + destruct (constCastLoop _ _ _) as [[reported' final]|] eqn:Hl;
        [|discriminate].
      intros [= <-] Hin. exact (Hloop _ _ _ Hl Hin).
    + destruct (isReferenceType _); [|intros [= <-] []].
      destruct (constCastLoop _ _ _) as [[reported' final]|] eqn:Hl;
        [|discriminate].
      intros [= <-] Hin. exact (Hloop _ _ _ Hl Hin).
Qed.

(** A reinterpret_cast, in any number of parentheses and implicit casts,
    whose pointer result is implicitly converted to a void pointer is
    reported, with one warning at the reinterpret_cast. *)
Theorem reinterpret_cast_to_void_pointer_reported
    (b rb : ExprBits) (subExpr : Expr) (typeAsWritten : QualType)
    (rSub : Expr) :
  ignoreLocationStmt ctx (ExprStmt (ImplicitCastExpr b CK_BitCast subExpr))
  = false ->
  isVoidPointer (bitsType b) = true ->
  isPointerType (getType subExpr) = true ->
  IgnoreParenImpCasts subExpr = CXXReinterpretCastExpr rb typeAsWritten rSub ->
  VisitImplicitCastExpr ctx (ImplicitCastExpr b CK_BitCast subExpr)
  = Returned [mkDiagnostic Warning msgReinterpretToVoid (bitsExprLoc rb)
                [ArgRange (bitsLocStart rb, bitsLocEnd rb)]].
Proof.
  intros Hign Hvoid Hptr Hsub. unfold VisitImplicitCastExpr.
  rewrite Hign. unfold getType at 1; simpl. rewrite Hvoid, Hptr. simpl.
  rewrite constCastLoop_unfold, Hsub. reflexivity.
Qed.

(** A static_cast is reported as a redundant static_cast from a void
    pointer only where its operand, without parentheses and implicit casts,
    has a void pointer type and its start location is no macro-body
    expansion. *)
Theorem static_cast_from_void_pointer_report
    (expr : Expr) (reported : list Diagnostic) (d : Diagnostic) :
  VisitImplicitCastExpr ctx expr = Returned reported ->
  In d reported ->
  diagMessage d = msgStaticFromVoid ->
  exists sb typeAsWritten s,
    In (CXXStaticCastExpr sb typeAsWritten s) (subExprs expr)
    /\ diagLocation d = bitsExprLoc sb
    /\ isMacroBodyExpansion (bitsLocStart sb) = false
    /\ isVoidPointer (getType (IgnoreParenImpCasts s)) = true.
Proof.
  destruct expr as [| | |b kind subExpr| | | | | | | | | | | | | | |];
    simpl; try (intros [= <-] []).
  destruct (ignoreLocationStmt ctx _); [intros [= <-] []|].
  assert (Hloop : forall getPointee reported' final,
             constCastLoop getPointee (ImplicitCastExpr b kind subExpr) subExpr
             = Some (reported', final) ->
             In d reported' -> diagMessage d <> msgStaticFromVoid).
  { intros g r f Hl Hin.
    destruct (constCastLoop_reports g _ _ _ _ Hl) as (_ & _ & Hd).
    destruct (Hd d Hin) as (_ & -> & _). discriminate. }
  destruct kind; try (intros [= <-] []).
  - destruct (_ || _); [|intros [= <-] []].
    destruct (IgnoreParenImpCasts subExpr); try (intros [= <-] []).
    destruct (negb _); [|intros [= <-] []].
    destruct (_ || _); [|intros [= <-] []].
    intros [= <-] [<- | []]. discriminate.
  - destruct (_ && _); [|intros [= <-] []].
    destruct (constCastLoop _ _ _) as [[reported' final]|] eqn:Hl;
      [|discriminate].
    intros [= <-] Hin Hmsg. apply in_app_iff in Hin as [Hin | Hin].
    + exfalso. exact (Hloop _ _ _ Hl Hin Hmsg).
    + destruct (constCastLoop_reports _ _ _ _ _ Hl) as (Hf & _ & _).
      destruct final; try contradiction.
      * destruct (isVoidPointer _) eqn:Hv; simpl in Hin; [|contradiction].
        destruct (isMacroBodyExpansion _) eqn:Hm; simpl in Hin;
          [contradiction|].
        destruct Hin as [<- | []].
        eexists _, _, _. split; [right; exact Hf|].
        split; [reflexivity|]. split; [exact Hm | exact Hv].
      * destruct Hin as [<- | []]. discriminate Hmsg.
  - destruct (isPointerType _).
    + destruct (constCastLoop _ _ _) as [[reported' final]|] eqn:Hl;
        [|discriminate].
      intros [= <-] Hin Hmsg. exfalso. exact (Hloop _ _ _ Hl Hin Hmsg).
    + destruct (isReferenceType _); [|intros [= <-] []].
      destruct (constCastLoop _ _ _) as [[reported' final]|] eqn:Hl;
        [|discriminate].
      intros [= <-] Hin Hmsg. exfalso. exact (Hloop _ _ _ Hl Hin Hmsg).
  - destruct (isPointerType _).
    + destruct (constCastLoop _ _ _) as [[reported' final]|] eqn:Hl;
        [|discriminate].
      intros [= <-] Hin Hmsg. exfalso. exact (Hloop _ _ _ Hl Hin Hmsg).
    + destruct (isReferenceType _); [|intros [= <-] []].
      destruct (constCastLoop _ _ _) as [[reported' final]|] eqn:Hl;
        [|discriminate].
      intros [= <-] Hin Hmsg. exfalso. exact (Hloop _ _ _ Hl Hin Hmsg).
Qed.

(** A reinterpret_cast from a void pointer to a pointer to an object type,
    not at an ignored location, is either rewritten or reported, never
    both and never neither; without a rewriter it is reported. *)
Theorem reinterpret_cast_rewritten_or_reported
    (b : ExprBits) (typeAsWritten : QualType) (subExpr : Expr)
    (pointee : QualType) :
  ignoreLocationStmt ctx
    (ExprStmt (CXXReinterpretCastExpr b typeAsWritten subExpr)) = false ->
  isVoidPointerType (getType subExpr) = true ->
  getPointeeType (bitsType b) = Some pointee ->
  isObjectType pointee = true ->
  (length (fst (VisitCXXReinterpretCastExpr ctx rewriter
                  (CXXReinterpretCastExpr b typeAsWritten subExpr)))
   + length (snd (VisitCXXReinterpretCastExpr ctx rewriter
                    (CXXReinterpretCastExpr b typeAsWritten subExpr)))
   = 1)%nat
  /\ (rewriter = None
      -> VisitCXXReinterpretCastExpr ctx rewriter
           (CXXReinterpretCastExpr b typeAsWritten subExpr)
         = ([mkDiagnostic Warning msgReinterpretSimplify (bitsExprLoc b)
               [ArgType (getType (getSubExprAsWritten subExpr));
                ArgType (bitsType b);
                ArgRange (bitsLocStart b, bitsLocEnd b)]], [])).
Proof.
  intros Hign Hvoid Hpointee Hobj. unfold VisitCXXReinterpretCastExpr.
  rewrite Hign, Hvoid.
  change (getType (CXXReinterpretCastExpr b typeAsWritten subExpr))
    with (bitsType b).
  rewrite Hpointee, Hobj. simpl. split.
  - destruct rewriter as [rw|]; [|reflexivity].
    destruct (_ && _); reflexivity.
  - intros ->. reflexivity.
Qed.

(** Every replacement [VisitCXXReinterpretCastExpr] makes is that of a
    token [reinterpret_cast], in its full length, by [static_cast], made by
    the rewriter with success, on a cast from a void pointer; and no
    diagnostic is reported beside it. *)
Theorem reinterpret_cast_only_token_rewritten
    (expr : Expr) (ed : Edit) :
  In ed (snd (VisitCXXReinterpretCastExpr ctx rewriter expr)) ->
  exists rw b typeAsWritten subExpr,
    rewriter = Some rw
    /\ expr = CXXReinterpretCastExpr b typeAsWritten subExpr
    /\ isVoidPointerType (getType subExpr) = true
    /\ editLocation ed = rewriteLocation expr
    /\ tokenAt rw (editLocation ed) = "reinterpret_cast"%string
    /\ editLength ed = 16%nat
    /\ editText ed = "static_cast"%string
    /\ replaceText rw (editLocation ed) 16 "static_cast" = true
    /\ VisitCXXReinterpretCastExpr ctx rewriter expr = ([], [ed]).
Proof.
  destruct expr as [| | | | | | | |b typeAsWritten subExpr| | | | | | | | | |];
    simpl; try contradiction.
  destruct (ignoreLocationStmt ctx _); [simpl; intros []|].
  destruct (isVoidPointerType (getType subExpr)) eqn:Hvoid.
  - destruct (getPointeeType _); [|simpl; intros []].
    destruct (negb _); [simpl; intros []|].
    destruct rewriter as [rw|]; [|simpl; intros []].
    destruct (bool_decide _) eqn:Htok; simpl; [|simpl; intros []].
    apply bool_decide_eq_true in Htok.
    destruct (replaceText rw _ _ _) eqn:Hrep; simpl; [|simpl; intros []].
    intros [<- | []]. simpl.
    rewrite Htok in *. simpl in *.
    exists rw, b, typeAsWritten, subExpr. repeat split; auto.
  - destruct (isVoidPointerType
                (getType (CXXReinterpretCastExpr b typeAsWritten subExpr)));
      [|simpl; intros []].
    destruct (getPointeeType _); [|simpl; intros []].
    destruct (negb _); simpl; intros [].
Qed.

Lemma variadicArgumentReport_length (expr a : Expr) :
  (length (variadicArgumentReport expr a) <= 1)%nat.
Proof. unfold variadicArgumentReport. repeat case_match; simpl; lia. Qed.

Lemma flat_map_variadicArgumentReport_length (expr : Expr) (l : list Expr) :
  (length (List.flat_map (variadicArgumentReport expr) l) <= length l)%nat.
Proof.
  induction l as [|a l IHl]; simpl; [lia|].
  rewrite length_app.
  pose proof (variadicArgumentReport_length expr a). lia.
Qed.

Lemma skipn_length_app {A : Type} (l1 l2 : list A) :
  skipn (length l1) (l1 ++ l2) = l2.
Proof. induction l1 as [|x l1 IH]; simpl; [reflexivity | exact IH]. Qed.

(** A diagnostic of [VisitCallExpr] is the warning at a const_cast that
    stands, under parentheses and implicit casts, as a pointer in the
    argument list of a call of a variadic function, at position
    [getNumParams()] or beyond; there are no more diagnostics than such
    positions, and none where there is no direct callee.  In a call that is
    no operator call these are the arguments beyond the named parameters.
    In a call of a variadic [operator()], whose argument list starts with
    the object, they are the argument of the last named parameter and the
    arguments beyond. *)
Theorem variadic_argument_reports (expr : Expr) :
  (forall d, In d (VisitCallExpr ctx functionInfo operatorDecl expr) ->
     exists f a cb typeAsWritten ccSub,
       getDirectCallee (getCalleeDecl operatorDecl expr) = Some f
       /\ isVariadic (functionInfo f) = true
       /\ In a (skipn (getNumParams (functionInfo f)) (getArgs expr))
       /\ isPointerType (getType a) = true
       /\ IgnoreParenImpCasts a = CXXConstCastExpr cb typeAsWritten ccSub
       /\ d = mkDiagnostic Warning msgVariadic (bitsExprLoc cb)
                [ArgRange (getSourceRange expr)])
  /\ (forall f, getDirectCallee (getCalleeDecl operatorDecl expr) = Some f ->
        (length (VisitCallExpr ctx functionInfo operatorDecl expr)
         <= length (getArgs expr) - getNumParams (functionInfo f))%nat)
  /\ (getDirectCallee (getCalleeDecl operatorDecl expr) = None
      -> VisitCallExpr ctx functionInfo operatorDecl expr = [])
  /\ (forall b callee named extra f,
        expr = CallExpr b callee (named ++ extra) ->
        getDirectCallee callee = Some f ->
        length named = getNumParams (functionInfo f) ->
        VisitCallExpr ctx functionInfo operatorDecl expr
        = if ignoreLocationStmt ctx (ExprStmt expr)
             || negb (isVariadic (functionInfo f))
          then []
          else List.flat_map (variadicArgumentReport expr) extra)
  /\ (forall b object named last extra f,
        expr = CXXOperatorCallExpr b OO_Call
                 (object :: named ++ last :: extra) ->
        getDirectCallee (operatorDecl expr) = Some f ->
        length (named ++ [last]) = getNumParams (functionInfo f) ->
        VisitCallExpr ctx functionInfo operatorDecl expr
        = if ignoreLocationStmt ctx (ExprStmt expr)
             || negb (isVariadic (functionInfo f))
          then []
          else variadicArgumentReport expr last
               ++ List.flat_map (variadicArgumentReport expr) extra).
Proof.
  split; [|split; [|split; [|split]]].
  - intros d. unfold VisitCallExpr.
    assert (Hcall : forall args,
               getArgs expr = args ->
               In d (if ignoreLocationStmt ctx (ExprStmt expr) then []
                     else
                       match getDirectCallee (getCalleeDecl operatorDecl expr)
                       with
                       | None => []
                       | Some f =>
                           if negb (isVariadic (functionInfo f))
                              || (length (getArgs expr)
                                  <=? getNumParams (functionInfo f))%nat
                           then []
                           else
                             List.flat_map (variadicArgumentReport expr)
                               (skipn (getNumParams (functionInfo f))
                                  (getArgs expr))
                       end) ->
               exists f a cb typeAsWritten ccSub,
                 getDirectCallee (getCalleeDecl operatorDecl expr) = Some f
                 /\ isVariadic (functionInfo f) = true
                 /\ In a (skipn (getNumParams (functionInfo f)) (getArgs expr))
                 /\ isPointerType (getType a) = true
                 /\ IgnoreParenImpCasts a
                    = CXXConstCastExpr cb typeAsWritten ccSub
                 /\ d = mkDiagnostic Warning msgVariadic (bitsExprLoc cb)
                          [ArgRange (getSourceRange expr)]).
    { intros args _.
      destruct (ignoreLocationStmt ctx _); [intros []|].
      destruct (getDirectCallee _) as [f|]; [|intros []].
      destruct (isVariadic (functionInfo f)) eqn:Hvar; simpl; [|intros []].
      destruct (_ <=? _)%nat; [intros []|].
      intros Hin. apply in_flat_map in Hin as (a & Ha & Hd).
      unfold variadicArgumentReport in Hd.
      destruct (isPointerType (getType a)) eqn:Hp; [|contradiction].
      destruct (IgnoreParenImpCasts a) eqn:He; try contradiction.
      destruct Hd as [<- | []].
      exists f, a, b, typeAsWritten, e. repeat split; auto. }
    destruct expr; try (intros []); exact (Hcall _ eq_refl).
  - intros f Hf. unfold VisitCallExpr.
    destruct expr; cbn beta iota; try (simpl; lia);
      (destruct (ignoreLocationStmt ctx _); [simpl; lia|]);
      rewrite Hf;
      (destruct (negb _ || _); [simpl; lia|]);
      rewrite <- length_skipn;
      apply flat_map_variadicArgumentReport_length.
  - intros Hnone. unfold VisitCallExpr.
    destruct expr; try reflexivity;
      (destruct (ignoreLocationStmt ctx _); [reflexivity|]);
      now rewrite Hnone.
  - intros b callee named extra f -> Hf Hn. unfold VisitCallExpr.
    destruct (ignoreLocationStmt ctx _); [reflexivity|].
    simpl. rewrite Hf.
    destruct (isVariadic (functionInfo f)); simpl; [|reflexivity].
    rewrite <- Hn, skipn_length_app, length_app.
    destruct extra as [|x extra].
    + simpl. rewrite Nat.add_0_r, Nat.leb_refl. reflexivity.
    + replace (_ <=? _)%nat with false; [reflexivity|].
      symmetry. apply Nat.leb_gt. simpl. lia.
  - intros b object named last extra f -> Hf Hn. unfold VisitCallExpr.
    destruct (ignoreLocationStmt ctx _); [reflexivity|].
    change (getCalleeDecl operatorDecl
              (CXXOperatorCallExpr b OO_Call (object :: named ++ last :: extra)))
      with (operatorDecl
              (CXXOperatorCallExpr b OO_Call (object :: named ++ last :: extra))).
    rewrite Hf.
    destruct (isVariadic (functionInfo f)); simpl; [|reflexivity].
    rewrite <- Hn, length_app. simpl. rewrite Nat.add_1_r. simpl.
    replace (_ <=? _)%nat with false
      by (symmetry; apply Nat.leb_gt; rewrite length_app; simpl; lia).
    now rewrite skipn_length_app.
Qed.

(** The callbacks for the binary operators report only on the seven
    opcodes of pointer comparison and subtraction, only where both
    operands have pointer type, at a const_cast that is one of the
    operands, and at most twice. *)
Theorem pointer_comparison_reports (expr : Expr) :
  (forall d, In d (VisitBin ctx expr) ->
     exists b opc operatorLoc lhs rhs operand cb typeAsWritten ccSub,
       expr = BinaryOperator b opc operatorLoc lhs rhs
       /\ In opc [BO_Sub; BO_LT; BO_GT; BO_LE; BO_GE; BO_EQ; BO_NE]
       /\ isPointerType (getType lhs) = true
       /\ isPointerType (getType rhs) = true
       /\ (operand = lhs \/ operand = rhs)
       /\ IgnoreParenImpCasts operand = CXXConstCastExpr cb typeAsWritten ccSub
       /\ diagLocation d = bitsExprLoc cb)
  /\ (length (VisitBin ctx expr) <= 2)%nat.
Proof.
  destruct expr as [| | | | | | | | |b opc operatorLoc lhs rhs| | | | | | | | |];
    try (split; [intros d [] | simpl; lia]).
  assert (Hop : forall msg operand d,
             In d (operandReport msg (BinaryOperator b opc operatorLoc lhs rhs)
                     operand opc) ->
             exists cb typeAsWritten ccSub,
               IgnoreParenImpCasts operand
               = CXXConstCastExpr cb typeAsWritten ccSub
               /\ diagLocation d = bitsExprLoc cb).
  { intros msg operand d. unfold operandReport.
    destruct (IgnoreParenImpCasts operand);
      try (intros Hf; exact (False_ind _ Hf)).
    intros [<- | []]. eauto. }
  assert (Hlen : forall msg operand,
             (length (operandReport msg
                        (BinaryOperator b opc operatorLoc lhs rhs) operand opc)
              <= 1)%nat).
  { intros msg operand. unfold operandReport.
    destruct (IgnoreParenImpCasts operand); simpl; lia. }
  assert (Hvisit :
            (forall d, In d (visitBinOp ctx
                               (BinaryOperator b opc operatorLoc lhs rhs)) ->
               exists operand cb typeAsWritten ccSub,
                 isPointerType (getType lhs) = true
                 /\ isPointerType (getType rhs) = true
                 /\ (operand = lhs \/ operand = rhs)
                 /\ IgnoreParenImpCasts operand
                    = CXXConstCastExpr cb typeAsWritten ccSub
                 /\ diagLocation d = bitsExprLoc cb)
            /\ (length (visitBinOp ctx
                          (BinaryOperator b opc operatorLoc lhs rhs)) <= 2)%nat).
  { unfold visitBinOp.
    destruct (ignoreLocationStmt ctx _); [split; [intros d [] | simpl; lia]|].
    destruct (isPointerType (getType lhs)) eqn:Hl; simpl;
      [|split; [intros d [] | simpl; lia]].
    destruct (isPointerType (getType rhs)) eqn:Hr; simpl;
      [|split; [intros d [] | simpl; lia]].
    split.
    - intros d Hin. apply in_app_iff in Hin as [Hin | Hin];
        destruct (Hop _ _ _ Hin) as (cb & tw & s & He & Hloc).
      + exists lhs, cb, tw, s. repeat split; auto.
      + exists rhs, cb, tw, s. repeat split; auto.
    - rewrite length_app.
      pose proof (Hlen msgLhs lhs). pose proof (Hlen msgRhs rhs). lia. }
  destruct Hvisit as [Hd Hl].
  unfold VisitBin.
  destruct opc; try (split; [intros d [] | simpl; lia]);
    (split; [|exact Hl]);
    intros d Hin; destruct (Hd d Hin) as (o & cb & tw & s & H1 & H2 & H3 & H4 & H5);
    eexists b, _, operatorLoc, lhs, rhs, o, cb, tw, s;
    (split; [reflexivity|]); (split; [simpl; tauto|]); auto.
Qed.

(** A delete expression is reported exactly when it is not at an ignored
    location and its argument, without parentheses and implicit casts, is
    a const_cast; it then gets one warning, at the const_cast. *)
Theorem delete_of_const_cast_reported (expr : CXXDeleteExpr) :
  (VisitCXXDeleteExpr ctx expr <> []
   <-> ignoreLocationStmt ctx (deleteStmt expr) = false
       /\ isaCXXConstCastExpr (IgnoreParenImpCasts (getArgument expr)) = true)
  /\ atMostOneWarningAt (getExprLoc (IgnoreParenImpCasts (getArgument expr)))
       (VisitCXXDeleteExpr ctx expr).
Proof.
  unfold VisitCXXDeleteExpr, atMostOneWarningAt.
  destruct (ignoreLocationStmt ctx _).
  { split; [|now left]. split; [congruence | intros [? _]; discriminate]. }
  destruct (IgnoreParenImpCasts (getArgument expr)); simpl;
    (split; [split; [try congruence; auto | try discriminate;
                                             intros [_ ?]; discriminate]
            | first [now left | right; eauto]]).
Qed.

End Surroundings.

(** ** The fat-parameter pass *)

Section FatParameters.
Context (ctx : PluginContext).

Import PassParamsByRef Spec.

Lemma below_declref_only_wrappers (sub e : Expr) :
  isaDeclRefExpr (IgnoreParenImpCasts sub) = true ->
  In e (subExprs sub) ->
  isParenCastOrDeclRef e = true.
Proof.
  induction sub; simpl; intros Hd Hin; try discriminate Hd;
    destruct Hin as [<- | Hin]; try reflexivity; try contradiction; auto.
Qed.

Ltac below_by IH :=
  match goal with
  | H : In ?e (traversedExprs _ ?x) |- In ?e (subExprs ?x) => exact (IH x e H)
  end.

Ltac each_below Hin IH :=
  revert Hin; apply in_flat_map_mono;
  match goal with
  | |- Forall _ ?l =>
      let x := fresh "x" in
      let l' := fresh "l" in
      let IHl := fresh "IHl" in
      let H := fresh "H" in
      induction l as [|x l' IHl]; constructor;
      [intros H; below_by IH | exact IHl]
  end.

(** The traversal walks up from expressions of the tree only. *)
Lemma traversedExprs_below :
  forall root e : Expr, In e (traversedExprs ctx root) -> In e (subExprs root).
Proof.
  fix IH 1. intros root e.
  destruct root; simpl; intros Hin;
    try (destruct Hin as [<- | Hin]; [now left | right]);
    try contradiction;
    repeat rewrite in_app_iff in *;
    try below_by IH;
    try (destruct Hin as [Hin | Hin];
         [left; below_by IH
         | first [right; below_by IH
                 | destruct Hin as [Hin | Hin];
                   [right; left; below_by IH | right; right; below_by IH]]]).
  - (* ImplicitCastExpr *)
    destruct (ignoreLocationStmt ctx _); [contradiction|].
    destruct (_ && _); [contradiction|].
    destruct Hin as [<- | Hin]; [now left | right]. below_by IH.
  - each_below Hin IH.
  - each_below Hin IH.
  - each_below Hin IH.
  - each_below Hin IH.
  - each_below Hin IH.
Qed.

Ltac above_by IH Ha :=
  match goal with
  | H : In ?e (subExprs ?x) |- In ?e (traversedExprs _ ?x) =>
      exact (IH x e H Ha)
  end.

Ltac each_above Hin IH Ha :=
  revert Hin; apply in_flat_map_mono;
  match goal with
  | |- Forall _ ?l =>
      let x := fresh "x" in
      let l' := fresh "l" in
      let IHl := fresh "IHl" in
      let H := fresh "H" in
      induction l as [|x l' IHl]; constructor;
      [intros H; above_by IH Ha | exact IHl]
  end.

(** Where no statement is at an ignored location, the traversal walks up
    from every expression of the tree but parenthesized expressions,
    implicit casts and references to declarations. *)
Lemma traversedExprs_all_but_wrappers :
  (forall s, ignoreLocationStmt ctx s = false) ->
  forall root e : Expr,
    In e (subExprs root) -> isParenCastOrDeclRef e = false ->
    In e (traversedExprs ctx root).
Proof.
  intros Hign. fix IH 1. intros root e.
  destruct root; simpl; intros Hin Ha;
    try (destruct Hin as [<- | Hin]; [now left | right]);
    try contradiction;
    repeat rewrite in_app_iff in *;
    try above_by IH Ha;
    try (destruct Hin as [Hin | Hin];
         [left; above_by IH Ha
         | first [right; above_by IH Ha
                 | destruct Hin as [Hin | Hin];
                   [right; left; above_by IH Ha
                   | right; right; above_by IH Ha]]]).
  - (* ImplicitCastExpr *)
    rewrite Hign.
    destruct (bool_decide (kind = CK_LValueToRValue)
              && isaDeclRefExpr (IgnoreParenImpCasts root)) eqn:Hprune.
    + exfalso. apply andb_true_iff in Hprune as [_ Hd].
      destruct Hin as [<- | Hin]; [discriminate Ha|].
      rewrite (below_declref_only_wrappers root e Hd Hin) in Ha.
      discriminate Ha.
    + destruct Hin as [<- | Hin]; [now left | right].
      above_by IH Ha.
  - each_above Hin IH Ha.
  - each_above Hin IH Ha.
  - each_above Hin IH Ha.
  - each_above Hin IH Ha.
  - each_above Hin IH Ha.
Qed.

Lemma traversedStmt_below :
  forall (root : Stmt) (e : Expr),
    In e (traversedStmt ctx root) -> In e (exprsOfStmt root).
Proof.
  fix IH 1. intros root e.
  destruct root as [e0 | body | inits0 | children | children]; simpl.
  - apply traversedExprs_below.
  - apply in_flat_map_mono.
    induction body as [|x l IHl]; constructor; [|exact IHl].
    intros Hx. exact (IH x e Hx).
  - apply in_flat_map_mono.
    induction inits0 as [|x l IHl]; constructor; [|exact IHl].
    apply traversedExprs_below.
  - apply in_flat_map_mono.
    induction children as [|x l IHl]; constructor; [|exact IHl].
    intros Hx. exact (IH x e Hx).
  - apply in_flat_map_mono.
    induction children as [|x l IHl]; constructor; [|exact IHl].
    intros Hx. exact (IH x e Hx).
Qed.

Lemma traversedStmt_all_but_wrappers :
  (forall s, ignoreLocationStmt ctx s = false) ->
  forall (root : Stmt) (e : Expr),
    In e (exprsOfStmt root) -> isParenCastOrDeclRef e = false ->
    In e (traversedStmt ctx root).
Proof.
  intros Hign. fix IH 1. intros root e.
  destruct root as [e0 | body | inits0 | children | children]; simpl;
    intros Hin Ha.
  - now apply traversedExprs_all_but_wrappers.
  - revert Hin. apply in_flat_map_mono.
    induction body as [|x l IHl]; constructor; [|exact IHl].
    intros Hx. exact (IH x e Hx Ha).
  - revert Hin. apply in_flat_map_mono.
    induction inits0 as [|x l IHl]; constructor; [|exact IHl].
    intros Hx. now apply traversedExprs_all_but_wrappers.
  - revert Hin. apply in_flat_map_mono.
    induction children as [|x l IHl]; constructor; [|exact IHl].
    intros Hx. exact (IH x e Hx Ha).
  - revert Hin. apply in_flat_map_mono.
    induction children as [|x l IHl]; constructor; [|exact IHl].
    intros Hx. exact (IH x e Hx Ha).
Qed.

Lemma traversedFunction_below (f : FunctionDecl) (e : Expr) :
  In e (traversedFunction ctx f) -> In e (exprsOfFunction f).
Proof.
  unfold traversedFunction, exprsOfFunction. rewrite !in_app_iff.
  intros [Hin | Hin]; [left | right].
  - revert Hin. apply in_flat_map_mono.
    induction (inits f) as [|x l IHl]; constructor; [|exact IHl].
    apply traversedExprs_below.
  - destruct (getBody f) as [body|]; [|contradiction].
    now apply traversedStmt_below.
Qed.

(** The traversal of a function by the fat-parameter pass walks up from
    expressions of the function only, and, where no statement is at an
    ignored location, from every expression of the member initializers and
    of the body but parenthesized expressions, implicit casts and
    references to declarations: what [TraverseImplicitCastExpr] cuts off
    holds no other expression. *)
Theorem traversal_leaves_out_only_wrappers (f : FunctionDecl) (e : Expr) :
  (In e (traversedFunction ctx f) -> In e (exprsOfFunction f))
  /\ ((forall s, ignoreLocationStmt ctx s = false) ->
      In e (exprsOfFunction f) -> isParenCastOrDeclRef e = false ->
      In e (traversedFunction ctx f)).
Proof.
  split; [apply traversedFunction_below|].
  intros Hign Hin Ha. unfold traversedFunction, exprsOfFunction in *.
  rewrite in_app_iff in *. destruct Hin as [Hin | Hin]; [left | right].
  - revert Hin. apply in_flat_map_mono.
    induction (inits f) as [|x l IHl]; constructor; [|exact IHl].
    intros Hx. now apply traversedExprs_all_but_wrappers.
  - destruct (getBody f) as [body|]; [|contradiction].
    now apply traversedStmt_all_but_wrappers.
Qed.

(** What a callback adds to the Exclusion Set is a parameter assigned to
    by the expression it is called on. *)
Lemma WalkUpFrom_adds (s : State) (e : Expr) (x : positive) :
  x ∈ mParamExclusions (WalkUpFrom s e) ->
  x ∈ mParamExclusions s
  \/ exists p, assignsTo e p /\ parmId p = x.
Proof.
  unfold WalkUpFrom, VisitBinAssign, VisitCXXOperatorCallExpr, assignsTo.
  destruct e as [| | | | | | | | |b opc operatorLoc lhs rhs| | | |b op args
                | | | | |]; try (intros Hx; left; exact Hx).
  - destruct opc; try (intros Hx; left; exact Hx).
    destruct (negb _); try (intros Hx; left; exact Hx).
    destruct lhs as [b' [p|]| | | | | | | | | | | | | | | | | |];
      try (intros Hx; left; exact Hx).
    simpl. intros [Hx | Hx]%elem_of_union; [|left; exact Hx].
    apply elem_of_singleton in Hx as ->.
    right. exists p. split; [|reflexivity]. left. eauto.
  - destruct (negb (mbInsideFunctionDecl s)); try (intros Hx; left; exact Hx).
    destruct (isAssignmentLikeOperator op) eqn:Hop; simpl;
      try (intros Hx; left; exact Hx).
    destruct args as [|[b' [p|]| | | | | | | | | | | | | | | | | |] args];
      try (intros Hx; left; exact Hx).
    simpl. intros [Hx | Hx]%elem_of_union; [|left; exact Hx].
    apply elem_of_singleton in Hx as ->.
    right. exists p. split; [|reflexivity]. right.
    exists b, op, b', args. split; [reflexivity|].
    destruct op; try discriminate Hop; simpl; auto 7.
Qed.

Lemma fold_WalkUpFrom_adds (l : list Expr) (s : State) (x : positive) :
  x ∈ mParamExclusions (fold_left WalkUpFrom l s) ->
  x ∈ mParamExclusions s
  \/ exists e p, In e l /\ assignsTo e p /\ parmId p = x.
Proof.
  revert s. induction l as [|e l IH]; intros s; simpl; [auto|].
  intros Hx. destruct (IH _ Hx) as [Hs | (e' & p & Hin & Ha & Hid)].
  - destruct (WalkUpFrom_adds _ _ _ Hs) as [Hs' | (p & Ha & Hid)]; [auto|].
    right. exists e, p. auto.
  - right. exists e', p. auto.
Qed.

Lemma excluded_only_if_assigned_aux
    (f : FunctionDecl) (s : State) (x : positive) :
  isTraversed ctx f = true ->
  x ∈ mParamExclusions (fst (TraverseFunctionDecl ctx f s)) ->
  exists e p,
    In e (traversedFunction ctx f) /\ assignsTo e p /\ parmId p = x.
Proof.
  intros Htr. rewrite (TraverseFunctionDecl_traversed ctx f s Htr). simpl.
  unfold RecursiveASTVisitor_TraverseFunctionDecl. intros Hx.
  destruct (fold_WalkUpFrom_adds _ _ _ Hx) as [Hs | (e & p & Hin & Ha & Hid)].
  - simpl in Hs. now apply not_elem_of_empty in Hs.
  - exists e, p. auto.
Qed.

(** After the traversal of a function the Exclusion Set holds only
    parameters that an expression of the function assigns to: as the left
    operand of a plain assignment, or as the first operand of a call of an
    overloaded =, +=, -=, *= or /=. *)
Theorem excluded_only_if_assigned
    (f : FunctionDecl) (s : State) (x : positive) :
  isTraversed ctx f = true ->
  x ∈ mParamExclusions (fst (TraverseFunctionDecl ctx f s)) ->
  exists e p,
    In e (exprsOfFunction f) /\ In e (traversedFunction ctx f)
    /\ assignsTo e p /\ parmId p = x.
Proof.
  intros Htr Hx.
  destruct (excluded_only_if_assigned_aux f s x Htr Hx)
    as (e & p & Hin & Ha & Hid).
  exists e, p. repeat split; auto. now apply traversedFunction_below.
Qed.

(** A parameter of fat type of a traversed function is flagged, with the
    warning at its declaration, when no expression the traversal walks up
    from assigns to a parameter of its identity and no member initializer
    is a construction from a call of [std::move]. *)
Theorem unassigned_fat_parameter_flagged
    (f : FunctionDecl) (s : State) (p : ParmVarDecl) :
  isTraversed ctx f = true ->
  In p (parameters f) ->
  isFat ctx (parmType p) = true ->
  bFoundMove f = false ->
  (forall e q, In e (traversedFunction ctx f) -> assignsTo e q ->
     parmId q <> parmId p) ->
  In (passByValueWarning p) (snd (TraverseFunctionDecl ctx f s)).
Proof.
  intros Htr Hp Hfat Hmove Hnone.
  assert (Hnot : parmId p ∉ mParamExclusions (fst (TraverseFunctionDecl ctx f s))).
  { intros Hx.
    destruct (excluded_only_if_assigned_aux f s (parmId p) Htr Hx)
      as (e & q & Hin & Ha & Hid).
    exact (Hnone e q Hin Ha Hid). }
  rewrite (TraverseFunctionDecl_traversed ctx f s Htr) in *. simpl in *.
  apply in_flat_map. exists p. split; [exact Hp|].
  unfold checkParam. rewrite Hfat, Hmove. simpl.
  rewrite bool_decide_eq_false_2 by exact Hnot. now left.
Qed.



(** A function none of whose parameters has a record type (scalars,
    pointers, references) gets no diagnostic. *)
Theorem no_record_parameter_no_report (f : FunctionDecl) (s : State) :
  Forall (fun p => isRecordType (parmType p) = false) (parameters f) ->
  snd (TraverseFunctionDecl ctx f s) = [].
Proof.
  intros Hall. rewrite (TraverseFunctionDecl_from_any_state ctx f s).
  destruct (isTraversed ctx f) eqn:Htr; [|reflexivity].
  rewrite (TraverseFunctionDecl_traversed ctx f _ Htr). simpl.
  induction Hall as [|p l Hp _ IH]; simpl; [reflexivity|].
  rewrite IH, app_nil_r. unfold checkParam.
  now rewrite isFat_unfold, Hp.
Qed.

Lemma TraverseDecls_flag (decls : list FunctionDecl)
    (s : State) (reported : list Diagnostic) :
  mbInsideFunctionDecl s = false ->
  mbInsideFunctionDecl
    (fst (fold_left
            (fun acc functionDecl =>
               let '(s', reported') :=
                 TraverseFunctionDecl ctx functionDecl (fst acc) in
               (s', snd acc ++ reported'))
            decls (s, reported))) = false.
Proof.
  revert s reported.
  induction decls as [|f decls IH]; intros s reported Hs; simpl; [exact Hs|].
  destruct (TraverseFunctionDecl ctx f s) as [s' reported'] eqn:Hf.
  apply IH. simpl.
  rewrite (TraverseFunctionDecl_from_any_state ctx f s) in Hf.
  destruct (isTraversed ctx f) eqn:Htr.
  - rewrite (TraverseFunctionDecl_traversed ctx f _ Htr) in Hf.
    now injection Hf as <- _.
  - now injection Hf as <- _.
Qed.

(** Between the functions of a run the visitor is outside of every
    function: [mbInsideFunctionDecl] is unset after any number of
    functions, and there the two callbacks leave the state as it is. *)
Theorem callbacks_idle_between_functions
    (decls : list FunctionDecl) (e : Expr) :
  mbInsideFunctionDecl (fst (TraverseDecls ctx decls initialState)) = false
  /\ VisitBinAssign e (fst (TraverseDecls ctx decls initialState))
     = fst (TraverseDecls ctx decls initialState)
  /\ VisitCXXOperatorCallExpr e (fst (TraverseDecls ctx decls initialState))
     = fst (TraverseDecls ctx decls initialState).
Proof.
  assert (Hflag : mbInsideFunctionDecl
                    (fst (TraverseDecls ctx decls initialState)) = false).
  { unfold TraverseDecls. now apply TraverseDecls_flag. }
  split; [exact Hflag|].
  unfold VisitBinAssign, VisitCXXOperatorCallExpr. now rewrite Hflag.
Qed.

Lemma WalkUpFrom_idle (s : State) (e : Expr) :
  mbInsideFunctionDecl s = false -> WalkUpFrom s e = s.
Proof.
  intros Hs. unfold WalkUpFrom, VisitBinAssign, VisitCXXOperatorCallExpr.
  rewrite Hs. simpl. now repeat case_match.
Qed.

Lemma fold_WalkUpFrom_idle (l : list Expr) (s : State) :
  mbInsideFunctionDecl s = false -> fold_left WalkUpFrom l s = s.
Proof.
  intros Hs. induction l as [|e l IH]; simpl; [reflexivity|].
  now rewrite (WalkUpFrom_idle s e Hs).
Qed.

Lemma TraverseDecl_outside (decl : FunctionDecl) (s : State) :
  mbInsideFunctionDecl s = false ->
  mbInsideFunctionDecl (fst (TraverseDecl ctx decl s)) = false
  /\ snd (TraverseDecl ctx decl s)
     = if isPlainFunction decl
       then snd (TraverseFunctionDecl ctx decl initialState)
       else [].
Proof.
  intros Hs. unfold TraverseDecl, isPlainFunction, isCXXMethodDecl.
  destruct (functionKind decl); simpl;
    try (unfold RecursiveASTVisitor_TraverseFunctionDecl;
         rewrite (fold_WalkUpFrom_idle _ s Hs); split; [exact Hs | reflexivity]).
  split; [|apply TraverseFunctionDecl_reports_from_any_state].
  rewrite (TraverseFunctionDecl_from_any_state ctx decl s).
  destruct (isTraversed ctx decl) eqn:Htr; [|exact Hs].
  now rewrite (TraverseFunctionDecl_traversed ctx decl _ Htr).
Qed.

Lemma run_fold (translationUnit : list FunctionDecl) (s : State)
    (reported : list Diagnostic) :
  mbInsideFunctionDecl s = false ->
  snd (fold_left
         (fun acc decl =>
            let '(s', reported') := TraverseDecl ctx decl (fst acc) in
            (s', snd acc ++ reported'))
         translationUnit (s, reported))
  = reported
    ++ List.flat_map
         (fun f => snd (TraverseFunctionDecl ctx f initialState))
         (List.filter isPlainFunction translationUnit).
Proof.
  revert s reported.
  induction translationUnit as [|decl l IH]; intros s reported Hs; simpl.
  - now rewrite app_nil_r.
  - destruct (TraverseDecl_outside decl s Hs) as [Hflag Hreported].
    destruct (TraverseDecl ctx decl s) as [s' reported'].
    simpl in Hflag, Hreported. rewrite (IH s' _ Hflag), <- app_assoc.
    f_equal. rewrite Hreported.
    destruct (isPlainFunction decl); reflexivity.
Qed.

(** What a run of the pass over a translation unit reports is what
    [TraverseFunctionDecl] reports, on a fresh visitor, for each function
    of the unit that is no member function, in order: the declarations of
    methods, constructors, destructors and conversion functions do not
    come to [TraverseFunctionDecl], and their parameters are never
    flagged. *)
Theorem run_reports_for_plain_functions
    (translationUnit : list FunctionDecl) :
  run ctx translationUnit
  = List.flat_map (fun f => snd (TraverseFunctionDecl ctx f initialState))
      (List.filter isPlainFunction translationUnit)
  /\ (Forall (fun f => isCXXMethodDecl f = true) translationUnit ->
      run ctx translationUnit = []).
Proof.
  assert (Hrun : run ctx translationUnit
                 = List.flat_map
                     (fun f => snd (TraverseFunctionDecl ctx f initialState))
                     (List.filter isPlainFunction translationUnit)).
  { unfold run. now rewrite (run_fold translationUnit initialState []). }
  split; [exact Hrun|].
  intros Hall. rewrite Hrun. clear Hrun.
  induction Hall as [|f l Hf _ IH]; simpl; [reflexivity|].
  unfold isPlainFunction at 1. rewrite Hf. exact IH.
Qed.

End FatParameters.

(** ** The comma operator *)

Section CommaOperatorMore.
Context (ctx : PluginContext).

Import CommaOperator Spec.

(** [VisitBinaryOperator] goes through a null pointer exactly on a comma
    operator, neither at an ignored location nor suppressed as a macro
    body, whose parent statement is a cleanup wrapper that has no parent
    statement. *)
Theorem comma_null_pointer_exactly_under_parentless_cleanups
    (binaryOp : Expr) :
  VisitBinaryOperator ctx binaryOp = NullPointerDereference
  <-> exists b operatorLoc lhs rhs parent,
        binaryOp = BinaryOperator b BO_Comma operatorLoc lhs rhs
        /\ ignoreLocationStmt ctx (ExprStmt binaryOp) = false
        /\ inIgnoredMacroBody ctx b operatorLoc = false
        /\ parentStmt ctx (ExprStmt binaryOp) = Some parent
        /\ isaExprWithCleanups parent = true
        /\ parentStmt ctx parent = None.
Proof.
  split.
  - destruct binaryOp
      as [| | | | | | | | |b opc operatorLoc lhs rhs| | | | | | | | |];
      try discriminate.
    unfold VisitBinaryOperator.
    destruct (ignoreLocationStmt ctx _) eqn:Hign; [discriminate|].
    destruct (inIgnoredMacroBody ctx b operatorLoc) eqn:Hmac; [discriminate|].
    destruct (bool_decide (opc = BO_Comma)) eqn:Hopc; simpl; [|discriminate].
    apply bool_decide_eq_true in Hopc as ->.
    destruct (parentStmt ctx (ExprStmt _)) as [parent|] eqn:Hpar;
      [|discriminate].
    destruct (isaParenExpr parent); [discriminate|].
    destruct (isaBinaryOperator parent); [discriminate|].
    destruct (isaForStmt parent); [discriminate|].
    destruct (isaExprWithCleanups parent) eqn:Hewc; [|discriminate].
    destruct (parentStmt ctx parent) as [parent2|] eqn:Hpar2.
    + destruct (isaForStmt parent2); discriminate.
    + intros _. exists b, operatorLoc, lhs, rhs, parent. auto 7.
  - intros (b & operatorLoc & lhs & rhs & parent & -> & Hign & Hmac & Hpar
            & Hewc & Hpar2).
    unfold VisitBinaryOperator. rewrite Hign, Hmac, Hpar. simpl.
    destruct parent as [[]| | | |]; try discriminate Hewc.
    simpl. now rewrite Hpar2.
Qed.

(** What [VisitBinaryOperator] reports, it reports on a comma operator
    that is neither at an ignored location nor suppressed as a macro body
    and whose parent is not one of the accepted ones; and it is the one
    warning at the location of the operator.  No other binary operator is
    reported. *)
Theorem comma_report_characterised
    (binaryOp : Expr) (reported : list Diagnostic) :
  VisitBinaryOperator ctx binaryOp = Returned reported ->
  reported <> [] ->
  exists b operatorLoc lhs rhs,
    binaryOp = BinaryOperator b BO_Comma operatorLoc lhs rhs
    /\ ignoreLocationStmt ctx (ExprStmt binaryOp) = false
    /\ inIgnoredMacroBody ctx b operatorLoc = false
    /\ ~ acceptedParent ctx (ExprStmt binaryOp)
    /\ reported = [commaDiagnostic b operatorLoc].
Proof.
  destruct binaryOp
    as [| | | | | | | | |b opc operatorLoc lhs rhs| | | | | | | | |];
    try (intros [= <-] Hne; now contradiction Hne).
  unfold VisitBinaryOperator.
  destruct (ignoreLocationStmt ctx _) eqn:Hign;
    [intros [= <-] Hne; now contradiction Hne|].
  destruct (inIgnoredMacroBody ctx b operatorLoc) eqn:Hmac;
    [intros [= <-] Hne; now contradiction Hne|].
  destruct (bool_decide (opc = BO_Comma)) eqn:Hopc; simpl;
    [|intros [= <-] Hne; now contradiction Hne].
  apply bool_decide_eq_true in Hopc as ->.
  intros Hv Hne.
  exists b, operatorLoc, lhs, rhs.
  split; [reflexivity|].
  split; [first [reflexivity | assumption]|].
  split; [first [reflexivity | assumption]|].
  unfold acceptedParent.
  destruct (parentStmt ctx (ExprStmt _)) as [parent|] eqn:Hpar.
  - destruct (isaParenExpr parent) eqn:H1;
      [injection Hv as <-; now contradiction Hne|].
    destruct (isaBinaryOperator parent) eqn:H2;
      [injection Hv as <-; now contradiction Hne|].
    destruct (isaForStmt parent) eqn:H3;
      [injection Hv as <-; now contradiction Hne|].
    destruct (isaExprWithCleanups parent) eqn:H4.
    + destruct (parentStmt ctx parent) as [parent2|] eqn:Hpar2;
        [|discriminate Hv].
      destruct (isaForStmt parent2) eqn:H5;
        [injection Hv as <-; now contradiction Hne|].
      injection Hv as <-. split; [|reflexivity].
      intros (parent' & [= <-] & [H | [H | [H | (_ & p2 & Hp2 & H)]]]);
        congruence.
    + injection Hv as <-. split; [|reflexivity].
      intros (parent' & [= <-] & [H | [H | [H | (H & _)]]]); congruence.
  - injection Hv as <-. split; [|reflexivity].
    intros (parent' & [=] & _).
Qed.

End CommaOperatorMore.

(** ** More on the explicit casts and on the chains of const_casts *)

Section MoreCasts.
Context (ctx : PluginContext).

Import RedundantCast Spec.

(** A functional cast that is reported is not at an ignored location, has
    a prvalue operand that is no initializer list, yields no record type,
    is no argument of [CPPUNIT_ASSERT] or [CPPUNIT_ASSERT_MESSAGE] and no
    start of an expansion of [FD_ISSET]; its type as written is the
    desugared type of its operand, and the type of the operand itself
    where a typedef is involved; it passes [isOkToRemoveArithmeticCast];
    and it gets one warning, at the cast. *)
Theorem functional_cast_report_characterised
    (b : ExprBits) (typeAsWritten : QualType) (subExpr : Expr) :
  VisitCXXFunctionalCastExpr ctx
    (CXXFunctionalCastExpr b typeAsWritten subExpr) <> [] ->
  ignoreLocationStmt ctx
    (ExprStmt (CXXFunctionalCastExpr b typeAsWritten subExpr)) = false
  /\ getValueKind (getSubExprAsWritten subExpr) = VK_RValue
  /\ isRecordType (bitsType b) = false
  /\ isaInitListExpr (getSubExprAsWritten subExpr) = false
  /\ isaCXXStdInitializerListExpr (getSubExprAsWritten subExpr) = false
  /\ (isMacroArgExpansion (bitsExprLoc b)
      && (bool_decide (getImmediateMacroName (bitsExprLoc b)
                       = "CPPUNIT_ASSERT"%string)
          || bool_decide (getImmediateMacroName (bitsExprLoc b)
                          = "CPPUNIT_ASSERT_MESSAGE"%string))) = false
  /\ (isMacroID (getLocEnd (getSubExprAsWritten subExpr))
      && startsExpansionOfFdIsset
           (getLocStart (getSubExprAsWritten subExpr))) = false
  /\ typeAsWritten = getDesugaredType (getType (getSubExprAsWritten subExpr))
  /\ (TypeCheck_Typedef typeAsWritten
      || TypeCheck_Typedef (getType (getSubExprAsWritten subExpr)) = true
      -> typeAsWritten = getType (getSubExprAsWritten subExpr))
  /\ isOkToRemoveArithmeticCast typeAsWritten
       (getDesugaredType (getType (getSubExprAsWritten subExpr))) subExpr
     = true
  /\ VisitCXXFunctionalCastExpr ctx
       (CXXFunctionalCastExpr b typeAsWritten subExpr)
     = [mkDiagnostic Warning msgFunctionalCast (bitsExprLoc b)
          [ArgType (getType (getSubExprAsWritten subExpr));
           ArgType typeAsWritten;
           ArgRange (bitsLocStart b, bitsLocEnd b)]].
Proof.
  unfold VisitCXXFunctionalCastExpr.
  destruct (ignoreLocationStmt ctx _) eqn:Hign; [congruence|].
  change (getType (CXXFunctionalCastExpr b typeAsWritten subExpr))
    with (bitsType b).
  change (getExprLoc (CXXFunctionalCastExpr b typeAsWritten subExpr))
    with (bitsExprLoc b).
  destruct (bool_decide (getValueKind (getSubExprAsWritten subExpr) = VK_RValue))
    eqn:Hk; simpl; [|congruence].
  apply bool_decide_eq_true in Hk.
  destruct (isRecordType (bitsType b)) eqn:Hrec; simpl; [congruence|].
  destruct (isaInitListExpr _) eqn:Hil; simpl; [congruence|].
  destruct (isaCXXStdInitializerListExpr _) eqn:Hsl; simpl; [congruence|].
  destruct (isMacroArgExpansion (bitsExprLoc b) && _) eqn:Hcpp; [congruence|].
  destruct (isMacroID _ && _) eqn:Hfd; [congruence|].
  destruct (bool_decide (typeAsWritten = getDesugaredType _)) eqn:Hty; simpl;
    [|congruence].
  apply bool_decide_eq_true in Hty.
  destruct ((TypeCheck_Typedef typeAsWritten || _) && _) eqn:Htd;
    [congruence|].
  destruct (isOkToRemoveArithmeticCast _ _ _) eqn:Hgate; simpl;
    [|congruence].
  intros _. repeat split; auto.
  intros Htyp. rewrite Htyp in Htd. simpl in Htd.
  apply negb_false_iff, bool_decide_eq_true in Htd. exact Htd.
Qed.

(** A static_cast that is reported as redundant has the canonical type of
    its operand as written, up to qualifiers; it passes
    [isOkToRemoveArithmeticCast]; it makes no xvalue from another value kind
    and no lvalue from an xvalue; it is not the cast of the definition of
    [assert]; and this warning, at the cast, is all that is reported. *)
Theorem static_cast_redundant_report
    (b : ExprBits) (typeAsWritten : QualType) (subExpr : Expr)
    (reported : list Diagnostic) (d : Diagnostic) :
  VisitCXXStaticCastExpr ctx (CXXStaticCastExpr b typeAsWritten subExpr)
  = Returned reported ->
  In d reported ->
  diagMessage d = msgStaticCastRedundant ->
  getTypePtr (getCanonicalType (getType (getSubExprAsWritten subExpr)))
  = getTypePtr (getCanonicalType (bitsType b))
  /\ isOkToRemoveArithmeticCast (getType (getSubExprAsWritten subExpr))
       typeAsWritten subExpr = true
  /\ (bitsValueKind b = VK_XValue
      -> getValueKind (getSubExprAsWritten subExpr) = VK_XValue)
  /\ (bitsValueKind b = VK_LValue
      -> getValueKind (getSubExprAsWritten subExpr) <> VK_XValue)
  /\ inAssertMacro (getType (getSubExprAsWritten subExpr)) typeAsWritten
       (CXXStaticCastExpr b typeAsWritten subExpr) = false
  /\ reported = [d]
  /\ diagLocation d = bitsExprLoc b.
Proof.
  unfold VisitCXXStaticCastExpr.
  change (getType (CXXStaticCastExpr b typeAsWritten subExpr))
    with (bitsType b).
  change (getValueKind (CXXStaticCastExpr b typeAsWritten subExpr))
    with (bitsValueKind b).
  destruct (ignoreLocationStmt ctx _); [intros [= <-] []|].
  destruct (_ && hasLocalQualifiers typeAsWritten).
  { intros [= <-] [<- | []] Hm. discriminate Hm. }
  set (nco := isObjectType typeAsWritten
              && negb (isRecordType typeAsWritten || isArrayType typeAsWritten)).
  destruct (if nco || negb (canConstCastFromTo _ _) then _ else _) eqn:Hdiff.
  { match goal with
    | |- (if ?c then _ else _) = _ -> _ => destruct c
    end;
      [intros [= <-] []|].
    intros [= <-] [<- | []] Hm. discriminate Hm. }
  assert (Hptr : getTypePtr
                   (getCanonicalType (getType (getSubExprAsWritten subExpr)))
                 = getTypePtr (getCanonicalType (bitsType b))).
  { destruct (nco || negb (canConstCastFromTo _ _)).
    - apply negb_false_iff, bool_decide_eq_true in Hdiff. exact Hdiff.
    - apply negb_false_iff, bool_decide_eq_true in Hdiff. now rewrite Hdiff. }
  destruct (isOkToRemoveArithmeticCast _ _ _) eqn:Hgate; simpl;
    [|intros [= <-] []].
  destruct (voidPointerTypedefsDiffer _ _) as [[|]|]; try discriminate;
    [intros [= <-] []|].
  destruct (bool_decide (bitsValueKind b = VK_XValue)
            && negb (bool_decide (getValueKind _ = VK_XValue))
            || bool_decide (bitsValueKind b = VK_LValue)
               && bool_decide (getValueKind _ = VK_XValue)) eqn:Hk;
    [intros [= <-] []|].
  destruct (inAssertMacro _ _ _) eqn:Hassert; [intros [= <-] []|].
  intros [= <-] [<- | []] _.
  apply orb_false_iff in Hk as [Hk1 Hk2].
  repeat split; auto.
  - intros Hx. rewrite (bool_decide_eq_true_2 _ Hx) in Hk1. simpl in Hk1.
    now apply negb_false_iff, bool_decide_eq_true in Hk1.
  - intros Hl Hx.
    rewrite (bool_decide_eq_true_2 _ Hl), (bool_decide_eq_true_2 _ Hx) in Hk2.
    discriminate Hk2.
Qed.

Lemma desugarTy_no_typedef (t : Ty) :
  match fst (desugarTy t) with TypedefType _ _ _ _ => False | _ => True end.
Proof.
  induction t; simpl; auto.
  destruct (desugarTy t) as [u [c v]]. exact IHt.
Qed.

Lemma pointee_of_pointer (t : QualType) :
  isPointerType t = true -> getPointeeType t <> None.
Proof.
  unfold isPointerType, getPointeeType, canonicalNode.
  rewrite <- canonTy_desugarTy.
  pose proof (desugarTy_no_typedef (getTypePtr t)) as Hno.
  destruct (fst (desugarTy (getTypePtr t))); simpl;
    try discriminate; try contradiction;
    repeat match goal with
           | |- context [canonTy ?x] => destruct (canonTy x) as [? [? ?]]
           end;
    simpl; discriminate.
Qed.

(** The loop over a chain of const_casts returns where the implicit cast
    has pointer type and the operand of every const_cast of the chain
    has. *)
Lemma constCastLoop_returns (expr e : Expr) :
  isPointerType (getType expr) = true ->
  (forall cb typeAsWritten ccSub,
     In (CXXConstCastExpr cb typeAsWritten ccSub) (subExprs e) ->
     isPointerType (getType ccSub) = true) ->
  constCastLoop getPointeeType expr e <> None.
Proof.
  intros Hexpr. induction e; simpl; intros Hall; try discriminate.
  - apply IHe. intros cb tw s Hin. apply (Hall cb tw s). now right.
  - apply IHe. intros cb tw s Hin. apply (Hall cb tw s). now right.
  - pose proof (pointee_of_pointer _ Hexpr) as H1.
    pose proof (pointee_of_pointer _ (Hall b typeAsWritten e (or_introl eq_refl)))
      as H2.
    destruct (getPointeeType (getType expr)); [|contradiction].
    destruct (getPointeeType (getType e)); [|contradiction].
    assert (H3 : constCastLoop getPointeeType expr e <> None).
    { apply IHe. intros cb tw s Hin. apply (Hall cb tw s). now right. }
    destruct (constCastLoop getPointeeType expr e) as [[? ?]|];
      [discriminate | contradiction].
Qed.

(** [VisitImplicitCastExpr] returns on every conversion to a void pointer
    and on every derived-to-base conversion of pointers where the operand
    of each const_cast below the implicit cast has pointer type. *)
Theorem implicit_cast_returns_on_pointers
    (b : ExprBits) (kind : CastKind) (subExpr : Expr) :
  isReferenceType (bitsType b) = false ->
  (forall cb typeAsWritten ccSub,
     In (CXXConstCastExpr cb typeAsWritten ccSub) (subExprs subExpr) ->
     isPointerType (getType ccSub) = true) ->
  exists reported,
    VisitImplicitCastExpr ctx (ImplicitCastExpr b kind subExpr)
    = Returned reported.
Proof.
  intros Href Hall. unfold VisitImplicitCastExpr.
  change (getType (ImplicitCastExpr b kind subExpr)) with (bitsType b).
  destruct (ignoreLocationStmt ctx _); [eauto|].
  destruct kind; eauto.
  - repeat case_match; eauto.
  - destruct (isVoidPointer (bitsType b)) eqn:Hv; simpl; [|eauto].
    destruct (isPointerType (getType subExpr)); simpl; [|eauto].
    assert (Hp : isPointerType (bitsType b) = true).
    { unfold isVoidPointer in Hv. now apply andb_true_iff in Hv as [Hv _]. }
    pose proof (constCastLoop_returns (ImplicitCastExpr b CK_BitCast subExpr)
                  subExpr Hp Hall) as Hl.
    destruct (constCastLoop _ _ _) as [[? ?]|]; [eauto | contradiction].
  - destruct (isPointerType (bitsType b)) eqn:Hp.
    + pose proof (constCastLoop_returns
                    (ImplicitCastExpr b CK_DerivedToBase subExpr)
                    subExpr Hp Hall) as Hl.
      destruct (constCastLoop _ _ _) as [[? ?]|]; [eauto | contradiction].
    + rewrite Href. eauto.
  - destruct (isPointerType (bitsType b)) eqn:Hp.
    + pose proof (constCastLoop_returns
                    (ImplicitCastExpr b CK_UncheckedDerivedToBase subExpr)
                    subExpr Hp Hall) as Hl.
      destruct (constCastLoop _ _ _) as [[? ?]|]; [eauto | contradiction].
    + rewrite Href. eauto.
Qed.

End MoreCasts.

(** ** The further properties at concrete inputs *)

(** [(int)x] is reported, and so meets the conditions. *)
Lemma cstyle_cast_report_characterised_witness :
  Spec.cstylePattern plainContext castBits intTy operandX
  /\ RedundantCast.cstyleInIgnoredMacroBody plainContext
       (CStyleCastExpr castBits intTy operandX) = false
  /\ RedundantCast.VisitCStyleCastExpr plainContext
       (CStyleCastExpr castBits intTy operandX)
     = [Spec.cstyleDiagnostic castBits intTy].
Proof.
  apply (cstyle_cast_report_characterised plainContext castBits intTy operandX).
  intros H. discriminate H.
Defined.

(** [static_cast<void*&>(p)] is where the callback reads the pointee of a
    type that is no pointer. *)
Lemma static_cast_null_pointer_only_from_void_pointer_witness :
  RedundantCast.TypeCheck_Pointer_NonConstVolatile_Void
    (getType (getSubExprAsWritten varP)) = true
  /\ getAsTypedefType (getType (getSubExprAsWritten varP)) = None
  /\ getAsTypedefType referenceToVoidPointerTy = None
  /\ getPointeeType referenceToVoidPointerTy = None.
Proof.
  apply (static_cast_null_pointer_only_from_void_pointer plainContext
           castToReferenceBits referenceToVoidPointerTy varP).
  reflexivity.
Defined.

(** [const_cast<const int *>(static_cast<int *>(q))] is not reported as a
    combination. *)
Lemma combination_needs_qualifier_in_static_cast_witness :
  Spec.notReported RedundantCast.msgStaticConstCombination
    (RedundantCast.VisitCXXConstCastExpr plainContext
       (CXXConstCastExpr (bitsAt constIntPointerTy VK_RValue 800)
          constIntPointerTy staticCastOfQ)).
Proof.
  apply (combination_needs_qualifier_in_static_cast plainContext
           (bitsAt constIntPointerTy VK_RValue 800) constIntPointerTy
           staticCastOfQ (bitsAt intPointerTy VK_RValue 810) intPointerTy
           operandQ);
    reflexivity.
Defined.

(** [const int * r = const_cast<int *>(q);]: the const_cast is reported by
    its own callback, and not by the one for the implicit conversion. *)
Lemma redundant_const_cast_not_reported_twice_witness :
  RedundantCast.VisitImplicitCastExpr plainContext
    (ImplicitCastExpr toConstBits CK_NoOp constCastOfQ) = Returned [].
Proof.
  apply (redundant_const_cast_not_reported_twice plainContext toConstBits
           constCastBits constCastOfQ intPointerTy operandQ
           (mkDiagnostic Warning RedundantCast.msgConstCast (mainFile 800)
              [ArgType intPointerTy; ArgString "lvalue";
               ArgType intPointerTy; ArgString "prvalue";
               ArgRange (mainFile 800, mainFile 801)])).
  - reflexivity.
  - left. reflexivity.
  - reflexivity.
Defined.

(** [void * v = reinterpret_cast<int *>(p);] *)
Lemma reinterpret_cast_to_void_pointer_reported_witness :
  RedundantCast.VisitImplicitCastExpr plainContext
    (ImplicitCastExpr toVoidBits CK_BitCast reinterpretOfP)
  = Returned [mkDiagnostic Warning RedundantCast.msgReinterpretToVoid
                (mainFile 900) [ArgRange (mainFile 900, mainFile 901)]].
Proof.
  apply (reinterpret_cast_to_void_pointer_reported plainContext toVoidBits
           reinterpretBits reinterpretOfP intPointerTy operandP);
    reflexivity.
Defined.

Lemma implicit_cast_reports_at_named_casts_witness :
  diagLevel (mkDiagnostic Warning RedundantCast.msgReinterpretToVoid
               (mainFile 900) [ArgRange (mainFile 900, mainFile 901)])
  = Warning
  /\ exists c,
       In c (Spec.subExprs (ImplicitCastExpr toVoidBits CK_BitCast reinterpretOfP))
       /\ Spec.isNamedCast c = true
       /\ diagLocation
            (mkDiagnostic Warning RedundantCast.msgReinterpretToVoid
               (mainFile 900) [ArgRange (mainFile 900, mainFile 901)])
          = getExprLoc c.
Proof.
  apply (implicit_cast_reports_at_named_casts plainContext
           (ImplicitCastExpr toVoidBits CK_BitCast reinterpretOfP)
           [mkDiagnostic Warning RedundantCast.msgReinterpretToVoid
              (mainFile 900) [ArgRange (mainFile 900, mainFile 901)]]).
  - reflexivity.
  - left. reflexivity.
Defined.

(** [void * v = static_cast<int *>(p);], outside of any macro. *)
Lemma static_cast_from_void_pointer_report_witness :
  exists sb typeAsWritten s,
    In (CXXStaticCastExpr sb typeAsWritten s)
      (Spec.subExprs (ImplicitCastExpr toVoidBits CK_BitCast staticOfP))
    /\ mainFile 910 = bitsExprLoc sb
    /\ isMacroBodyExpansion (bitsLocStart sb) = false
    /\ RedundantCast.isVoidPointer (getType (IgnoreParenImpCasts s)) = true.
Proof.
  apply (static_cast_from_void_pointer_report plainContext
           (ImplicitCastExpr toVoidBits CK_BitCast staticOfP)
           [mkDiagnostic Warning RedundantCast.msgStaticFromVoid
              (mainFile 910) [ArgRange (mainFile 910, mainFile 911)]]
           (mkDiagnostic Warning RedundantCast.msgStaticFromVoid
              (mainFile 910) [ArgRange (mainFile 910, mainFile 911)])).
  - reflexivity.
  - left. reflexivity.
  - reflexivity.
Defined.

(** [reinterpret_cast<int *>(p)]: rewritten where there is a rewriter that
    succeeds, reported where there is none. *)
Lemma reinterpret_cast_rewritten_or_reported_witness :
  RedundantCast.VisitCXXReinterpretCastExpr plainContext
    (Some obligingRewriter) reinterpretOfP
  = ([], [RedundantCast.mkEdit (mainFile 900) 16 "static_cast"])
  /\ (length (fst (RedundantCast.VisitCXXReinterpretCastExpr plainContext None
                     reinterpretOfP))
      + length (snd (RedundantCast.VisitCXXReinterpretCastExpr plainContext
                       None reinterpretOfP)) = 1)%nat.
Proof.
  split; [reflexivity|].
  apply (reinterpret_cast_rewritten_or_reported plainContext None
           reinterpretBits intPointerTy operandP
           (mkQualType (BuiltinType BK_Int) false false));
    reflexivity.
Defined.

Lemma reinterpret_cast_only_token_rewritten_witness :
  exists rw b typeAsWritten subExpr,
    Some obligingRewriter = Some rw
    /\ reinterpretOfP = CXXReinterpretCastExpr b typeAsWritten subExpr
    /\ RedundantCast.isVoidPointerType (getType subExpr) = true
    /\ mainFile 900 = RedundantCast.rewriteLocation reinterpretOfP
    /\ RedundantCast.tokenAt rw (mainFile 900) = "reinterpret_cast"%string
    /\ 16%nat = 16%nat
    /\ "static_cast"%string = "static_cast"%string
    /\ RedundantCast.replaceText rw (mainFile 900) 16 "static_cast" = true
    /\ RedundantCast.VisitCXXReinterpretCastExpr plainContext
         (Some obligingRewriter) reinterpretOfP
       = ([], [RedundantCast.mkEdit (mainFile 900) 16 "static_cast"]).
Proof.
  apply (reinterpret_cast_only_token_rewritten plainContext
           (Some obligingRewriter) reinterpretOfP
           (RedundantCast.mkEdit (mainFile 900) 16 "static_cast")).
  left. reflexivity.
Defined.

(** In [void f(OUString a, OUString b) { a = b; }] what is excluded is
    assigned to. *)
Lemma excluded_only_if_assigned_witness :
  exists e p,
    In e (Spec.exprsOfFunction functionAssigning)
    /\ In e (PassParamsByRef.traversedFunction plainContext functionAssigning)
    /\ Spec.assignsTo e p /\ parmId p = 1%positive.
Proof.
  apply (excluded_only_if_assigned plainContext functionAssigning
           PassParamsByRef.initialState 1%positive).
  - reflexivity.
  - apply elem_of_union_l, elem_of_singleton_2. reflexivity.
Defined.

(** In the same function [b] is fat and not assigned to, and is flagged. *)
Lemma unassigned_fat_parameter_flagged_witness :
  In (Spec.passByValueWarning paramB)
    (snd (PassParamsByRef.TraverseFunctionDecl plainContext functionAssigning
            PassParamsByRef.initialState)).
Proof.
  apply (unassigned_fat_parameter_flagged plainContext functionAssigning
           PassParamsByRef.initialState paramB).
  - reflexivity.
  - right; left. reflexivity.
  - reflexivity.
  - reflexivity.
  - intros e q Hin Ha. simpl in Hin.
    destruct Hin as [<- | [<- | [<- | [<- | []]]]];
      destruct Ha as [(? & ? & ? & ? & He) | (? & ? & ? & ? & He & _)];
      try discriminate He.
    injection He as _ _ _ <- _. discriminate.
Defined.

(** [void g(int n) {}] gets no diagnostic. *)
Lemma no_record_parameter_no_report_witness :
  snd (PassParamsByRef.TraverseFunctionDecl plainContext functionOfInt
         PassParamsByRef.initialState) = [].
Proof.
  apply (no_record_parameter_no_report plainContext functionOfInt
           PassParamsByRef.initialState).
  repeat constructor.
Defined.

(** The statement [a, b;] is reported, and so its parent is none of the
    accepted ones. *)
Lemma comma_report_characterised_witness :
  exists b operatorLoc lhs rhs,
    bareComma = BinaryOperator b BO_Comma operatorLoc lhs rhs
    /\ ignoreLocationStmt statementContext (ExprStmt bareComma) = false
    /\ CommaOperator.inIgnoredMacroBody statementContext b operatorLoc = false
    /\ ~ Spec.acceptedParent statementContext (ExprStmt bareComma)
    /\ [Spec.commaDiagnostic commaBits (mainFile 602)]
       = [Spec.commaDiagnostic b operatorLoc].
Proof.
  apply (comma_report_characterised statementContext bareComma
           [Spec.commaDiagnostic commaBits (mainFile 602)]).
  - reflexivity.
  - discriminate.
Defined.


(** [int(f())] is reported, and so meets the conditions. *)
Lemma functional_cast_report_characterised_witness :
  RedundantCast.VisitCXXFunctionalCastExpr plainContext
    (CXXFunctionalCastExpr castBits intTy callOfF)
  = [mkDiagnostic Warning RedundantCast.msgFunctionalCast (mainFile 10)
       [ArgType intTy; ArgType intTy; ArgRange (mainFile 10, mainFile 11)]].
Proof.
  apply (functional_cast_report_characterised plainContext castBits intTy
           callOfF).
  intros H. discriminate H.
Defined.

(** [static_cast<int>(x)] is reported as redundant, and so has the type
    of [x]. *)
Lemma static_cast_redundant_report_witness :
  getTypePtr (getCanonicalType (getType (getSubExprAsWritten operandX)))
  = getTypePtr (getCanonicalType (bitsType castBits))
  /\ RedundantCast.isOkToRemoveArithmeticCast
       (getType (getSubExprAsWritten operandX)) intTy operandX = true
  /\ (bitsValueKind castBits = VK_XValue
      -> getValueKind (getSubExprAsWritten operandX) = VK_XValue)
  /\ (bitsValueKind castBits = VK_LValue
      -> getValueKind (getSubExprAsWritten operandX) <> VK_XValue)
  /\ RedundantCast.inAssertMacro (getType (getSubExprAsWritten operandX)) intTy
       (CXXStaticCastExpr castBits intTy operandX) = false
  /\ [redundantStaticCastOfX] = [redundantStaticCastOfX]
  /\ diagLocation redundantStaticCastOfX = bitsExprLoc castBits.
Proof.
  apply (static_cast_redundant_report plainContext castBits intTy operandX
           [redundantStaticCastOfX] redundantStaticCastOfX).
  - reflexivity.
  - left. reflexivity.
  - reflexivity.
Defined.

(** The conversion of [const_cast<int *>(q)] to [void *]: the loop comes to
    the const_cast, whose operand [q] has pointer type, reads the two
    pointees, and the callback returns with the report on the
    const_cast. *)
Lemma implicit_cast_returns_on_pointers_witness :
  (exists reported,
     RedundantCast.VisitImplicitCastExpr plainContext
       (ImplicitCastExpr toVoidBits CK_BitCast constCastOfQ)
     = Returned reported)
  /\ RedundantCast.VisitImplicitCastExpr plainContext
       (ImplicitCastExpr toVoidBits CK_BitCast constCastOfQ)
     = Returned
         [RedundantCast.ultimatelyDiagnostic
            (ImplicitCastExpr toVoidBits CK_BitCast constCastOfQ)
            constCastOfQ operandQ].
Proof.
  split; [|reflexivity].
  apply (implicit_cast_returns_on_pointers plainContext toVoidBits CK_BitCast
           constCastOfQ).
  - reflexivity.
  - intros cb typeAsWritten ccSub Hin. simpl in Hin.
    destruct Hin as [H | [H | [H | []]]]; try discriminate H.
    injection H as _ _ <-. reflexivity.
Defined.

(** [obj(const_cast<char *>(s))], a call of the variadic
    [operator()(char const * fmt, ...)] with no argument beyond the named
    one: the const_cast passed to [fmt] is reported. *)
Example variadic_operator_call_reports_named_argument :
  RedundantCast.VisitCallExpr plainContext oneNamedParameter
    (fun _ => Some callOperator) callOfOperator
  = [mkDiagnostic Warning RedundantCast.msgVariadic (mainFile 1510)
       [ArgRange (mainFile 1500, mainFile 1501)]].
Proof. reflexivity. Qed.

(** The parameter of [void m(OUString a) {}] is flagged; that of the
    method [void C::m(OUString a) {}] is not. *)
Example method_parameter_not_flagged :
  PassParamsByRef.run plainContext [declarationOfKind FK_Function]
  = [flagged paramA]
  /\ PassParamsByRef.run plainContext [declarationOfKind FK_CXXMethod] = []
  /\ PassParamsByRef.run plainContext [ctorCopyBoth] = [].
Proof. repeat split. Qed.
